(** * go-pd: content-dedup ledger and upload orchestrator

    A shallow embedding of the upload core of [pkg/pd] and [pkg/pd/utils]:
    the hash ledger ([hash_utils.go]), the audit log ([csv_writer.go] and its
    revision with formatted sizes), the directory walker and the orchestrator
    ([pd.go]: [UploadPOST], [uploadFile], [UploadDirectory]).

    Everything outside the process -- the files to upload, the two CSV stores,
    the [ENV_MODE] variable, the clock and the remote service -- is gathered
    in one [World] value that the Go functions read and update. *)

From Stdlib Require Import ZArith Strings.String Strings.Ascii Strings.Byte List Lia.
From stdpp Require Import base option list gmap strings fin_maps pretty.

Local Open Scope string_scope.
Local Open Scope list_scope.

(* ===================================================================== *)
(** ** crypto/sha256, encoding/hex                                        *)
(* ===================================================================== *)

(** [CalculateFileHash] streams a file through [sha256.New()] and
    hex-encodes the sum.  The hash is the standard FIPS 180-4 SHA-256 over
    32-bit words, written on [Z] with the wrap-around explicit. *)
Module Sha256.
Local Open Scope Z_scope.

Definition w32 (x : Z) : Z := x mod 2 ^ 32.
Definition add32 (x y : Z) : Z := w32 (x + y).
Definition rotr (n x : Z) : Z :=
  Z.lor (Z.shiftr x n) (w32 (Z.shiftl x (32 - n))).
Definition not32 (x : Z) : Z := Z.lxor x 0xffffffff.

Definition Ch (x y z : Z) : Z := Z.lxor (Z.land x y) (Z.land (not32 x) z).
Definition Maj (x y z : Z) : Z :=
  Z.lxor (Z.lxor (Z.land x y) (Z.land x z)) (Z.land y z).
Definition bsig0 (x : Z) : Z :=
  Z.lxor (Z.lxor (rotr 2 x) (rotr 13 x)) (rotr 22 x).
Definition bsig1 (x : Z) : Z :=
  Z.lxor (Z.lxor (rotr 6 x) (rotr 11 x)) (rotr 25 x).
Definition ssig0 (x : Z) : Z :=
  Z.lxor (Z.lxor (rotr 7 x) (rotr 18 x)) (Z.shiftr x 3).
Definition ssig1 (x : Z) : Z :=
  Z.lxor (Z.lxor (rotr 17 x) (rotr 19 x)) (Z.shiftr x 10).

(** The first 64 primes. *)
Definition is_prime (p : Z) : bool :=
  forallb (fun d => negb (p mod Z.of_nat d =? 0)) (seq 2 (Z.to_nat p - 2)).

Definition primes : list Z :=
  filter (fun p => is_prime p = true) (map Z.of_nat (seq 2 310)).

(** The integer cube root, one bit after the other from [2 ^ bits] down. *)
Fixpoint cbrt_from (bits : nat) (n r : Z) : Z :=
  match bits with
  | O => r
  | S b =>
      let c := r + 2 ^ Z.of_nat b in
      if c * c * c <=? n then cbrt_from b n c else cbrt_from b n r
  end.

(** The round constants: the first 32 bits of the fractional parts of the
    cube roots of the first 64 primes. *)
Definition K : list Z :=
  Eval vm_compute in map (fun p => w32 (cbrt_from 40 (p * 2 ^ 96) 0)) primes.

(** The initial hash value: the first 32 bits of the fractional parts of
    the square roots of the first 8 primes. *)
Definition H0 : list Z :=
  Eval vm_compute in map (fun p => w32 (Z.sqrt (p * 2 ^ 64))) (firstn 8 primes).

(** The message is followed by [0x80], zero bytes up to 56 modulo 64, and
    the bit length as a big-endian 64-bit integer. *)
Definition be_bytes (n : nat) (x : Z) : list Z :=
  map (fun i => Z.land (Z.shiftr x (8 * Z.of_nat i)) 0xff) (rev (seq 0 n)).

Definition pad (msg : list Z) : list Z :=
  let len := Z.of_nat (length msg) in
  let zeros := Z.to_nat ((55 - len) mod 64) in
  msg ++ 0x80 :: repeat 0 zeros ++ be_bytes 8 (8 * len).

Definition be_word (bs : list Z) : Z :=
  fold_left (fun acc b => Z.lor (Z.shiftl acc 8) b) bs 0.

Fixpoint chunks (count size : nat) (l : list Z) : list (list Z) :=
  match count with
  | O => []
  | S count => firstn size l :: chunks count size (skipn size l)
  end.

(** One round: [st] holds the working variables a..h, [win] the sixteen
    schedule words W[t..t+15]. *)
Definition round (acc : list Z * list Z) (k : Z) : list Z * list Z :=
  match acc with
  | ([a; b; c; d; e; f; g; h],
     (w0 :: w1 :: _ :: _ :: _ :: _ :: _ :: _ ::
      _ :: w9 :: _ :: _ :: _ :: _ :: w14 :: _) as win) =>
      let t1 := add32 (add32 (add32 (add32 h (bsig1 e)) (Ch e f g)) k) w0 in
      let t2 := add32 (bsig0 a) (Maj a b c) in
      let w16 := add32 (add32 (add32 (ssig1 w14) w9) (ssig0 w1)) w0 in
      ([add32 t1 t2; a; b; c; add32 d t1; e; f; g], tl win ++ [w16])
  | _ => acc
  end.

Definition compress (h : list Z) (block : list Z) : list Z :=
  let win := map be_word (chunks 16 4 block) in
  let st := fst (fold_left round K (h, win)) in
  map (fun p => add32 (fst p) (snd p)) (combine h st).

Definition sum (msg : list Z) : list Z :=
  let p := pad msg in
  fold_left compress (chunks (length p / 64) 64 p) H0.
End Sha256.

Module Hex.
Definition digit (n : Z) : ascii :=
  ascii_of_nat (Z.to_nat (if (n <? 10)%Z then 48 + n else 87 + n)%Z).

(** [n] lowercase hexadecimal digits of [x], most significant first. *)
Definition of_word (n : nat) (x : Z) : string :=
  string_of_list_ascii
    (map (fun i => digit (Z.land (Z.shiftr x (4 * Z.of_nat i)) 0xf))
         (rev (seq 0 n))).

(** hex.EncodeToString(hash.Sum(nil)) *)
Definition EncodeWords (ws : list Z) : string :=
  fold_right (fun w s => of_word 8 w +:+ s) "" ws.
End Hex.

Definition bytes_of_string (s : string) : list byte := list_byte_of_string s.

Definition sha256_hex (content : list byte) : string :=
  Hex.EncodeWords (Sha256.sum (map (fun b => Z.of_N (Byte.to_N b)) content)).

(* ===================================================================== *)
(** ** Errors and results                                                 *)
(* ===================================================================== *)

(** The Go functions return [(value, error)] pairs.  The errors that the
    state of the world determines are listed here; failures of the medium
    itself (a full disk, revoked permissions) are outside the model. *)
Inductive error : Type :=
| ErrMissingPathToFile            (* "file path or file reader is required" *)
| ErrMissingFilename              (* "if you use ReadCloser you need to ..." *)
| ErrNotExist (path : string)     (* os.Stat, os.Lstat, os.Open: no such file *)
| ErrIsDirectory (path : string)  (* reading the bytes of a directory *)
| ErrReadDir (path : string)      (* a directory whose entries cannot be listed *)
| ErrFieldCount                   (* csv.ErrFieldCount from Reader.ReadAll *)
| ErrIndexOutOfRange              (* run-time panic on record[0] / record[1] *)
| ErrTransport (msg : string)     (* the error of Request.Post *)
| ErrJSON                         (* the error of rsp.ToJSON *)
| ErrDepth.                       (* the model's recursion bound, see UploadPOST *)

Inductive res (A : Type) : Type :=
| Ok (a : A)
| Err (e : error).
Arguments Ok {A} a.
Arguments Err {A} e.

(* ===================================================================== *)
(** ** The world                                                          *)
(* ===================================================================== *)

(** What os.Lstat and ioutil.ReadDir can find at a path.  Symbolic links and
    device files are not modelled. *)
#[warnings="-register-all"]
Inductive node : Type :=
| FileNode (content : list byte)
| DirNode (entries : list (string * node))  (* in the order filepath.Walk visits *)
| Locked                                    (* a directory that cannot be listed *)
| Vanished.                                 (* a listed name whose Lstat fails *)

(** One call of [Request.Post]. *)
Record Sent : Type := {
  sURL : string;
  sFileName : string;
  sBody : list byte;
  sAnonymous : bool;
  sAuthorization : option string   (* the API key behind "Basic ..." *)
}.

(** The JSON fields of an upload response that [rsp.ToJSON] stores in a
    [ResponseUpload]; the status code is taken from the HTTP response. *)
Record JsonBody : Type := {
  jID : string;
  jSuccess : bool;
  jMessage : string
}.

Inductive Reply : Type :=
| TransportError (msg : string)
| Response (status : Z) (body : option JsonBody).  (* None: not JSON *)

Record World : Type := {
  env_mode : string;                        (* os.Getenv("ENV_MODE") *)
  roots : list (string * node);             (* file trees, by the path of their root *)
  csvs : gmap string (list (list string));  (* CSV stores: the records at a location *)
  remote : list Sent -> Sent -> Reply;      (* the service, given the calls so far *)
  sent : list Sent;                         (* the calls so far, oldest first *)
  now : string;                             (* time.Now().Format(time.RFC3339) *)
  sniff : list byte -> string;              (* http.DetectContentType *)
  header_auth : option string               (* pd.Client.Header["Authorization"] *)
}.

Definition set_env (e : string) (w : World) : World :=
  {| env_mode := e; roots := roots w; csvs := csvs w; remote := remote w;
     sent := sent w; now := now w; sniff := sniff w;
     header_auth := header_auth w |}.

Definition set_csvs (c : gmap string (list (list string))) (w : World) : World :=
  {| env_mode := env_mode w; roots := roots w; csvs := c; remote := remote w;
     sent := sent w; now := now w; sniff := sniff w;
     header_auth := header_auth w |}.

Definition set_sent (s : list Sent) (w : World) : World :=
  {| env_mode := env_mode w; roots := roots w; csvs := csvs w;
     remote := remote w; sent := s; now := now w; sniff := sniff w;
     header_auth := header_auth w |}.

(** The files are edited between two runs. *)
Definition set_roots (files : list (string * node)) (w : World) : World :=
  {| env_mode := env_mode w; roots := files; csvs := csvs w;
     remote := remote w; sent := sent w; now := now w; sniff := sniff w;
     header_auth := header_auth w |}.

Definition set_header_auth (a : option string) (w : World) : World :=
  {| env_mode := env_mode w; roots := roots w; csvs := csvs w;
     remote := remote w; sent := sent w; now := now w; sniff := sniff w;
     header_auth := a |}.

(** A Go function that may touch the world: it returns its result and the
    world it leaves, also when it fails. *)
Definition M (A : Type) : Type := World -> res A * World.

Definition ret {A} (a : A) : M A := fun w => (Ok a, w).
Definition fail {A} (e : error) : M A := fun w => (Err e, w).
Definition bind {A B} (m : M A) (k : A -> M B) : M B :=
  fun w => match m w with
           | (Ok a, w') => k a w'
           | (Err e, w') => (Err e, w')
           end.
Definition lift {A} (r : res A) : M A := fun w => (r, w).

#[global] Instance M_ret : MRet M := @ret.
#[global] Instance M_bind : MBind M := fun A B k m => bind m k.

(* ===================================================================== *)
(** ** Paths                                                              *)
(* ===================================================================== *)

(** filepath.Join(path, name) where filepath.Clean has nothing to do: for a
    cleaned [path] other than "." and "/", and a plain entry [name]. *)
Definition Join (path name : string) : string := path +:+ "/" +:+ name.

Fixpoint drop_slashes (l : list ascii) : list ascii :=
  match l with
  | "/"%char :: l' => drop_slashes l'
  | _ => l
  end.

Fixpoint upto_slash (l : list ascii) : list ascii :=
  match l with
  | [] => []
  | "/"%char :: _ => []
  | c :: l' => c :: upto_slash l'
  end.

(** filepath.Base: the last element of the path, trailing separators
    removed; "." for the empty path and "/" for a path of separators. *)
Definition Base (path : string) : string :=
  match list_ascii_of_string path with
  | [] => "."
  | l => match upto_slash (drop_slashes (rev l)) with
         | [] => "/"
         | b => string_of_list_ascii (rev b)
         end
  end.

(** Every path below a root, with what is found there. *)
Fixpoint flatten (path : string) (n : node) : list (string * node) :=
  (path, n) ::
  match n with
  | DirNode entries =>
      flat_map (fun e => flatten (Join path (fst e)) (snd e)) entries
  | _ => []
  end.

Fixpoint assoc {A} (k : string) (l : list (string * A)) : option A :=
  match l with
  | [] => None
  | (k', a) :: l' => if String.eqb k k' then Some a else assoc k l'
  end.

Definition lookup_path (w : World) (path : string) : option node :=
  assoc path (flat_map (fun r => flatten (fst r) (snd r)) (roots w)).

Definition is_dir (n : node) : bool :=
  match n with
  | DirNode _ | Locked => true
  | _ => false
  end.

(** os.Stat *)
Definition os_Stat (path : string) : M node := fun w =>
  match lookup_path w path with
  | Some Vanished | None => (Err (ErrNotExist path), w)
  | Some n => (Ok n, w)
  end.

(** os.Open followed by reading the file to its end. *)
Definition read_file (path : string) : M (list byte) := fun w =>
  match lookup_path w path with
  | Some (FileNode content) => (Ok content, w)
  | Some (DirNode _) | Some Locked => (Err (ErrIsDirectory path), w)
  | Some Vanished | None => (Err (ErrNotExist path), w)
  end.

(* ===================================================================== *)
(** ** utils/hash_utils.go: the hash ledger                               *)
(* ===================================================================== *)

(** The CSV stores live in their own name space [csvs]: a store is the list
    of its records, a record the list of its fields; a store of size zero is
    the empty list.  The stores are not among the files that are uploaded. *)

Definition GetHashFilePath : M string := fun w =>
  let envMode := env_mode w in
  if String.eqb envMode "test" then (Ok "test_hashes.csv", w)
  else (Ok "hashes.csv", w).

Definition CalculateFileHash (filePath : string) : M string :=
  content ← read_file filePath;
  mret (sha256_hex content).

(** os.Stat reports that nothing exists at the location: os.Create.  A
    store of [csvs] can always be created and closed: the error returns of
    os.Create and Close, and a failure of os.Stat other than not-exist, are
    failures of the operating system that the world does not model. *)
Definition InitializeHashFile (hashFilePath : string) : M unit := fun w =>
  match csvs w !! hashFilePath with
  | None => (Ok tt, set_csvs (<[hashFilePath := []]> (csvs w)) w)
  | Some _ => (Ok tt, w)
  end.

(** os.OpenFile(path, O_APPEND|O_CREATE|O_WRONLY) and one csv.Writer.Write,
    flushed by the deferred calls. *)
Definition append_record (path : string) (rec : list string) : M unit := fun w =>
  (Ok tt, set_csvs (<[path := default [] (csvs w !! path) ++ [rec]]> (csvs w)) w).

(** csv.Reader.ReadAll with FieldsPerRecord = 0: every record must have as
    many fields as the first. *)
Definition ReadAll (rows : list (list string)) : res (list (list string)) :=
  match rows with
  | [] => Ok []
  | first :: rest =>
      if forallb (fun r => Nat.eqb (length r) (length first)) rest
      then Ok rows
      else Err ErrFieldCount
  end.

(** for _, record := range records { hashes[record[0]] = record[1] } *)
Fixpoint load_records (records : list (list string))
    (hashes : gmap string string) : res (gmap string string) :=
  match records with
  | [] => Ok hashes
  | rec :: records' =>
      match rec !! 0%nat, rec !! 1%nat with
      | Some path, Some hash => load_records records' (<[path := hash]> hashes)
      | _, _ => Err ErrIndexOutOfRange
      end
  end.

Definition LoadFileHashes (hashFilePath : string) : M (gmap string string) :=
  InitializeHashFile hashFilePath;;
  rows ← (fun w => (Ok (default [] (csvs w !! hashFilePath)), w));
  records ← lift (ReadAll rows);
  lift (load_records records ∅).

(** for _, hash := range hashes { if hash == newHash { return true } } *)
Definition has_hash (hashes : gmap string string) (newHash : string) : bool :=
  bool_decide (map_Exists (fun _ hash => hash = newHash) hashes).

Definition IsDuplicate (hashFilePath filePath : string) : M bool :=
  newHash ← CalculateFileHash filePath;
  hashes ← LoadFileHashes hashFilePath;
  mret (has_hash hashes newHash).

Definition SaveFileHash (hashFilePath filePath hash : string) : M unit :=
  InitializeHashFile hashFilePath;;
  isDuplicate ← IsDuplicate hashFilePath filePath;
  if isDuplicate : bool then mret tt
  else append_record hashFilePath [filePath; hash].

(* ===================================================================== *)
(** ** utils: file size, MIME type, formatted size                        *)
(* ===================================================================== *)

(** The size os.Stat reports; zero when Stat fails.  Only the sizes of
    regular files are modelled. *)
Definition GetFileSize (filePath : string) : M Z := fun w =>
  match lookup_path w filePath with
  | Some (FileNode content) => (Ok (Z.of_nat (length content)), w)
  | _ => (Ok 0%Z, w)
  end.

(** A 512-byte buffer holding the head of the content, zero-filled. *)
Definition head512 (content : list byte) : list byte :=
  firstn 512 (content ++ repeat x00 512).

(** file.Read on an empty file returns io.EOF, on a directory EISDIR; both
    give the empty MIME type. *)
Definition GetMimeType (filePath : string) : M string := fun w =>
  match lookup_path w filePath with
  | Some (FileNode (b :: bs)) => (Ok (sniff w (head512 (b :: bs))), w)
  | _ => (Ok "", w)
  end.

(** Modelled from the spec: [utils.FormatFileSize] is called by [uploadFile]
    and by the audit writer with formatted sizes, but the file that declares
    it is not among the sources.  The spec (4.3): divide by 1024 while the
    value is at least 1024, take the unit suffix that matches the number of
    divisions, render with one decimal place.  The value is kept as the
    exact fraction [size / den]; the spec names the suffixes up to GB and
    the list is continued to EB, which covers every int64; the decimal is
    rounded to nearest, ties to even, as fmt's %.1f does. *)
Definition unit_suffixes : list string := ["KB"; "MB"; "GB"; "TB"; "PB"; "EB"].

Fixpoint scale_size (size den : Z) (unit : string) (larger : list string)
    : Z * string :=
  match larger with
  | [] => (den, unit)
  | unit' :: larger' =>
      if (1024 * den <=? size)%Z
      then scale_size size (1024 * den) unit' larger'
      else (den, unit)
  end.

Definition round_half_even (num den : Z) : Z :=
  let q := (num / den)%Z in
  let r := (num mod den)%Z in
  if (den <? 2 * r)%Z then (q + 1)%Z
  else if (2 * r =? den)%Z && Z.odd q then (q + 1)%Z
  else q.

Definition one_decimal (num den : Z) : string :=
  let tenths := round_half_even (10 * num) den in
  pretty (tenths / 10)%Z +:+ "." +:+ pretty (tenths mod 10)%Z.

Definition FormatFileSize (size : Z) : string :=
  let '(den, unit) := scale_size size 1 "B" unit_suffixes in
  one_decimal size den +:+ " " +:+ unit.

(* ===================================================================== *)
(** ** utils: the audit log                                               *)
(* ===================================================================== *)

Module utils.
Record UploadInfo : Type := {
  FileName : string;
  DirectoryPath : string;
  URL : string;
  UploadDateTime : string;
  FileSize : Z;
  FormattedSize : string;   (* declared by the revision with formatted sizes *)
  MIMEType : string;
  Uploader : string;
  UploadStatus : string
}.
End utils.

Definition audit_header : list string :=
  ["File Name"; "Directory Path"; "URL"; "Upload Date and Time"; "File Size";
   "MIME Type"; "Uploader Username"; "Upload Status"].

(** os.OpenFile(path, O_APPEND|O_CREATE|O_WRONLY, 0644) *)
Definition OpenFile_append (path : string) : M unit := fun w =>
  match csvs w !! path with
  | None => (Ok tt, set_csvs (<[path := []]> (csvs w)) w)
  | Some _ => (Ok tt, w)
  end.

(** file.Stat() succeeded and fi.Size() == 0 *)
Definition size_is_zero (path : string) : M bool := fun w =>
  match csvs w !! path with
  | Some [] => (Ok true, w)
  | _ => (Ok false, w)
  end.

(** utils/csv_writer.go *)
Module csv_writer.
Import utils.

Definition SaveUploadInfoToCSV (info : UploadInfo) (csvPath : string) : M unit :=
  OpenFile_append csvPath;;
  isNew ← size_is_zero csvPath;
  (if isNew : bool then append_record csvPath audit_header else mret tt);;
  append_record csvPath
    [ FileName info; DirectoryPath info; URL info; UploadDateTime info;
      pretty (FileSize info); MIMEType info; Uploader info;
      UploadStatus info ].
End csv_writer.

(** The revision of the writer whose [UploadInfo] has [FormattedSize]. *)
Module csv_writer_formatted.
Import utils.

Definition SaveUploadInfoToCSV (info : UploadInfo) (filePath : string) : M unit :=
  OpenFile_append filePath;;
  append_record filePath
    [ FileName info; DirectoryPath info; URL info; UploadDateTime info;
      FormatFileSize (FileSize info); MIMEType info; Uploader info;
      UploadStatus info ].
End csv_writer_formatted.

(** [pd.go] fills [FormattedSize], which only the second writer's record
    declares, and is imported from the directory of the first: the
    orchestrator is stated for either. *)
Inductive AuditWriter : Type :=
| HeaderWriter      (* utils/csv_writer.go *)
| FormattedWriter.  (* the revision with formatted sizes *)

Definition SaveUploadInfoToCSV (aw : AuditWriter) (info : utils.UploadInfo)
    (csvPath : string) : M unit :=
  match aw with
  | HeaderWriter => csv_writer.SaveUploadInfoToCSV info csvPath
  | FormattedWriter => csv_writer_formatted.SaveUploadInfoToCSV info csvPath
  end.

(* ===================================================================== *)
(** ** utils: the directory walker                                        *)
(* ===================================================================== *)

(** filepath.Walk with the callback of [GetFilesInDirectory]: the callback
    returns the error it is given, which stops the walk, and appends the
    path of every entry that is not a directory. *)
Fixpoint each_entry (visit : string -> node -> list string -> res (list string))
    (path : string) (entries : list (string * node)) (files : list string)
    : res (list string) :=
  match entries with
  | [] => Ok files
  | (name, child) :: entries' =>
      match visit (Join path name) child files with
      | Ok files' => each_entry visit path entries' files'
      | Err e => Err e
      end
  end.

Fixpoint walk (path : string) (n : node) (files : list string)
    : res (list string) :=
  match n with
  | FileNode _ => Ok (files ++ [path])
  | Vanished => Err (ErrNotExist path)
  | Locked => Err (ErrReadDir path)
  | DirNode entries => each_entry walk path entries files
  end.

Definition GetFilesInDirectory (dirPath : string) : M (list string) := fun w =>
  match lookup_path w dirPath with
  | None => (Err (ErrNotExist dirPath), w)
  | Some n => (walk dirPath n [], w)
  end.

(* ===================================================================== *)
(** ** pd.go: the orchestrator                                            *)
(* ===================================================================== *)

Definition BaseURL : string := "https://pixeldrain.com/".
Definition APIURL : string := BaseURL +:+ "api".
Definition CSVFilePath : string := "upload_logs.csv".
Definition StatusConflict : Z := 409.

Record Auth : Type := { APIKey : string }.

(** Declared outside the sources; an API key is available when it is not
    the empty string. *)
Definition IsAuthAvailable (a : Auth) : bool := negb (String.eqb (APIKey a) "").

Record RequestUpload : Type := {
  File : option (list byte);   (* the bytes the io.ReadCloser yields; None: nil *)
  PathToFile : string;
  FileName : string;
  Anonymous : bool;
  ReqAuth : Auth;              (* the field Auth *)
  URL : string
}.

Record ResponseUpload : Type := {
  ID : string;
  Success : bool;
  StatusCode : Z;
  Message : string
}.

(** Declared outside the sources; the tests expect BaseURL + "u/" + ID. *)
Definition GetFileURL (rsp : ResponseUpload) : string :=
  BaseURL +:+ "u/" +:+ ID rsp.

(** pd.Client.Request.Post: the call is recorded and the service answers. *)
Definition Post (url fileName : string) (body : list byte) (anonymous : bool)
    : M Reply := fun w =>
  let s := {| sURL := url; sFileName := fileName; sBody := body;
              sAnonymous := anonymous; sAuthorization := header_auth w |} in
  (Ok (remote w (sent w) s), set_sent (sent w ++ [s]) w).

(** addBasicAuthHeader(pd.Client.Header, "", key) *)
Definition addBasicAuthHeader (key : string) : M unit := fun w =>
  (Ok tt, set_header_auth (Some key) w).

Definition time_Now : M string := fun w => (Ok (now w), w).
Definition DetectContentType (data : list byte) : M string := fun w =>
  (Ok (sniff w data), w).

(** The request is a value here: that Go also stores the default URL and
    the re-wound reader in the caller's [*RequestUpload] is not modelled.
    For a reader, [buf.Bytes()[:512]] is taken to be within the buffer's
    capacity, the bytes past the content being zero.  For a path, the bytes
    that Post streams from the opened file are read at once; [UploadPOST]
    has made sure by then that the path is a regular file. *)
Definition uploadFile (aw : AuditWriter) (r : RequestUpload)
    (hashFilePath : string) : M ResponseUpload :=
  let url := if String.eqb (URL r) "" then APIURL +:+ "/file" else URL r in
  '(fileName, body, filePath, fileSize, mimeType) ←
    match File r with
    | Some content =>
        if String.eqb (FileName r) "" then fail ErrMissingFilename
        else
          mimeType ← DetectContentType (head512 content);
          mret (FileName r, content,
                if String.eqb (PathToFile r) "" then "N/A" else PathToFile r,
                Z.of_nat (length content), mimeType)
    | None =>
        content ← read_file (PathToFile r);
        fileSize ← GetFileSize (PathToFile r);
        mimeType ← GetMimeType (PathToFile r);
        mret (Base (PathToFile r), content, PathToFile r, fileSize, mimeType)
    end;
  (if IsAuthAvailable (ReqAuth r) && negb (Anonymous r)
   then addBasicAuthHeader (APIKey (ReqAuth r)) else mret tt);;
  reply ← Post url fileName body (Anonymous r);
  match reply with
  | TransportError msg => fail (ErrTransport msg)
  | Response _ None => fail ErrJSON
  | Response status (Some json) =>
      let uploadRsp := {| ID := jID json; Success := jSuccess json;
                          StatusCode := status; Message := jMessage json |} in
      let formattedFileSize := FormatFileSize fileSize in
      if String.eqb filePath "N/A" then mret uploadRsp
      else
        uploadDateTime ← time_Now;
        SaveUploadInfoToCSV aw
          {| utils.FileName := fileName;
             utils.DirectoryPath := filePath;
             utils.URL := GetFileURL uploadRsp;
             utils.UploadDateTime := uploadDateTime;
             utils.FileSize := fileSize;
             utils.MIMEType := mimeType;
             utils.Uploader := APIKey (ReqAuth r);
             utils.UploadStatus := pretty (StatusCode uploadRsp);
             utils.FormattedSize := formattedFileSize |}
          CSVFilePath;;
        fileHash ← CalculateFileHash filePath;
        SaveFileHash hashFilePath filePath fileHash;;
        mret uploadRsp
  end.

(** The loop of [UploadDirectory] over the listed files. *)
Fixpoint upload_each (post : RequestUpload -> string -> M (option ResponseUpload))
    (auth : Auth) (apiURL hashFilePath : string) (files : list string)
    : M unit :=
  match files with
  | [] => mret tt
  | filePath :: files' =>
      post {| PathToFile := filePath; Anonymous := false; ReqAuth := auth;
              URL := apiURL +:+ "/file"; File := None; FileName := "" |}
           hashFilePath;;
      upload_each post auth apiURL hashFilePath files'
  end.

Definition UploadDirectory_with
    (post : RequestUpload -> string -> M (option ResponseUpload))
    (directoryPath : string) (auth : Auth) (baseURL : list string) : M unit :=
  let apiURL := match baseURL with
                | u :: _ => u
                | [] => APIURL
                end in
  files ← GetFilesInDirectory directoryPath;
  hashFilePath ← GetHashFilePath;
  upload_each post auth apiURL hashFilePath files.

Definition duplicate_response : ResponseUpload :=
  {| ID := ""; Success := false; StatusCode := StatusConflict;
     Message := "Duplicate file. Upload skipped." |}.

(** [UploadPOST] and [UploadDirectory] call each other.  [depth] bounds how
    often a path handed to [UploadPOST] may turn out to be a directory whose
    own files are handed to [UploadPOST] again; a plain file needs none.
    The result is [None] where Go returns a nil response. *)
Fixpoint UploadPOST (aw : AuditWriter) (depth : nat) (r : RequestUpload)
    (hashFilePath : string) {struct depth} : M (option ResponseUpload) :=
  if String.eqb (PathToFile r) "" && negb (bool_decide (is_Some (File r)))
  then fail ErrMissingPathToFile
  else
    isDir ← (if String.eqb (PathToFile r) "" then mret false
             else fileInfo ← os_Stat (PathToFile r); mret (is_dir fileInfo));
    if isDir : bool then
      match depth with
      | O => fail ErrDepth
      | S depth' =>
          UploadDirectory_with (UploadPOST aw depth') (PathToFile r)
            (ReqAuth r) [hashFilePath];;
          mret None
      end
    else
      isDuplicate ← (if String.eqb (PathToFile r) "" then mret false
                     else IsDuplicate hashFilePath (PathToFile r));
      if isDuplicate : bool then mret (Some duplicate_response)
      else rsp ← uploadFile aw r hashFilePath; mret (Some rsp).

Definition UploadDirectory (aw : AuditWriter) (depth : nat)
    (directoryPath : string) (auth : Auth) (baseURL : list string) : M unit :=
  UploadDirectory_with (UploadPOST aw depth) directoryPath auth baseURL.


(* ===================================================================== *)
(** ** Vocabulary of the statements                                       *)
(* ===================================================================== *)

(** The records of the store at [h]; none when the store does not exist. *)
Definition ledger (w : World) (h : string) : list (list string) :=
  default [] (csvs w !! h).

(** What [InitializeHashFile] leaves. *)
Definition initialized (h : string) (w : World) : World :=
  match csvs w !! h with
  | None => set_csvs (<[h := []]> (csvs w)) w
  | Some _ => w
  end.

(** A ledger as [SaveFileHash] writes it: two fields in every record. *)
Definition two_columns (rows : list (list string)) : Prop :=
  Forall (fun r => length r = 2%nat) rows.

(** [latest rows path digest]: some record gives [digest] to [path], and no
    later record names [path] again. *)
Definition latest (rows : list (list string)) (path digest : string) : Prop :=
  exists before after,
    rows = before ++ [path; digest] :: after
    /\ forall d, [path; d] ∉ after.

(** The world after one more record in the store at [h]. *)
Definition appended (h : string) (rec : list string) (w : World) : World :=
  set_csvs (<[h := ledger w h ++ [rec]]> (csvs w)) w.

(** The record that utils/csv_writer.go writes for [info]. *)
Definition plain_row (info : utils.UploadInfo) : list string :=
  [ utils.FileName info; utils.DirectoryPath info; utils.URL info;
    utils.UploadDateTime info; pretty (utils.FileSize info);
    utils.MIMEType info; utils.Uploader info; utils.UploadStatus info ].

(** The record that the writer with formatted sizes writes for [info]. *)
Definition formatted_row (info : utils.UploadInfo) : list string :=
  [ utils.FileName info; utils.DirectoryPath info; utils.URL info;
    utils.UploadDateTime info; FormatFileSize (utils.FileSize info);
    utils.MIMEType info; utils.Uploader info; utils.UploadStatus info ].

(** The header, for a store without records. *)
Definition header_if_empty (rows : list (list string)) : list (list string) :=
  match rows with
  | [] => [audit_header]
  | _ => []
  end.

(** What a writer adds to a store that holds [rows]. *)
Definition audit_rows (aw : AuditWriter) (info : utils.UploadInfo)
    (rows : list (list string)) : list (list string) :=
  match aw with
  | HeaderWriter => header_if_empty rows ++ [plain_row info]
  | FormattedWriter => [formatted_row info]
  end.

(** One call of the writer of csv_writer.go after the other. *)
Fixpoint save_each (infos : list utils.UploadInfo) (csvPath : string) : M unit :=
  match infos with
  | [] => mret tt
  | info :: infos' =>
      csv_writer.SaveUploadInfoToCSV info csvPath;;
      save_each infos' csvPath
  end.

(** The call that [uploadFile] hands to [Request.Post]; [content] is what
    the file at the path holds. *)
Definition outgoing (w : World) (r : RequestUpload) (content : list byte) : Sent :=
  {| sURL := if String.eqb (URL r) "" then APIURL +:+ "/file" else URL r;
     sFileName := match File r with
                  | Some _ => FileName r
                  | None => Base (PathToFile r)
                  end;
     sBody := match File r with
              | Some stream => stream
              | None => content
              end;
     sAnonymous := Anonymous r;
     sAuthorization :=
       if IsAuthAvailable (ReqAuth r) && negb (Anonymous r)
       then Some (APIKey (ReqAuth r)) else header_auth w |}.

(** The ledger that [GetHashFilePath] selects for a value of ENV_MODE. *)
Definition selected_ledger (envMode : string) : string :=
  if String.eqb envMode "test" then "test_hashes.csv" else "hashes.csv".

(** The base URL that [UploadDirectory] uses. *)
Definition api_url (baseURL : list string) : string :=
  match baseURL with
  | u :: _ => u
  | [] => APIURL
  end.

(** The request that [UploadDirectory] builds for one listed file. *)
Definition batch_request (auth : Auth) (apiURL filePath : string) : RequestUpload :=
  {| PathToFile := filePath; Anonymous := false; ReqAuth := auth;
     URL := apiURL +:+ "/file"; File := None; FileName := "" |}.

(** [file_at path n p]: descending from [n], found at [path], reaches a
    regular file at the path [p]. *)
Inductive file_at : string -> node -> string -> Prop :=
| file_here path content : file_at path (FileNode content) path
| file_below path entries name child p :
    (name, child) ∈ entries ->
    file_at (Join path name) child p ->
    file_at path (DirNode entries) p.

(** Every directory below can be listed and every listed name examined. *)
Fixpoint readable (n : node) : bool :=
  match n with
  | FileNode _ => true
  | DirNode entries => forallb (fun e => readable (snd e)) entries
  | Locked | Vanished => false
  end.

(** The number of regular files below. *)
Fixpoint count_files (n : node) : nat :=
  match n with
  | FileNode _ => 1
  | DirNode entries => list_sum (map (fun e => count_files (snd e)) entries)
  | Locked | Vanished => 0
  end.

(** What the walk of one node adds to the files collected so far. *)
Definition walk_spec (path : string) (n : node) : Prop :=
  forall acc,
    if readable n
    then exists files,
           walk path n acc = Ok (acc ++ files)
           /\ (forall p, p ∈ files <-> file_at path n p)
           /\ length files = count_files n
    else exists e, walk path n acc = Err e.

(** [oblivious m]: [m] never reads ENV_MODE -- run under another value of
    the variable it returns the same result and leaves the same world. *)
Definition oblivious {A} (m : M A) : Prop :=
  forall e w, m (set_env e w) = (fst (m w), set_env e (snd (m w))).

(** No condition on the value returned. *)
Abbreviation any := (fun _ => True) (only parsing).

(** [touches_only e S Q m]: run where ENV_MODE is [e], [m] leaves ENV_MODE
    and the files alone, changes no store outside the locations [S], and
    returns only values that satisfy [Q]. *)
Definition touches_only {A} (e : string) (S : string -> Prop) (Q : A -> Prop)
    (m : M A) : Prop :=
  forall w, env_mode w = e ->
    (env_mode (snd (m w)) = e /\ roots (snd (m w)) = roots w)
    /\ (forall loc, ~ S loc -> csvs (snd (m w)) !! loc = csvs w !! loc)
    /\ (forall a, fst (m w) = Ok a -> Q a).

(** The stores that an upload with the ledger [h] may write where ENV_MODE
    is [e]. *)
Definition upload_stores (e h : string) (loc : string) : Prop :=
  loc = h \/ loc = CSVFilePath \/ loc = selected_ledger e.

(** The path names a directory, as os.Stat would report. *)
Definition is_directory (w : World) (path : string) : bool :=
  match lookup_path w path with
  | Some n => is_dir n
  | None => false
  end.

(** What [UploadPOST] does once the path is known to be a regular file. *)
Definition post_file (aw : AuditWriter) (r : RequestUpload) (h : string)
    : M (option ResponseUpload) :=
  isDuplicate ← IsDuplicate h (PathToFile r);
  if isDuplicate : bool then mret (Some duplicate_response)
  else rsp ← uploadFile aw r h; mret (Some rsp).

(** An upload that goes through: the request names a regular file by its
    path, the ledger at [h] holds records of two fields and does not give
    the digest of the file as the latest of any path, and the service
    answers the call with a status and a JSON body. *)
Definition succeeds (r : RequestUpload) (h : string) (w : World) : Prop :=
  PathToFile r <> "" /\ PathToFile r <> "N/A"
  /\ (is_Some (File r) -> FileName r <> "")
  /\ two_columns (ledger w h)
  /\ exists content status json,
       lookup_path w (PathToFile r) = Some (FileNode content)
       /\ (forall path, ~ latest (ledger w h) path (sha256_hex content))
       /\ remote w (sent w) (outgoing w r content) = Response status (Some json).

(** One call of [UploadPOST] after the other with the ledger [h], as long
    as none returns an error. *)
Fixpoint upload_all (aw : AuditWriter) (depth : nat) (rs : list RequestUpload)
    (h : string) : M unit :=
  match rs with
  | [] => mret tt
  | r :: rs' => UploadPOST aw depth r h;; upload_all aw depth rs' h
  end.

(** Each upload of the run goes through in the world that the one before
    it left. *)
Fixpoint all_succeed (aw : AuditWriter) (depth : nat) (rs : list RequestUpload)
    (h : string) (w : World) : Prop :=
  match rs with
  | [] => True
  | r :: rs' =>
      succeeds r h w
      /\ all_succeed aw depth rs' h (snd (UploadPOST aw depth r h w))
  end.

(* ===================================================================== *)
(** ** Worlds for the examples                                            *)
(* ===================================================================== *)

(** The mock upload server of the tests: 201 and an id. *)
Definition mock_server : list Sent -> Sent -> Reply := fun _ _ =>
  Response 201 (Some {| jID := "mock-file-id"; jSuccess := true; jMessage := "" |}).

Definition world_of (envMode : string) (files : list (string * node))
    (stores : gmap string (list (list string)))
    (server : list Sent -> Sent -> Reply) : World :=
  {| env_mode := envMode; roots := files; csvs := stores; remote := server;
     sent := []; now := "2024-06-01T12:00:00Z";
     sniff := fun _ => "application/octet-stream"; header_auth := None |}.

Definition abc : list byte := bytes_of_string "abc".
Definition hello : list byte := bytes_of_string "hello".
Definition digest_abc : string :=
  "ba7816bf8f01cfea414140de5dae2223b00361a396177a9cb410ff61f20015ad".
Definition digest_hello : string :=
  "2cf24dba5fb0a30e26e83b2ac5b9e29e1b161e5c1fa7425e73043362938b9824".

Definition upload_of (path : string) : RequestUpload :=
  {| File := None; PathToFile := path; FileName := ""; Anonymous := true;
     ReqAuth := {| APIKey := "" |}; URL := "" |}.

(** [a.txt] was recorded with the content "abc" and later, after an edit,
    with the content "hello"; [b.txt] now holds "abc". *)
Definition world_rehashed : World :=
  world_of "test"
    [("a.txt", FileNode hello); ("b.txt", FileNode abc)]
    {[ "test_hashes.csv" := [["a.txt"; digest_abc]; ["a.txt"; digest_hello]] ]}
    mock_server.

(** [a.txt] holds "abc" and is recorded. *)
Definition world_recorded : World :=
  world_of "test"
    [("a.txt", FileNode abc); ("copy.txt", FileNode abc)]
    {[ "test_hashes.csv" := [["a.txt"; digest_abc]] ]}
    mock_server.

(** A service that rejects every upload with a JSON error body. *)
Definition failing_server : list Sent -> Sent -> Reply := fun _ _ =>
  Response 500 (Some {| jID := ""; jSuccess := false;
                        jMessage := "internal server error" |}).

(** A gateway that answers with an HTML error page. *)
Definition html_gateway : list Sent -> Sent -> Reply := fun _ _ =>
  Response 502 None.

Definition world_rejecting : World :=
  world_of "test" [("a.txt", FileNode abc)] {[ "test_hashes.csv" := [] ]}
    failing_server.

Definition world_gateway : World :=
  world_of "test" [("a.txt", FileNode abc)] {[ "test_hashes.csv" := [] ]}
    html_gateway.

(** The request of the read-closer test: only a stream and a file name. *)
Definition stream_upload (content : list byte) : RequestUpload :=
  {| File := Some content; PathToFile := ""; FileName := "stream.bin";
     Anonymous := true; ReqAuth := {| APIKey := "" |}; URL := "" |}.

(** A directory with three files; the service drops the connection on the
    second. *)
Definition drops_B : list Sent -> Sent -> Reply := fun _ s =>
  if String.eqb (sFileName s) "B" then TransportError "connection reset"
  else Response 201 (Some {| jID := "mock-file-id"; jSuccess := true; jMessage := "" |}).

Definition world_batch : World :=
  world_of "test"
    [("dir", DirNode [("A", FileNode (bytes_of_string "first"));
                      ("B", FileNode (bytes_of_string "second"));
                      ("C", FileNode (bytes_of_string "third"))])]
    ∅ drops_B.

Definition key : Auth := {| APIKey := "test-api-key" |}.

(** The directory of the walker's test: three files, two of them nested. *)
Definition test_directory : node :=
  DirNode [ ("file1.txt", FileNode (bytes_of_string "one"));
            ("subdir", DirNode [ ("file2.txt", FileNode (bytes_of_string "two"));
                                 ("deeper", DirNode [ ("file3.txt",
                                                       FileNode (bytes_of_string "three")) ]) ]) ].

Definition world_test_directory : World :=
  world_of "test" [("../testdata/test_directory", test_directory)] ∅ mock_server.

(** The same tree with a directory that cannot be listed. *)
Definition world_locked : World :=
  world_of "test"
    [("root", DirNode [ ("a.txt", FileNode abc); ("private", Locked);
                        ("z.txt", FileNode hello) ])]
    ∅ mock_server.

(** The directory of the test run where ENV_MODE is not set. *)
Definition world_production : World :=
  world_of "" [("testdata/test_directory", test_directory)] ∅ mock_server.

Definition info_cat : utils.UploadInfo :=
  {| utils.FileName := "test_file.jpg";
     utils.DirectoryPath := "/test/path";
     utils.URL := "https://pixeldrain.com/u/test";
     utils.UploadDateTime := "2024-06-01T12:00:00Z";
     utils.FileSize := 1536;
     utils.FormattedSize := "";
     utils.MIMEType := "image/jpeg";
     utils.Uploader := "test_user";
     utils.UploadStatus := "200" |}.

(** Two files of different content, nothing recorded or logged yet. *)
Definition world_two_files : World :=
  world_of "test" [("a.txt", FileNode abc); ("b.txt", FileNode hello)] ∅ mock_server.

(** Nothing recorded yet; [a.txt] holds "abc". *)
Definition world_fresh : World :=
  world_of "test" [("a.txt", FileNode abc)] ∅ mock_server.

(* ===================================================================== *)
(** ** Vocabulary of the further properties                               *)
(* ===================================================================== *)

(** [orderly hdr New m]: [m] only ever appends -- the records of every
    store and the calls made so far are kept as they are, in front of what
    is new -- and every new call satisfies [New].  With [hdr] set, [m] is
    run where the client's header map holds an Authorization entry, and it
    leaves one there. *)
Definition orderly {A} (hdr : bool) (New : Sent -> Prop) (m : M A) : Prop :=
  forall w,
    (hdr = true -> is_Some (header_auth w)) ->
    (hdr = true -> is_Some (header_auth (snd (m w))))
    /\ (forall loc, ledger w loc `prefix_of` ledger (snd (m w)) loc)
    /\ exists new, sent (snd (m w)) = sent w ++ new /\ Forall New new.

(** The URL that [uploadFile] posts a request to. *)
Definition url_of (r : RequestUpload) : string :=
  if String.eqb (URL r) "" then APIURL +:+ "/file" else URL r.

(** An upload of [a.txt] with an API key, not anonymous. *)
Definition keyed_upload (path : string) : RequestUpload :=
  {| File := None; PathToFile := path; FileName := ""; Anonymous := false;
     ReqAuth := key; URL := "" |}.

(** The world after the keyed upload of [a.txt]; [b.txt] is new. *)
Definition world_after_keyed : World :=
  set_roots [("a.txt", FileNode abc); ("b.txt", FileNode hello)]
    (snd (UploadPOST HeaderWriter 0 (keyed_upload "a.txt") "test_hashes.csv"
            world_fresh)).

(** Two files with the same bytes, nothing recorded. *)
Definition world_copies : World :=
  world_of "test" [("a.txt", FileNode abc); ("copy.txt", FileNode abc)] ∅ mock_server.

(** A ledger whose second record lost a field. *)
Definition world_ragged : World :=
  world_of "test" [("a.txt", FileNode abc)]
    {[ "test_hashes.csv" := [["b.txt"; digest_hello]; ["c.txt"]] ]} mock_server.

(** A directory whose two files are both recorded. *)
Definition world_all_recorded : World :=
  world_of "test"
    [("dir", DirNode [("A", FileNode abc); ("B", FileNode hello)])]
    {[ "test_hashes.csv" := [["old/A"; digest_abc]; ["old/B"; digest_hello]] ]}
    mock_server.

(** [calls_at_most n m]: [m] adds at most [n] calls to those made so far. *)
Definition calls_at_most {A} (n : nat) (m : M A) : Prop :=
  forall w, exists new,
    sent (snd (m w)) = sent w ++ new /\ (length new <= n)%nat.

(** What [UploadDirectory] fixes in every request it builds. *)
Definition batch_call (apiURL : string) (s : Sent) : Prop :=
  sURL s = apiURL +:+ "/file" /\ sAnonymous s = false.

(** What [uploadFile] hands to the audit writer for a request that names
    the path of a file holding [content]. *)
Definition logged_info (w : World) (r : RequestUpload) (content : list byte)
    (status : Z) (json : JsonBody) : utils.UploadInfo :=
  let size := match File r with
              | Some stream => Z.of_nat (length stream)
              | None => Z.of_nat (length content)
              end in
  {| utils.FileName := match File r with
                       | Some _ => FileName r
                       | None => Base (PathToFile r)
                       end;
     utils.DirectoryPath := PathToFile r;
     utils.URL := BaseURL +:+ "u/" +:+ jID json;
     utils.UploadDateTime := now w;
     utils.FileSize := size;
     utils.FormattedSize := FormatFileSize size;
     utils.MIMEType := match File r with
                       | Some stream => sniff w (head512 stream)
                       | None => match content with
                                 | [] => ""
                                 | _ => sniff w (head512 content)
                                 end
                       end;
     utils.Uploader := APIKey (ReqAuth r);
     utils.UploadStatus := pretty status |}.

(** An anonymous upload that still names a key. *)
Definition anonymous_with_key (path : string) : RequestUpload :=
  {| File := None; PathToFile := path; FileName := ""; Anonymous := true;
     ReqAuth := key; URL := "" |}.

(** A digit or one of the letters a to f. *)
Definition is_lower_hex (c : ascii) : bool :=
  existsb (Ascii.eqb c) (list_ascii_of_string "0123456789abcdef").

Definition is_file (n : node) : bool :=
  match n with
  | FileNode _ => true
  | _ => false
  end.

(** The paths of the regular files below [path], in the order of descent:
    the entries of a directory one after the other, all that is below an
    entry before the next entry. *)
Definition files_below (path : string) (n : node) : list string :=
  map fst (List.filter (fun e => is_file (snd e)) (flatten path n)).

(** The elements of a path: what stands before, between and after its
    separators. *)
Fixpoint elements (path : string) : list string :=
  match path with
  | EmptyString => [EmptyString]
  | String c path' =>
      if Ascii.eqb c "/" then EmptyString :: elements path'
      else match elements path' with
           | el :: els => String c el :: els
           | [] => [String c EmptyString]
           end
  end.

(** A name as the listing of a directory gives it: not empty, without a
    separator, and neither "." nor "..". *)
Definition plain (name : string) : bool :=
  negb (String.eqb name "") && negb (String.eqb name ".")
  && negb (String.eqb name "..")
  && forallb (fun c => negb (Ascii.eqb c "/")) (list_ascii_of_string name).

Fixpoint drop_parents (els : list string) : list string :=
  match els with
  | el :: els' => if String.eqb el ".." then drop_parents els' else els
  | [] => []
  end.

(** [cleaned path]: a path that filepath.Clean returns as it is, other than
    "." and "/": plain names, one separator between them, after one leading
    separator or after leading ".." elements.  For such a path and a plain
    name, filepath.Join is the path, a separator and the name. *)
Definition cleaned (path : string) : bool :=
  match elements path with
  | EmptyString :: els => negb (bool_decide (els = [])) && forallb plain els
  | els => forallb plain (drop_parents els)
  end.

(** Every entry below has a plain name. *)
Fixpoint plain_names (n : node) : bool :=
  match n with
  | DirNode entries =>
      forallb (fun e => plain (fst e) && plain_names (snd e)) entries
  | _ => true
  end.

(** [below root p]: [p] is [root] or [root], a separator, and more. *)
Definition below (root p : string) : Prop :=
  p = root \/ exists rest, p = root +:+ "/" +:+ rest.

(** One call of the writer with formatted sizes after the other. *)
Fixpoint save_each_formatted (infos : list utils.UploadInfo) (filePath : string)
    : M unit :=
  match infos with
  | [] => mret tt
  | info :: infos' =>
      csv_writer_formatted.SaveUploadInfoToCSV info filePath;;
      save_each_formatted infos' filePath
  end.

(** A request with both a reader and a path: the reader yields "hello",
    the file at the path holds "abc". *)
Definition reader_and_path : RequestUpload :=
  {| File := Some hello; PathToFile := "a.txt"; FileName := "sent.bin";
     Anonymous := true; ReqAuth := {| APIKey := "" |}; URL := "" |}.

(** Two files; the service rejects every upload with status 500. *)
Definition world_rejecting_batch : World :=
  world_of "test"
    [("dir", DirNode [("A", FileNode (bytes_of_string "first"));
                      ("B", FileNode (bytes_of_string "second"))])]
    ∅ failing_server.
(* ===================================================================== *)
(** * Properties                                                          *)
(* ===================================================================== *)

Example sha256_abc :
  sha256_hex (bytes_of_string "abc")
  = "ba7816bf8f01cfea414140de5dae2223b00361a396177a9cb410ff61f20015ad".
Proof. vm_compute. reflexivity. Qed.

Example sha256_empty :
  sha256_hex []
  = "e3b0c44298fc1c149afbf4c8996fb92427ae41e4649b934ca495991b7852b855".
Proof. vm_compute. reflexivity. Qed.

Example sha256_two_blocks :
  sha256_hex (repeat "a"%byte 70)
  = "6bd5e5034855a11241f0dee8fc72850ffd9955b28347a86428b5fa19119f6ad0".
Proof. vm_compute. reflexivity. Qed.

Example sha256_constants :
  length Sha256.K = 64%nat
  /\ head Sha256.K = Some 0x428a2f98%Z
  /\ last Sha256.K = Some 0xc67178f2%Z
  /\ head Sha256.H0 = Some 0x6a09e667%Z
  /\ last Sha256.H0 = Some 0x5be0cd19%Z.
Proof. repeat split; vm_compute; reflexivity. Qed.

Example Base_nested : Base "testdata/test_directory/cat.jpg" = "cat.jpg".
Proof. reflexivity. Qed.

Example Base_trailing : Base "a/b//" = "b".
Proof. reflexivity. Qed.

(** Unfolding the sequencing of Go statements. *)
Ltac run :=
  unfold mbind, M_bind, mret, M_ret, bind, ret, fail, lift in *.

Lemma bind_ok {A B} (m : M A) (k : A -> M B) w a w' :
  m w = (Ok a, w') -> (m ≫= k) w = k a w'.
Proof. intros H. run. by rewrite H. Qed.

Lemma bind_err {A B} (m : M A) (k : A -> M B) w e w' :
  m w = (Err e, w') -> (m ≫= k) w = (Err e, w').
Proof. intros H. run. by rewrite H. Qed.

(** ** The ledger *)

Lemma initialized_exists h w rows : csvs w !! h = Some rows -> initialized h w = w.
Proof. intros H. unfold initialized. by rewrite H. Qed.

Lemma ledger_initialized h w : ledger (initialized h w) h = ledger w h.
Proof.
  unfold ledger, initialized. destruct (csvs w !! h) eqn:E; simpl.
  - by rewrite E.
  - by rewrite lookup_insert_eq.
Qed.

Lemma initialized_idem h w : initialized h (initialized h w) = initialized h w.
Proof.
  unfold initialized at 2 3. destruct (csvs w !! h) eqn:E.
  - unfold initialized. by rewrite E.
  - unfold initialized. simpl. by rewrite lookup_insert_eq.
Qed.

Lemma lookup_path_set_csvs c w p : lookup_path (set_csvs c w) p = lookup_path w p.
Proof. reflexivity. Qed.

Lemma lookup_path_initialized h w p : lookup_path (initialized h w) p = lookup_path w p.
Proof. unfold initialized. by destruct (csvs w !! h). Qed.

Lemma InitializeHashFile_run h w : InitializeHashFile h w = (Ok tt, initialized h w).
Proof. unfold InitializeHashFile, initialized. by destruct (csvs w !! h). Qed.

Lemma ReadAll_two_columns rows : two_columns rows -> ReadAll rows = Ok rows.
Proof.
  unfold two_columns. destruct rows as [|r rows]; [done|].
  intros H. apply Forall_cons in H as [Hr H]. simpl.
  replace (forallb _ rows) with true; [done|].
  symmetry. apply forallb_forall. intros x Hx.
  rewrite Forall_forall in H. apply list_elem_of_In in Hx.
  rewrite (H x Hx), Hr. reflexivity.
Qed.

Lemma load_records_app l1 l2 m :
  load_records (l1 ++ l2) m
  = match load_records l1 m with
    | Ok m' => load_records l2 m'
    | Err e => Err e
    end.
Proof.
  revert m. induction l1 as [|r l1 IH]; intros m; simpl; [done|].
  destruct (r !! 0%nat); [|done]. destruct (r !! 1%nat); [|done]. apply IH.
Qed.

Lemma latest_snoc_same rows path digest d :
  latest (rows ++ [[path; digest]]) path d <-> d = digest.
Proof.
  split.
  - intros (before & after & Heq & Hlast).
    destruct (list_eq_nil_dec after) as [-> | Hne].
    + apply app_inj_tail in Heq as [_ Heq]. congruence.
    + destruct (exists_last Hne) as (after' & x & ->).
      rewrite app_comm_cons, app_assoc in Heq.
      apply app_inj_tail in Heq as [_ <-].
      exfalso. apply (Hlast digest). apply elem_of_app. right. left.
  - intros ->. exists rows, []. split; [done|]. intros d' H. inversion H.
Qed.

Lemma latest_snoc_other rows p h path d :
  p <> path ->
  latest (rows ++ [[p; h]]) path d <-> latest rows path d.
Proof.
  intros Hne. split.
  - intros (before & after & Heq & Hlast).
    destruct (list_eq_nil_dec after) as [-> | Hnil].
    + apply app_inj_tail in Heq as [_ Heq]. congruence.
    + destruct (exists_last Hnil) as (after' & x & ->).
      rewrite app_comm_cons, app_assoc in Heq.
      apply app_inj_tail in Heq as [-> <-].
      exists before, after'. split; [done|].
      intros d' H. apply (Hlast d'). apply elem_of_app. by left.
  - intros (before & after & -> & Hlast).
    exists before, (after ++ [[p; h]]). split.
    + by rewrite <- app_assoc.
    + intros d' H. apply elem_of_app in H as [H | H]; [by apply (Hlast d')|].
      apply list_elem_of_singleton in H. congruence.
Qed.

(** The map that [LoadFileHashes] builds knows, for every path, only the
    digest of its last record. *)
Lemma load_records_latest rows :
  two_columns rows ->
  exists hashes,
    load_records rows ∅ = Ok hashes
    /\ forall path d, hashes !! path = Some d <-> latest rows path d.
Proof.
  induction rows as [|r rows IH] using rev_ind; intros Hwf.
  - exists ∅. split; [done|]. intros path d. rewrite lookup_empty. split; [done|].
    intros (before & after & Heq & _). by destruct before.
  - unfold two_columns in Hwf. rewrite Forall_app, Forall_singleton in Hwf.
    destruct Hwf as [Hwf Hr].
    destruct (IH Hwf) as (hashes & Hload & Hspec).
    destruct r as [|p [|h [|? ?]]]; try discriminate Hr.
    exists (<[p := h]> hashes). split.
    + rewrite load_records_app, Hload. reflexivity.
    + intros path d. destruct (decide (p = path)) as [-> | Hne].
      * rewrite lookup_insert_eq, latest_snoc_same. split; congruence.
      * rewrite lookup_insert_ne by done.
        rewrite latest_snoc_other by done. apply Hspec.
Qed.

Lemma has_hash_true hashes d :
  has_hash hashes d = true <-> exists path, hashes !! path = Some d.
Proof.
  unfold has_hash. rewrite bool_decide_eq_true, map_Exists_lookup.
  split.
  - intros (i & x & H & ->). eauto.
  - intros (i & H). eauto.
Qed.

Lemma read_file_run w p content :
  lookup_path w p = Some (FileNode content) -> read_file p w = (Ok content, w).
Proof. intros H. unfold read_file. by rewrite H. Qed.

Lemma CalculateFileHash_run w p content :
  lookup_path w p = Some (FileNode content) ->
  CalculateFileHash p w = (Ok (sha256_hex content), w).
Proof.
  intros H. unfold CalculateFileHash. by rewrite (bind_ok _ _ _ _ _ (read_file_run _ _ _ H)).
Qed.

Lemma LoadFileHashes_run w h :
  two_columns (ledger w h) ->
  exists hashes,
    LoadFileHashes h w = (Ok hashes, initialized h w)
    /\ forall path d, hashes !! path = Some d <-> latest (ledger w h) path d.
Proof.
  intros Hwf. destruct (load_records_latest _ Hwf) as (hashes & Hload & Hspec).
  exists hashes. split; [|done].
  unfold LoadFileHashes. run. rewrite InitializeHashFile_run.
  fold (ledger (initialized h w) h). rewrite ledger_initialized.
  by rewrite (ReadAll_two_columns _ Hwf), Hload.
Qed.

Lemma IsDuplicate_run w h p content :
  lookup_path w p = Some (FileNode content) ->
  two_columns (ledger w h) ->
  exists b,
    IsDuplicate h p w = (Ok b, initialized h w)
    /\ (b = true <-> exists path, latest (ledger w h) path (sha256_hex content)).
Proof.
  intros Hp Hwf. destruct (LoadFileHashes_run w h Hwf) as (hashes & Hload & Hspec).
  exists (has_hash hashes (sha256_hex content)). split.
  - unfold IsDuplicate.
    rewrite (bind_ok _ _ _ _ _ (CalculateFileHash_run _ _ _ Hp)).
    by rewrite (bind_ok _ _ _ _ _ Hload).
  - rewrite has_hash_true. split; intros [path H]; exists path; by apply Hspec.
Qed.

(** C2 (as the code has it): on a readable file and a ledger of two-column
    records, IsDuplicate answers true exactly when the file's digest is the
    digest of a record that is the last one for its path -- whatever that
    path is.  A digest that a later record of the same path replaced is not
    seen. *)
Theorem IsDuplicate_iff_latest_digest w h p content :
  lookup_path w p = Some (FileNode content) ->
  two_columns (ledger w h) ->
  exists b,
    fst (IsDuplicate h p w) = Ok b
    /\ (b = true <->
        exists path, latest (ledger w h) path (sha256_hex content)).
Proof.
  intros Hp Hwf. destruct (IsDuplicate_run w h p content Hp Hwf) as (b & Hrun & Hb).
  exists b. by rewrite Hrun.
Qed.

Lemma IsDuplicate_iff_latest_digest_witness :
  exists b,
    fst (IsDuplicate "test_hashes.csv" "copy.txt" world_recorded) = Ok b
    /\ (b = true <->
        exists path,
          latest (ledger world_recorded "test_hashes.csv") path (sha256_hex abc)).
Proof.
  apply (IsDuplicate_iff_latest_digest world_recorded "test_hashes.csv" "copy.txt" abc).
  - reflexivity.
  - vm_compute. repeat constructor.
Defined.

(** C2, as stated, fails: the digest of b.txt is stored in the first
    record, which a later record of the same path replaced, and IsDuplicate
    answers false. *)
Lemma IsDuplicate_misses_replaced_digest :
  lookup_path world_rehashed "b.txt" = Some (FileNode abc)
  /\ [ "a.txt"; sha256_hex abc ] ∈ ledger world_rehashed "test_hashes.csv"
  /\ fst (IsDuplicate "test_hashes.csv" "b.txt" world_rehashed) = Ok false.
Proof.
  split; [reflexivity|]. split.
  - vm_compute. left.
  - vm_compute. reflexivity.
Qed.

Lemma append_record_run h rec w : append_record h rec w = (Ok tt, appended h rec w).
Proof. reflexivity. Qed.

Lemma appended_initialized h rec w : appended h rec (initialized h w) = appended h rec w.
Proof.
  unfold appended. rewrite ledger_initialized.
  unfold initialized. destruct (csvs w !! h) eqn:E; [done|].
  unfold set_csvs; simpl. f_equal. apply insert_insert_eq.
Qed.

Lemma ledger_appended h rec w : ledger (appended h rec w) h = ledger w h ++ [rec].
Proof. unfold ledger at 1, appended. simpl. by rewrite lookup_insert_eq. Qed.

Lemma csvs_appended_other h rec w loc :
  loc <> h -> csvs (appended h rec w) !! loc = csvs w !! loc.
Proof. intros H. unfold appended. simpl. by rewrite lookup_insert_ne. Qed.

Lemma csvs_initialized_other h w loc :
  loc <> h -> csvs (initialized h w) !! loc = csvs w !! loc.
Proof.
  intros H. unfold initialized. destruct (csvs w !! h); [done|].
  simpl. by rewrite lookup_insert_ne.
Qed.

Lemma SaveFileHash_run w h p hash content :
  lookup_path w p = Some (FileNode content) ->
  two_columns (ledger w h) ->
  exists b,
    IsDuplicate h p w = (Ok b, initialized h w)
    /\ (b = true <-> exists path, latest (ledger w h) path (sha256_hex content))
    /\ SaveFileHash h p hash w
       = (Ok tt, if b then initialized h w else appended h [p; hash] w).
Proof.
  intros Hp Hwf.
  destruct (IsDuplicate_run w h p content Hp Hwf) as (b & Hrun & Hb).
  exists b. split; [done|]. split; [done|].
  unfold SaveFileHash.
  rewrite (bind_ok _ _ _ _ _ (InitializeHashFile_run h w)).
  assert (Hp' : lookup_path (initialized h w) p = Some (FileNode content))
    by by rewrite lookup_path_initialized.
  assert (Hwf' : two_columns (ledger (initialized h w) h))
    by by rewrite ledger_initialized.
  destruct (IsDuplicate_run _ h p content Hp' Hwf') as (b' & Hrun' & Hb').
  rewrite ledger_initialized in Hb'. rewrite initialized_idem in Hrun'.
  assert (b' = b) as ->.
  { destruct b, b'; try done; [apply Hb', Hb | symmetry; apply Hb, Hb']; done. }
  rewrite (bind_ok _ _ _ _ _ Hrun'). destruct b; [done|].
  by rewrite append_record_run, appended_initialized.
Qed.

(** C3 (as the code has it): SaveFileHash first runs the duplicate check on
    the content now at the path.  When the check answers yes the store keeps
    its records; otherwise exactly one record (path, hash) is appended, with
    the hash the caller passed, whether or not the path or that hash is
    already in the store.  No other store changes. *)
Theorem SaveFileHash_appends_unless_duplicate w h p hash content :
  lookup_path w p = Some (FileNode content) ->
  two_columns (ledger w h) ->
  exists b,
    fst (IsDuplicate h p w) = Ok b
    /\ fst (SaveFileHash h p hash w) = Ok tt
    /\ ledger (snd (SaveFileHash h p hash w)) h
       = (if b then ledger w h else ledger w h ++ [[p; hash]])
    /\ forall loc, loc <> h ->
         csvs (snd (SaveFileHash h p hash w)) !! loc = csvs w !! loc.
Proof.
  intros Hp Hwf.
  destruct (SaveFileHash_run w h p hash content Hp Hwf) as (b & Hdup & _ & Hrun).
  exists b. rewrite Hdup, Hrun. simpl. split; [done|]. split; [done|].
  destruct b.
  - split; [apply ledger_initialized|]. intros loc H. by apply csvs_initialized_other.
  - split; [apply ledger_appended|]. intros loc H. by apply csvs_appended_other.
Qed.

(** After the append the store holds a.txt twice and the digest of "abc"
    twice. *)
Lemma SaveFileHash_appends_unless_duplicate_witness :
  exists b,
    fst (IsDuplicate "test_hashes.csv" "b.txt" world_rehashed) = Ok b
    /\ fst (SaveFileHash "test_hashes.csv" "b.txt" digest_abc world_rehashed) = Ok tt
    /\ ledger (snd (SaveFileHash "test_hashes.csv" "b.txt" digest_abc world_rehashed))
         "test_hashes.csv"
       = (if b then ledger world_rehashed "test_hashes.csv"
          else ledger world_rehashed "test_hashes.csv" ++ [["b.txt"; digest_abc]])
    /\ forall loc, loc <> "test_hashes.csv" ->
         csvs (snd (SaveFileHash "test_hashes.csv" "b.txt" digest_abc world_rehashed)) !! loc
         = csvs world_rehashed !! loc.
Proof.
  apply (SaveFileHash_appends_unless_duplicate world_rehashed "test_hashes.csv"
           "b.txt" digest_abc abc).
  - reflexivity.
  - vm_compute. repeat constructor.
Defined.

Example SaveFileHash_repeats_path_and_digest :
  ledger (snd (SaveFileHash "test_hashes.csv" "b.txt" digest_abc world_rehashed))
    "test_hashes.csv"
  = [["a.txt"; digest_abc]; ["a.txt"; digest_hello]; ["b.txt"; digest_abc]].
Proof. vm_compute. reflexivity. Qed.

(** C3, as stated, fails: the content of copy.txt is a duplicate, and
    SaveFileHash returns without appending anything. *)
Lemma SaveFileHash_skips_duplicate :
  fst (SaveFileHash "test_hashes.csv" "copy.txt" digest_abc world_recorded) = Ok tt
  /\ ledger (snd (SaveFileHash "test_hashes.csv" "copy.txt" digest_abc world_recorded))
       "test_hashes.csv"
     = ledger world_recorded "test_hashes.csv"
  /\ ledger (snd (SaveFileHash "test_hashes.csv" "copy.txt" digest_abc world_recorded))
       "test_hashes.csv"
     <> ledger world_recorded "test_hashes.csv" ++ [["copy.txt"; digest_abc]].
Proof.
  split; [vm_compute; reflexivity|]. split; [vm_compute; reflexivity|].
  vm_compute. discriminate.
Qed.

(** ** UploadPOST on a plain file *)

Lemma eqb_empty_false (s : string) : s <> "" -> String.eqb s "" = false.
Proof. intros H. by apply String.eqb_neq. Qed.

Lemma os_Stat_file w p content :
  lookup_path w p = Some (FileNode content) -> os_Stat p w = (Ok (FileNode content), w).
Proof. intros H. unfold os_Stat. by rewrite H. Qed.

Lemma UploadPOST_file aw depth r h w content :
  PathToFile r <> "" ->
  lookup_path w (PathToFile r) = Some (FileNode content) ->
  UploadPOST aw depth r h w = post_file aw r h w.
Proof.
  intros Hne Hp. unfold post_file.
  destruct depth; simpl; rewrite (eqb_empty_false _ Hne); simpl;
    by rewrite (bind_ok _ _ _ _ _ (bind_ok _ _ _ _ _ (os_Stat_file _ _ _ Hp))).
Qed.

Lemma latest_nonempty rows path d : latest rows path d -> rows <> [].
Proof. intros (before & after & -> & _). by destruct before. Qed.

Lemma ledger_nonempty_exists w h :
  ledger w h <> [] -> exists rows, csvs w !! h = Some rows.
Proof. unfold ledger. destruct (csvs w !! h); [eauto | done]. Qed.

(** C1 (as the code has it): when the digest of the file at the request's
    path is the latest digest that the ledger records for some path, the
    same path or another, UploadPOST returns the skipped outcome -- status
    409, the duplicate message, no id -- and leaves the world as it was: no
    call to the service, the ledger and the audit log untouched. *)
Theorem UploadPOST_skips_recorded_content aw depth w r h content path :
  PathToFile r <> "" ->
  lookup_path w (PathToFile r) = Some (FileNode content) ->
  two_columns (ledger w h) ->
  latest (ledger w h) path (sha256_hex content) ->
  exists rsp w',
    UploadPOST aw depth r h w = (Ok (Some rsp), w')
    /\ StatusCode rsp = 409%Z
    /\ Message rsp = "Duplicate file. Upload skipped."
    /\ Success rsp = false
    /\ sent w' = sent w
    /\ csvs w' = csvs w.
Proof.
  intros Hne Hp Hwf Hlatest.
  exists duplicate_response, w.
  rewrite (UploadPOST_file aw depth r h w content Hne Hp). unfold post_file.
  destruct (IsDuplicate_run w h _ content Hp Hwf) as (b & Hrun & Hb).
  assert (b = true) as -> by (apply Hb; eauto).
  destruct (ledger_nonempty_exists w h (latest_nonempty _ _ _ Hlatest)) as [rows Hrows].
  rewrite (initialized_exists _ _ _ Hrows) in Hrun.
  rewrite (bind_ok _ _ _ _ _ Hrun). done.
Qed.

(** The same bytes under another name. *)
Lemma UploadPOST_skips_recorded_content_witness :
  exists rsp w',
    UploadPOST HeaderWriter 0 (upload_of "copy.txt") "test_hashes.csv" world_recorded
    = (Ok (Some rsp), w')
    /\ StatusCode rsp = 409%Z
    /\ Message rsp = "Duplicate file. Upload skipped."
    /\ Success rsp = false
    /\ sent w' = sent world_recorded
    /\ csvs w' = csvs world_recorded.
Proof.
  apply (UploadPOST_skips_recorded_content HeaderWriter 0 world_recorded
           (upload_of "copy.txt") "test_hashes.csv" abc "a.txt").
  - discriminate.
  - reflexivity.
  - vm_compute. repeat constructor.
  - exists [], []. split; [vm_compute; reflexivity|]. intros d H. inversion H.
Defined.

(** C1, as stated, fails: the digest of b.txt appears in the persisted
    ledger, in a record that a later record of a.txt replaced, and UploadPOST
    transmits b.txt and appends to both stores. *)
Lemma UploadPOST_resends_replaced_digest :
  lookup_path world_rehashed "b.txt" = Some (FileNode abc)
  /\ [ "a.txt"; sha256_hex abc ] ∈ ledger world_rehashed "test_hashes.csv"
  /\ fst (UploadPOST HeaderWriter 0 (upload_of "b.txt") "test_hashes.csv" world_rehashed)
     = Ok (Some {| ID := "mock-file-id"; Success := true; StatusCode := 201;
                   Message := "" |})
  /\ map sBody
       (sent (snd (UploadPOST HeaderWriter 0 (upload_of "b.txt") "test_hashes.csv"
                     world_rehashed)))
     = [abc]
  /\ ledger (snd (UploadPOST HeaderWriter 0 (upload_of "b.txt") "test_hashes.csv"
                    world_rehashed)) "test_hashes.csv"
     = [["a.txt"; digest_abc]; ["a.txt"; digest_hello]; ["b.txt"; digest_abc]]
  /\ length (ledger (snd (UploadPOST HeaderWriter 0 (upload_of "b.txt")
                            "test_hashes.csv" world_rehashed)) CSVFilePath)
     = 2%nat.
Proof.
  split; [reflexivity|]. split; [vm_compute; left|].
  repeat split; vm_compute; reflexivity.
Qed.

(** ** The audit log *)

Lemma OpenFile_append_run path w : OpenFile_append path w = (Ok tt, initialized path w).
Proof. unfold OpenFile_append, initialized. by destruct (csvs w !! path). Qed.

Lemma size_is_zero_initialized path w :
  size_is_zero path (initialized path w)
  = (Ok (bool_decide (ledger w path = [])), initialized path w).
Proof.
  unfold size_is_zero, initialized, ledger.
  destruct (csvs w !! path) as [[|r rows]|] eqn:E; simpl.
  - by rewrite E.
  - by rewrite E.
  - by rewrite lookup_insert_eq.
Qed.

Lemma appended_appended h r1 r2 w :
  appended h r2 (appended h r1 w)
  = set_csvs (<[h := ledger w h ++ [r1; r2]]> (csvs w)) w.
Proof.
  unfold appended at 1. rewrite ledger_appended. unfold appended, set_csvs; simpl.
  f_equal. rewrite insert_insert_eq. by rewrite <- app_assoc.
Qed.

(** The world after a writer has run on the store at [path]. *)
Lemma csv_writer_run info path w :
  csv_writer.SaveUploadInfoToCSV info path w
  = (Ok tt,
     set_csvs (<[path := ledger w path ++ audit_rows HeaderWriter info (ledger w path)]>
                 (csvs w)) w).
Proof.
  unfold csv_writer.SaveUploadInfoToCSV.
  rewrite (bind_ok _ _ _ _ _ (OpenFile_append_run path w)).
  rewrite (bind_ok _ _ _ _ _ (size_is_zero_initialized path w)).
  fold (plain_row info). simpl audit_rows.
  destruct (ledger w path) as [|r0 rows] eqn:E; simpl bool_decide; cbv iota.
  - rewrite (bind_ok _ _ _ _ _ (append_record_run _ _ _)).
    rewrite append_record_run, appended_appended, ledger_initialized, E.
    unfold initialized. by destruct (csvs w !! path); simpl;
      [| unfold set_csvs; simpl; rewrite insert_insert_eq].
  - rewrite (bind_ok _ _ (initialized path w) tt (initialized path w)) by done.
    rewrite append_record_run, appended_initialized. unfold appended. by rewrite E.
Qed.

Lemma csv_writer_formatted_run info path w :
  csv_writer_formatted.SaveUploadInfoToCSV info path w
  = (Ok tt,
     set_csvs (<[path := ledger w path ++ audit_rows FormattedWriter info (ledger w path)]>
                 (csvs w)) w).
Proof.
  unfold csv_writer_formatted.SaveUploadInfoToCSV.
  rewrite (bind_ok _ _ _ _ _ (OpenFile_append_run path w)).
  by rewrite append_record_run, appended_initialized.
Qed.

Lemma SaveUploadInfoToCSV_run aw info path w :
  SaveUploadInfoToCSV aw info path w
  = (Ok tt,
     set_csvs (<[path := ledger w path ++ audit_rows aw info (ledger w path)]>
                 (csvs w)) w).
Proof. destruct aw; [apply csv_writer_run | apply csv_writer_formatted_run]. Qed.

Lemma save_each_run infos path w rows :
  ledger w path = rows -> rows <> [] ->
  fst (save_each infos path w) = Ok tt
  /\ ledger (snd (save_each infos path w)) path = rows ++ map plain_row infos.
Proof.
  revert w rows. induction infos as [|info infos IH]; intros w rows Hrows Hne.
  - simpl. by rewrite app_nil_r.
  - simpl. rewrite (bind_ok _ _ _ _ _ (csv_writer_run info path w)).
    rewrite Hrows. destruct rows as [|r0 rows]; [done|]. simpl audit_rows.
    match goal with |- context [save_each infos path ?w1] =>
      destruct (IH w1 ((r0 :: rows) ++ [plain_row info])) as [H1 H2]
    end.
    + unfold ledger; simpl. by rewrite lookup_insert_eq.
    + by destruct rows.
    + split; [done|]. rewrite H2. by rewrite <- app_assoc.
Qed.

(** Three uploads through the orchestrator: the header and three records. *)
Example three_uploads_four_rows :
  length (ledger (snd (UploadDirectory HeaderWriter 0 "../testdata/test_directory" key
                         ["http://mock"] world_test_directory)) CSVFilePath)
  = 4%nat
  /\ head (ledger (snd (UploadDirectory HeaderWriter 0 "../testdata/test_directory" key
                          ["http://mock"] world_test_directory)) CSVFilePath)
     = Some audit_header.
Proof. split; vm_compute; reflexivity. Qed.

(** ** uploadFile *)

Lemma ledger_set_csvs_other c path rows w h :
  h <> path -> ledger (set_csvs (<[path := rows]> c) w) h = default [] (c !! h).
Proof. intros H. unfold ledger. simpl. by rewrite lookup_insert_ne. Qed.

Lemma auth_header_run (c : bool) key w :
  (if c then addBasicAuthHeader key else mret tt) w
  = (Ok tt, if c then set_header_auth (Some key) w else w).
Proof. by destruct c. Qed.

Lemma uploadFile_recorded aw w r h content status json :
  PathToFile r <> "" ->
  PathToFile r <> "N/A" ->
  lookup_path w (PathToFile r) = Some (FileNode content) ->
  (is_Some (File r) -> FileName r <> "") ->
  h <> CSVFilePath ->
  two_columns (ledger w h) ->
  (forall path, ~ latest (ledger w h) path (sha256_hex content)) ->
  remote w (sent w) (outgoing w r content) = Response status (Some json) ->
  exists info w',
    uploadFile aw r h w
    = (Ok {| ID := jID json; Success := jSuccess json; StatusCode := status;
             Message := jMessage json |}, w')
    /\ sent w' = sent w ++ [outgoing w r content]
    /\ ledger w' h = ledger w h ++ [[PathToFile r; sha256_hex content]]
    /\ ledger w' CSVFilePath
       = ledger w CSVFilePath ++ audit_rows aw info (ledger w CSVFilePath)
    /\ utils.DirectoryPath info = PathToFile r
    /\ utils.UploadStatus info = pretty status
    /\ forall loc, loc <> h -> loc <> CSVFilePath -> csvs w' !! loc = csvs w !! loc.
Proof.
  intros Hne HNA Hp Hname Hh Hwf Hnew Hreply.
  unfold uploadFile.
  set (auth := IsAuthAvailable (ReqAuth r) && negb (Anonymous r)) in *.
  set (wa := if auth then set_header_auth (Some (APIKey (ReqAuth r))) w else w).
  assert (Hs : {| sURL := if String.eqb (URL r) "" then APIURL +:+ "/file" else URL r;
                  sFileName := sFileName (outgoing w r content);
                  sBody := sBody (outgoing w r content);
                  sAnonymous := Anonymous r;
                  sAuthorization := header_auth wa |} = outgoing w r content).
  { unfold outgoing, wa. fold auth. by destruct auth. }
  assert (Hprep : exists size mime,
    (match File r with
     | Some content0 =>
         if String.eqb (FileName r) "" then fail ErrMissingFilename
         else mimeType ← DetectContentType (head512 content0);
              mret (FileName r, content0,
                    if String.eqb (PathToFile r) "" then "N/A" else PathToFile r,
                    Z.of_nat (length content0), mimeType)
     | None =>
         content0 ← read_file (PathToFile r);
         fileSize ← GetFileSize (PathToFile r);
         mimeType ← GetMimeType (PathToFile r);
         mret (Base (PathToFile r), content0, PathToFile r, fileSize, mimeType)
     end) w
    = (Ok (sFileName (outgoing w r content), sBody (outgoing w r content),
           PathToFile r, size, mime), w)).
  { unfold outgoing; simpl. destruct (File r) as [stream|] eqn:EF.
    - rewrite eqb_empty_false by (apply Hname; eauto).
      rewrite (eqb_empty_false _ Hne). eexists _, _. reflexivity.
    - rewrite (bind_ok _ _ _ _ _ (read_file_run _ _ _ Hp)).
      unfold GetFileSize, GetMimeType. run. rewrite !Hp.
      clear. destruct content; eexists _, _; reflexivity. }
  destruct Hprep as (size & mime & Hprep).
  rewrite (bind_ok _ _ _ _ _ Hprep).
  rewrite (bind_ok _ _ _ _ _ (auth_header_run auth _ w)). fold wa.
  assert (HPost :
    Post (if String.eqb (URL r) "" then APIURL +:+ "/file" else URL r)
      (sFileName (outgoing w r content)) (sBody (outgoing w r content))
      (Anonymous r) wa
    = (Ok (Response status (Some json)),
       set_sent (sent w ++ [outgoing w r content]) wa)).
  { unfold Post. rewrite Hs.
    replace (remote wa) with (remote w) by (unfold wa; by destruct auth).
    replace (sent wa) with (sent w) by (unfold wa; by destruct auth).
    by rewrite Hreply. }
  rewrite (bind_ok _ _ _ _ _ HPost).
  rewrite (proj2 (String.eqb_neq _ _) HNA).
  set (ws := set_sent _ wa).
  rewrite (bind_ok _ _ ws (now ws) ws) by done.
  rewrite (bind_ok _ _ _ _ _ (SaveUploadInfoToCSV_run aw _ CSVFilePath ws)).
  match goal with |- context [set_csvs ?c ws] => set (wc := set_csvs c ws) end.
  assert (Hcsv : csvs wa = csvs w) by (unfold wa; by destruct auth).
  assert (Hled : forall loc, ledger ws loc = ledger w loc)
    by (intros loc; unfold ledger; simpl; by rewrite Hcsv).
  assert (Hwf' : two_columns (ledger wc h)).
  { unfold wc. rewrite ledger_set_csvs_other by done. simpl. rewrite Hcsv. apply Hwf. }
  assert (Hp' : lookup_path wc (PathToFile r) = Some (FileNode content)).
  { rewrite <- Hp. unfold wc, ws, wa. by destruct auth. }
  rewrite (bind_ok _ _ _ _ _ (CalculateFileHash_run wc _ content Hp')).
  destruct (SaveFileHash_run wc h (PathToFile r) (sha256_hex content) content Hp' Hwf')
    as (b & _ & Hb & Hsave).
  assert (Hledc : ledger wc h = ledger w h).
  { unfold wc. rewrite ledger_set_csvs_other by done. simpl. by rewrite Hcsv. }
  assert (b = false) as ->.
  { destruct b; [|done]. destruct Hb as [Hb _]. destruct (Hb eq_refl) as [path Hl].
    rewrite Hledc in Hl. by destruct (Hnew path). }
  rewrite (bind_ok _ _ _ _ _ Hsave).
  eexists _, _. split; [reflexivity|].
  split; [reflexivity|].
  split; [by rewrite ledger_appended, Hledc|].
  split.
  { unfold ledger at 1, appended. simpl.
    rewrite lookup_insert_ne, lookup_insert_eq by done. simpl.
    rewrite !Hled. reflexivity. }
  split; [reflexivity|]. split; [reflexivity|].
  intros loc H1 H2. unfold appended. simpl.
  rewrite !lookup_insert_ne by done. by rewrite Hcsv.
Qed.

(** C4 (as the code has it): a request that names a file by its path (other
    than the literal N/A) and that the duplicate check lets through is sent
    once; when the service answers with any status code and a body that
    decodes, UploadPOST returns that status and appends what the audit
    writer writes for one record (after the header, for the writer of
    csv_writer.go on an empty store) and exactly one (path, digest) record
    to the ledger, whatever the status.  No other store changes. *)
Theorem UploadPOST_records_any_status aw depth w r h content status json :
  PathToFile r <> "" ->
  PathToFile r <> "N/A" ->
  lookup_path w (PathToFile r) = Some (FileNode content) ->
  (is_Some (File r) -> FileName r <> "") ->
  h <> CSVFilePath ->
  two_columns (ledger w h) ->
  (forall path, ~ latest (ledger w h) path (sha256_hex content)) ->
  remote w (sent w) (outgoing w r content) = Response status (Some json) ->
  exists rsp info w',
    UploadPOST aw depth r h w = (Ok (Some rsp), w')
    /\ StatusCode rsp = status
    /\ sent w' = sent w ++ [outgoing w r content]
    /\ ledger w' h = ledger w h ++ [[PathToFile r; sha256_hex content]]
    /\ ledger w' CSVFilePath
       = ledger w CSVFilePath ++ audit_rows aw info (ledger w CSVFilePath)
    /\ utils.DirectoryPath info = PathToFile r
    /\ utils.UploadStatus info = pretty status
    /\ forall loc, loc <> h -> loc <> CSVFilePath -> csvs w' !! loc = csvs w !! loc.
Proof.
  intros Hne HNA Hp Hname Hh Hwf Hnew Hreply.
  rewrite (UploadPOST_file aw depth r h w content Hne Hp). unfold post_file.
  destruct (IsDuplicate_run w h _ content Hp Hwf) as (b & Hrun & Hb).
  assert (b = false) as ->.
  { destruct b; [|done]. destruct Hb as [Hb _]. destruct (Hb eq_refl) as [path Hl].
    by destruct (Hnew path). }
  rewrite (bind_ok _ _ _ _ _ Hrun).
  set (wi := initialized h w).
  assert (Hpi : lookup_path wi (PathToFile r) = Some (FileNode content))
    by (unfold wi; by rewrite lookup_path_initialized).
  assert (Hwfi : two_columns (ledger wi h))
    by (unfold wi; by rewrite ledger_initialized).
  assert (Hnewi : forall path, ~ latest (ledger wi h) path (sha256_hex content))
    by (unfold wi; by rewrite ledger_initialized).
  assert (Hsame : sent wi = sent w /\ remote wi = remote w
                  /\ outgoing wi r content = outgoing w r content).
  { unfold wi, initialized. by destruct (csvs w !! h). }
  destruct Hsame as (Hsent & Hremote & Hout).
  assert (Hreplyi : remote wi (sent wi) (outgoing wi r content)
                    = Response status (Some json))
    by by rewrite Hsent, Hremote, Hout.
  destruct (uploadFile_recorded aw wi r h content status json
              Hne HNA Hpi Hname Hh Hwfi Hnewi Hreplyi)
    as (info & w' & Hup & H1 & H2 & H3 & H4 & H5 & H6).
  exists {| ID := jID json; Success := jSuccess json; StatusCode := status;
            Message := jMessage json |}, info, w'.
  rewrite (bind_ok _ _ _ _ _ Hup).
  split; [done|]. split; [done|].
  split; [by rewrite H1, Hsent, Hout|].
  split; [by rewrite H2; unfold wi; rewrite ledger_initialized|].
  assert (Hcsv : ledger wi CSVFilePath = ledger w CSVFilePath).
  { unfold ledger, wi. rewrite csvs_initialized_other; [done|]. congruence. }
  split; [by rewrite H3, Hcsv|].
  split; [done|]. split; [done|].
  intros loc Hl1 Hl2. rewrite H6 by done. unfold wi. by apply csvs_initialized_other.
Qed.

(** The service rejects the upload with status 500; the file is recorded
    all the same. *)
Lemma UploadPOST_records_any_status_witness :
  exists rsp info w',
    UploadPOST HeaderWriter 0 (upload_of "a.txt") "test_hashes.csv" world_rejecting
    = (Ok (Some rsp), w')
    /\ StatusCode rsp = 500%Z
    /\ sent w' = sent world_rejecting ++ [outgoing world_rejecting (upload_of "a.txt") abc]
    /\ ledger w' "test_hashes.csv"
       = ledger world_rejecting "test_hashes.csv" ++ [["a.txt"; sha256_hex abc]]
    /\ ledger w' CSVFilePath
       = ledger world_rejecting CSVFilePath
         ++ audit_rows HeaderWriter info (ledger world_rejecting CSVFilePath)
    /\ utils.DirectoryPath info = "a.txt"
    /\ utils.UploadStatus info = pretty 500%Z
    /\ forall loc, loc <> "test_hashes.csv" -> loc <> CSVFilePath ->
         csvs w' !! loc = csvs world_rejecting !! loc.
Proof.
  apply (UploadPOST_records_any_status HeaderWriter 0 world_rejecting
           (upload_of "a.txt") "test_hashes.csv" abc 500%Z
           {| jID := ""; jSuccess := false; jMessage := "internal server error" |}).
  - discriminate.
  - discriminate.
  - reflexivity.
  - intros [x Hx]. discriminate Hx.
  - discriminate.
  - vm_compute. constructor.
  - intros path (before & after & Heq & _). vm_compute in Heq. by destruct before.
  - reflexivity.
Defined.

Example rejected_upload_is_recorded :
  ledger (snd (UploadPOST HeaderWriter 0 (upload_of "a.txt") "test_hashes.csv"
                 world_rejecting)) "test_hashes.csv"
  = [["a.txt"; digest_abc]]
  /\ ledger (snd (UploadPOST HeaderWriter 0 (upload_of "a.txt") "test_hashes.csv"
                    world_rejecting)) CSVFilePath
     = [ audit_header;
         ["a.txt"; "a.txt"; "https://pixeldrain.com/u/"; "2024-06-01T12:00:00Z";
          "3"; "application/octet-stream"; ""; "500"] ].
Proof. split; vm_compute; reflexivity. Qed.

(** C4, as stated, fails twice.  A gateway answers 502 with a body that is
    not JSON: the transmission completed with a status code, UploadPOST
    returns an error and neither store gains a record.  And an upload given
    only as a stream completes with status 500 without any record. *)
Lemma UploadPOST_completed_but_unrecorded :
  (fst (UploadPOST HeaderWriter 0 (upload_of "a.txt") "test_hashes.csv" world_gateway)
   = Err ErrJSON
   /\ length (sent (snd (UploadPOST HeaderWriter 0 (upload_of "a.txt")
                           "test_hashes.csv" world_gateway))) = 1%nat
   /\ csvs (snd (UploadPOST HeaderWriter 0 (upload_of "a.txt") "test_hashes.csv"
                   world_gateway))
      = csvs world_gateway)
  /\ (fst (UploadPOST HeaderWriter 0 (stream_upload abc) "test_hashes.csv" world_rejecting)
      = Ok (Some {| ID := ""; Success := false; StatusCode := 500;
                    Message := "internal server error" |})
      /\ length (sent (snd (UploadPOST HeaderWriter 0 (stream_upload abc)
                              "test_hashes.csv" world_rejecting))) = 1%nat
      /\ csvs (snd (UploadPOST HeaderWriter 0 (stream_upload abc) "test_hashes.csv"
                      world_rejecting))
         = csvs world_rejecting).
Proof. repeat split; vm_compute; reflexivity. Qed.

(** ** Uploads from a stream *)

(** C10: a request that carries only a stream (File set, PathToFile empty)
    is handed to uploadFile without any look at the ledger: the outcome and
    the calls made to the service are the same whatever the stores hold;
    when the request has a file name the stream is sent; and whatever the
    service answers, no store gains or loses a record. *)
Theorem UploadPOST_stream_untracked aw depth r h w stream :
  PathToFile r = "" ->
  File r = Some stream ->
  csvs (snd (UploadPOST aw depth r h w)) = csvs w
  /\ (forall stores,
        fst (UploadPOST aw depth r h (set_csvs stores w))
        = fst (UploadPOST aw depth r h w)
        /\ sent (snd (UploadPOST aw depth r h (set_csvs stores w)))
           = sent (snd (UploadPOST aw depth r h w)))
  /\ (FileName r <> "" ->
      sent (snd (UploadPOST aw depth r h w)) = sent w ++ [outgoing w r stream]
      /\ sBody (outgoing w r stream) = stream).
Proof.
  intros Hpath Hfile.
  assert (Hrun : forall w0,
    UploadPOST aw depth r h w0 = (rsp ← uploadFile aw r h; mret (Some rsp)) w0).
  { intros w0. destruct depth; simpl; rewrite Hpath, Hfile; simpl; reflexivity. }
  assert (Hup : forall w0,
    uploadFile aw r h w0
    = if String.eqb (FileName r) "" then (Err ErrMissingFilename, w0)
      else
        let wa := if IsAuthAvailable (ReqAuth r) && negb (Anonymous r)
                  then set_header_auth (Some (APIKey (ReqAuth r))) w0 else w0 in
        let ws := set_sent (sent w0 ++ [outgoing w0 r stream]) wa in
        match remote w0 (sent w0) (outgoing w0 r stream) with
        | TransportError msg => (Err (ErrTransport msg), ws)
        | Response _ None => (Err ErrJSON, ws)
        | Response status (Some json) =>
            (Ok {| ID := jID json; Success := jSuccess json; StatusCode := status;
                   Message := jMessage json |}, ws)
        end).
  { intros w0. unfold uploadFile, outgoing. rewrite Hfile, Hpath.
    destruct (String.eqb (FileName r) ""); [reflexivity|]. simpl.
    destruct (IsAuthAvailable (ReqAuth r) && negb (Anonymous r));
      unfold Post; run; simpl;
      destruct (remote w0 (sent w0) _) as [msg | status [json|]]; reflexivity. }
  split; [|split].
  - rewrite Hrun. run. rewrite Hup.
    destruct (String.eqb (FileName r) ""); [done|]. simpl.
    destruct (remote w (sent w) _) as [msg | status [json|]];
      by destruct (IsAuthAvailable (ReqAuth r) && negb (Anonymous r)).
  - intros stores. rewrite !Hrun. run. rewrite !Hup.
    destruct (String.eqb (FileName r) ""); [done|].
    change (outgoing (set_csvs stores w) r stream) with (outgoing w r stream).
    simpl. destruct (remote w (sent w) _) as [msg | status [json|]]; simpl;
      by destruct (IsAuthAvailable (ReqAuth r) && negb (Anonymous r)).
  - intros Hname. rewrite Hrun. run. rewrite Hup.
    rewrite (eqb_empty_false _ Hname). simpl.
    split; [|unfold outgoing; by rewrite Hfile].
    destruct (remote w (sent w) _) as [msg | status [json|]]; simpl;
      by destruct (IsAuthAvailable (ReqAuth r) && negb (Anonymous r)).
Qed.

(** The stream holds the very bytes that the ledger already records. *)
Lemma UploadPOST_stream_untracked_witness :
  csvs (snd (UploadPOST HeaderWriter 0 (stream_upload abc) "test_hashes.csv"
               world_recorded))
  = csvs world_recorded
  /\ (forall stores,
        fst (UploadPOST HeaderWriter 0 (stream_upload abc) "test_hashes.csv"
               (set_csvs stores world_recorded))
        = fst (UploadPOST HeaderWriter 0 (stream_upload abc) "test_hashes.csv"
                 world_recorded)
        /\ sent (snd (UploadPOST HeaderWriter 0 (stream_upload abc) "test_hashes.csv"
                        (set_csvs stores world_recorded)))
           = sent (snd (UploadPOST HeaderWriter 0 (stream_upload abc)
                          "test_hashes.csv" world_recorded)))
  /\ (FileName (stream_upload abc) <> "" ->
      sent (snd (UploadPOST HeaderWriter 0 (stream_upload abc) "test_hashes.csv"
                   world_recorded))
      = sent world_recorded ++ [outgoing world_recorded (stream_upload abc) abc]
      /\ sBody (outgoing world_recorded (stream_upload abc) abc) = abc).
Proof.
  apply (UploadPOST_stream_untracked HeaderWriter 0 (stream_upload abc)
           "test_hashes.csv" world_recorded abc); reflexivity.
Defined.

Example stream_of_recorded_bytes_is_sent :
  [ "a.txt"; sha256_hex abc ] ∈ ledger world_recorded "test_hashes.csv"
  /\ fst (UploadPOST HeaderWriter 0 (stream_upload abc) "test_hashes.csv" world_recorded)
     = Ok (Some {| ID := "mock-file-id"; Success := true; StatusCode := 201;
                   Message := "" |})
  /\ map sBody (sent (snd (UploadPOST HeaderWriter 0 (stream_upload abc)
                             "test_hashes.csv" world_recorded))) = [abc].
Proof. split; [vm_compute; left|]. split; vm_compute; reflexivity. Qed.

(** ** The directory batch *)

Lemma upload_each_app post auth apiURL h before after w :
  upload_each post auth apiURL h (before ++ after) w
  = match upload_each post auth apiURL h before w with
    | (Ok _, w1) => upload_each post auth apiURL h after w1
    | (Err e, w1) => (Err e, w1)
    end.
Proof.
  revert w. induction before as [|f before IH]; intros w; simpl; [done|].
  run. destruct (post _ h w) as [[x | e] w1]; [apply IH | done].
Qed.

Lemma upload_each_fails post auth apiURL h f after w e w2 :
  post (batch_request auth apiURL f) h w = (Err e, w2) ->
  upload_each post auth apiURL h (f :: after) w = (Err e, w2).
Proof. intros H. simpl. fold (batch_request auth apiURL f). by rewrite (bind_err _ _ _ _ _ H). Qed.

Lemma GetHashFilePath_run w : GetHashFilePath w = (Ok (selected_ledger (env_mode w)), w).
Proof.
  unfold GetHashFilePath, selected_ledger. by destruct (String.eqb (env_mode w) "test").
Qed.

Lemma GetFilesInDirectory_world dir w : snd (GetFilesInDirectory dir w) = w.
Proof. unfold GetFilesInDirectory. by destruct (lookup_path w dir). Qed.

Lemma UploadDirectory_run aw depth dir auth baseURL w files :
  fst (GetFilesInDirectory dir w) = Ok files ->
  UploadDirectory aw depth dir auth baseURL w
  = upload_each (UploadPOST aw depth) auth (api_url baseURL)
      (selected_ledger (env_mode w)) files w.
Proof.
  intros Hfiles. unfold UploadDirectory, UploadDirectory_with. fold (api_url baseURL).
  rewrite (bind_ok _ _ w files w).
  - by rewrite (bind_ok _ _ _ _ _ (GetHashFilePath_run w)).
  - pose proof (GetFilesInDirectory_world dir w) as Hw.
    destruct (GetFilesInDirectory dir w) as [x w']. simpl in *. congruence.
Qed.

(** C5: UploadDirectory hands the listed files to UploadPOST one after the
    other, each in the world the one before left.  When the files before
    one of them succeed and that one returns an error, UploadDirectory
    returns this error in the world of that moment: whatever files follow
    in the list, none of them is touched, and the only result is the error
    (the function has no list of responses to return). *)
Theorem UploadDirectory_stops_at_first_error
    aw depth dir auth baseURL w before failing after w1 e w2 :
  fst (GetFilesInDirectory dir w) = Ok (before ++ failing :: after) ->
  upload_each (UploadPOST aw depth) auth (api_url baseURL)
    (selected_ledger (env_mode w)) before w = (Ok tt, w1) ->
  UploadPOST aw depth (batch_request auth (api_url baseURL) failing)
    (selected_ledger (env_mode w)) w1 = (Err e, w2) ->
  UploadDirectory aw depth dir auth baseURL w = (Err e, w2).
Proof.
  intros Hfiles Hbefore Hfail.
  rewrite (UploadDirectory_run _ _ _ _ _ _ _ Hfiles).
  rewrite upload_each_app, Hbefore.
  by apply upload_each_fails.
Qed.

(** The files A, B, C: the transmission of B fails. *)
Lemma UploadDirectory_stops_at_first_error_witness :
  UploadDirectory HeaderWriter 0 "dir" key ["http://mock"] world_batch
  = (Err (ErrTransport "connection reset"),
     snd (UploadPOST HeaderWriter 0 (batch_request key "http://mock" "dir/B")
            "test_hashes.csv"
            (snd (UploadPOST HeaderWriter 0 (batch_request key "http://mock" "dir/A")
                    "test_hashes.csv" world_batch)))).
Proof.
  apply (UploadDirectory_stops_at_first_error HeaderWriter 0 "dir" key ["http://mock"]
           world_batch ["dir/A"] "dir/B" ["dir/C"]
           (snd (UploadPOST HeaderWriter 0 (batch_request key "http://mock" "dir/A")
                   "test_hashes.csv" world_batch))).
  - reflexivity.
  - vm_compute. reflexivity.
  - vm_compute. reflexivity.
Defined.

Example batch_never_reaches_C :
  map sFileName
    (sent (snd (UploadDirectory HeaderWriter 0 "dir" key ["http://mock"] world_batch)))
  = ["A"; "B"]
  /\ map (fun rec => rec !! 0%nat)
       (ledger (snd (UploadDirectory HeaderWriter 0 "dir" key ["http://mock"]
                       world_batch)) "test_hashes.csv")
     = [Some "dir/A"].
Proof. split; vm_compute; reflexivity. Qed.

(** ** The directory walker *)

(** Induction on a tree, with the property for every entry of a directory. *)
Lemma node_nested_ind (P : node -> Prop) :
  (forall content, P (FileNode content)) ->
  (forall entries, Forall (fun e => P (snd e)) entries -> P (DirNode entries)) ->
  P Locked -> P Vanished ->
  forall n, P n.
Proof.
  intros Hfile Hdir Hlocked Hvanished. fix IH 1.
  intros [content | entries | |];
    [apply Hfile | apply Hdir | apply Hlocked | apply Hvanished].
  induction entries as [|[name child] entries IHentries]; constructor;
    [apply IH | apply IHentries].
Qed.

Lemma each_entry_spec path entries :
  Forall (fun e => forall path', walk_spec path' (snd e)) entries ->
  forall acc,
    if forallb (fun e => readable (snd e)) entries
    then exists files,
           each_entry walk path entries acc = Ok (acc ++ files)
           /\ (forall p, p ∈ files <->
                 exists name child,
                   (name, child) ∈ entries /\ file_at (Join path name) child p)
           /\ length files = list_sum (map (fun e => count_files (snd e)) entries)
    else exists e, each_entry walk path entries acc = Err e.
Proof.
  induction 1 as [|[name child] entries Hchild _ IH]; intros acc; simpl.
  - exists []. rewrite app_nil_r. split; [done|]. split; [|done].
    intros p. split; [intros H; inversion H|].
    intros (name & child & H & _). inversion H.
  - specialize (Hchild (Join path name) acc). simpl in Hchild.
    destruct (readable child); simpl.
    + destruct Hchild as (files1 & -> & Hin1 & Hlen1).
      specialize (IH (acc ++ files1)).
      destruct (forallb _ entries).
      * destruct IH as (files2 & -> & Hin2 & Hlen2).
        exists (files1 ++ files2). rewrite app_assoc. split; [done|]. split.
        -- intros p. rewrite elem_of_app, Hin1, Hin2. split.
           ++ intros [H | (n' & c' & H & Hat)].
              ** exists name, child. split; [left | done].
              ** exists n', c'. split; [by right | done].
           ++ intros (n' & c' & H & Hat). apply elem_of_cons in H as [H | H].
              ** injection H as -> ->. by left.
              ** right. eauto.
        -- rewrite length_app. congruence.
      * destruct IH as [e ->]. eauto.
    + destruct Hchild as [e ->]. eauto.
Qed.

Lemma walk_meets_spec n : forall path, walk_spec path n.
Proof.
  induction n as [content | entries IH | |] using node_nested_ind;
    intros path acc; simpl.
  - exists [path]. split; [done|]. split; [|done].
    intros p. rewrite list_elem_of_singleton. split.
    + intros ->. constructor.
    + intros H. by inversion H.
  - pose proof (each_entry_spec path entries IH acc) as H.
    destruct (forallb _ entries); [|done].
    destruct H as (files & Hwalk & Hin & Hlen).
    exists files. split; [done|]. split; [|done].
    intros p. rewrite Hin. split.
    + intros (name & child & H1 & H2). by econstructor.
    + intros H. inversion H; subst. eauto.
  - eauto.
  - eauto.
Qed.

(** C7: where the root can be examined, GetFilesInDirectory lists exactly
    the regular files that descent from the root reaches -- a listed path
    is never that of a directory, and the list is as long as the tree has
    files -- provided every directory below can be listed; when some
    directory or entry cannot, the result is the error alone. *)
Theorem GetFilesInDirectory_lists_files w root n :
  lookup_path w root = Some n ->
  (readable n = true ->
   exists files,
     GetFilesInDirectory root w = (Ok files, w)
     /\ (forall p, p ∈ files <-> file_at root n p)
     /\ length files = count_files n)
  /\ (readable n = false ->
      exists e, GetFilesInDirectory root w = (Err e, w)).
Proof.
  intros Hroot. unfold GetFilesInDirectory. rewrite Hroot.
  pose proof (walk_meets_spec n root []) as H.
  split; intros Hr; rewrite Hr in H.
  - destruct H as (files & -> & Hin & Hlen). eauto.
  - destruct H as [e ->]. eauto.
Qed.

(** The directory of the walker's test holds three files. *)
Lemma GetFilesInDirectory_lists_files_witness :
  (readable test_directory = true ->
   exists files,
     GetFilesInDirectory "../testdata/test_directory" world_test_directory
     = (Ok files, world_test_directory)
     /\ (forall p, p ∈ files <-> file_at "../testdata/test_directory" test_directory p)
     /\ length files = count_files test_directory)
  /\ (readable test_directory = false ->
      exists e,
        GetFilesInDirectory "../testdata/test_directory" world_test_directory
        = (Err e, world_test_directory)).
Proof.
  apply (GetFilesInDirectory_lists_files world_test_directory
           "../testdata/test_directory" test_directory).
  reflexivity.
Defined.

Example test_directory_three_files :
  count_files test_directory = 3%nat
  /\ fst (GetFilesInDirectory "../testdata/test_directory" world_test_directory)
     = Ok [ "../testdata/test_directory/file1.txt";
            "../testdata/test_directory/subdir/file2.txt";
            "../testdata/test_directory/subdir/deeper/file3.txt" ].
Proof. split; vm_compute; reflexivity. Qed.

Example locked_directory_no_list :
  fst (GetFilesInDirectory "root" world_locked) = Err (ErrReadDir "root/private").
Proof. vm_compute. reflexivity. Qed.

Example missing_root_no_list :
  fst (GetFilesInDirectory "nowhere" world_locked) = Err (ErrNotExist "nowhere").
Proof. vm_compute. reflexivity. Qed.

(** ** The formatted size *)

Lemma append_assoc (a b c : string) : (a +:+ b) +:+ c = a +:+ (b +:+ c).
Proof.
  induction a as [|x a IH]; [done|].
  change (String x ((a +:+ b) +:+ c) = String x (a +:+ (b +:+ c))). by rewrite IH.
Qed.

Lemma pow1024_succ (k : nat) :
  (1024 ^ Z.of_nat (S k) = 1024 * 1024 ^ Z.of_nat k)%Z.
Proof. rewrite Nat2Z.inj_succ. apply Z.pow_succ_r. lia. Qed.

(** The loop stops at the first power of 1024 that the size does not reach,
    or at the last suffix. *)
Lemma scale_size_spec size larger :
  forall unit (k0 : nat),
  exists (k : nat) unit',
    scale_size size (1024 ^ Z.of_nat k0) unit larger = ((1024 ^ Z.of_nat k)%Z, unit')
    /\ (k0 <= k <= k0 + length larger)%nat
    /\ (unit :: larger) !! (k - k0)%nat = Some unit'
    /\ ((k0 < k)%nat -> (1024 ^ Z.of_nat k <= size)%Z)
    /\ ((k < k0 + length larger)%nat -> (size < 1024 ^ Z.of_nat (S k))%Z).
Proof.
  induction larger as [|u larger IH]; intros unit k0; simpl.
  - exists k0, unit. split; [done|]. split; [lia|].
    split; [by rewrite Nat.sub_diag|]. split; lia.
  - rewrite <- pow1024_succ.
    destruct (Z.leb_spec (1024 ^ Z.of_nat (S k0)) size) as [Hle | Hlt].
    + destruct (IH u (S k0)) as (k & unit' & Hrun & Hk & Hunit & Hlow & Hhigh).
      exists k, unit'. split; [done|]. split; [lia|].
      split; [by replace (k - k0)%nat with (S (k - S k0)) by lia|].
      split.
      * intros _. destruct (decide (k = S k0)) as [-> | Hne]; [done|].
        apply Hlow. lia.
      * intros H. apply Hhigh. lia.
    + exists k0, unit. split; [done|]. split; [lia|].
      split; [by rewrite Nat.sub_diag|]. split; [lia | done].
Qed.

Lemma round_half_even_nearest num den :
  (0 < den)%Z ->
  (2 * Z.abs (num - round_half_even num den * den) <= den)%Z.
Proof.
  intros Hden. unfold round_half_even.
  pose proof (Z.div_mod num den ltac:(lia)) as Hdm.
  pose proof (Z.mod_pos_bound num den Hden) as Hr.
  destruct (Z.ltb_spec den (2 * (num mod den))).
  - nia.
  - destruct (Z.eqb_spec (2 * (num mod den)) den); simpl.
    + destruct (Z.odd (num / den)); nia.
    + nia.
Qed.

Lemma round_half_even_nonneg num den :
  (0 <= num)%Z -> (0 < den)%Z -> (0 <= round_half_even num den)%Z.
Proof.
  intros Hnum Hden. unfold round_half_even.
  assert (0 <= num / den)%Z by (apply Z.div_pos; lia).
  destruct (den <? 2 * (num mod den))%Z; [lia|].
  destruct ((2 * (num mod den) =? den)%Z && Z.odd (num / den)); lia.
Qed.

Lemma pretty_digit (d : Z) : (0 <= d <= 9)%Z -> String.length (pretty d) = 1%nat.
Proof.
  intros Hd.
  assert (d = 0 \/ d = 1 \/ d = 2 \/ d = 3 \/ d = 4 \/ d = 5 \/ d = 6 \/ d = 7
          \/ d = 8 \/ d = 9)%Z as H by lia.
  repeat (destruct H as [-> | H]; [vm_compute; reflexivity|]).
  subst d. vm_compute. reflexivity.
Qed.

(** C8: for a byte count of an int64 that is not negative, FormatFileSize
    divides by 1024 as long as the value is at least 1024 -- k times, so
    that 1024^k <= size < 1024^(k+1), and not at all below 1024 -- and takes
    the k-th suffix of B, KB, MB, GB, TB, PB, EB.  What it prints is a whole
    number, a point, one decimal digit, a space and that suffix, and the
    number printed, whole.digit, is the quotient size / 1024^k rounded to
    the nearest tenth: it differs from the quotient by at most half a
    tenth.  This is the fifth field of the record that the audit writer
    with formatted sizes appends.  1536 gives "1.5 KB". *)
Theorem FormatFileSize_scales_by_1024 (size : Z) info path w :
  (0 <= size < 2 ^ 63)%Z ->
  (exists (k : nat) unit (whole digit : Z),
     ("B" :: unit_suffixes) !! k = Some unit
     /\ (size < 1024 -> k = 0%nat)%Z
     /\ (1024 <= size -> 1024 ^ Z.of_nat k <= size < 1024 ^ Z.of_nat (S k))%Z
     /\ (0 <= whole)%Z
     /\ (0 <= digit <= 9)%Z
     /\ String.length (pretty digit) = 1%nat
     /\ FormatFileSize size
        = pretty whole +:+ "." +:+ pretty digit +:+ " " +:+ unit
     /\ (2 * Z.abs (10 * size - (10 * whole + digit) * 1024 ^ Z.of_nat k)
         <= 1024 ^ Z.of_nat k)%Z)
  /\ ledger (snd (csv_writer_formatted.SaveUploadInfoToCSV info path w)) path
     = ledger w path ++ [formatted_row info]
  /\ formatted_row info !! 4%nat = Some (FormatFileSize (utils.FileSize info))
  /\ FormatFileSize 1536 = "1.5 KB"
  /\ FormatFileSize 0 = "0.0 B".
Proof.
  intros [Hlo Hhi]. split; [|split; [|split; [|split]]].
  - destruct (scale_size_spec size unit_suffixes "B" 0)
      as (k & unit & Hrun & Hk & Hunit & Hlow & Hhigh).
    change (length unit_suffixes) with 6%nat in *.
    change (1024 ^ Z.of_nat 0)%Z with 1%Z in Hrun. rewrite Nat.sub_0_r in Hunit.
    assert (Hden : (0 < 1024 ^ Z.of_nat k)%Z) by (apply Z.pow_pos_nonneg; lia).
    set (tenths := round_half_even (10 * size) (1024 ^ Z.of_nat k)).
    assert (Htenths : (0 <= tenths)%Z) by (apply round_half_even_nonneg; lia).
    pose proof (Z.div_mod tenths 10 ltac:(lia)) as Hdm.
    pose proof (Z.mod_pos_bound tenths 10 ltac:(lia)) as Hdigit.
    exists k, unit, (tenths / 10)%Z, (tenths mod 10)%Z.
    split; [done|]. split; [|split; [|split; [|split; [|split; [|split]]]]].
    + intros Hsmall. destruct k as [|k]; [done|].
      assert (1024 ^ Z.of_nat (S k) <= size)%Z by (apply Hlow; lia).
      rewrite pow1024_succ in *.
      assert (0 < 1024 ^ Z.of_nat k)%Z by (apply Z.pow_pos_nonneg; lia). lia.
    + intros Hbig. split.
      * destruct k as [|k]; [simpl; lia | apply Hlow; lia].
      * destruct (decide (k < 6)%nat) as [Hk6 | Hk6]; [apply Hhigh; lia|].
        assert (k = 6%nat) as -> by lia.
        eapply Z.lt_trans; [apply Hhi|]. reflexivity.
    + apply Z.div_pos; lia.
    + lia.
    + apply pretty_digit. lia.
    + unfold FormatFileSize. rewrite Hrun. unfold one_decimal. fold tenths.
      by rewrite !append_assoc.
    + replace (10 * (tenths / 10) + tenths mod 10)%Z with tenths by lia.
      apply round_half_even_nearest. done.
  - rewrite csv_writer_formatted_run. unfold ledger at 1. simpl.
    by rewrite lookup_insert_eq.
  - reflexivity.
  - vm_compute. reflexivity.
  - vm_compute. reflexivity.
Qed.

Lemma FormatFileSize_scales_by_1024_witness :
  (exists (k : nat) unit (whole digit : Z),
     ("B" :: unit_suffixes) !! k = Some unit
     /\ (1536 < 1024 -> k = 0%nat)%Z
     /\ (1024 <= 1536 -> 1024 ^ Z.of_nat k <= 1536 < 1024 ^ Z.of_nat (S k))%Z
     /\ (0 <= whole)%Z
     /\ (0 <= digit <= 9)%Z
     /\ String.length (pretty digit) = 1%nat
     /\ FormatFileSize 1536
        = pretty whole +:+ "." +:+ pretty digit +:+ " " +:+ unit
     /\ (2 * Z.abs (10 * 1536 - (10 * whole + digit) * 1024 ^ Z.of_nat k)
         <= 1024 ^ Z.of_nat k)%Z)
  /\ ledger (snd (csv_writer_formatted.SaveUploadInfoToCSV info_cat
                    "test_upload_logs.csv" world_fresh)) "test_upload_logs.csv"
     = ledger world_fresh "test_upload_logs.csv" ++ [formatted_row info_cat]
  /\ formatted_row info_cat !! 4%nat = Some (FormatFileSize (utils.FileSize info_cat))
  /\ FormatFileSize 1536 = "1.5 KB"
  /\ FormatFileSize 0 = "0.0 B".
Proof.
  apply (FormatFileSize_scales_by_1024 1536 info_cat "test_upload_logs.csv" world_fresh).
  lia.
Defined.

Example FormatFileSize_samples :
  map FormatFileSize [1; 1023; 1024; 1048576; 12897484; 1610612736]%Z
  = ["1.0 B"; "1023.0 B"; "1.0 KB"; "1.0 MB"; "12.3 MB"; "1.5 GB"].
Proof. vm_compute. reflexivity. Qed.

Example formatted_row_of_test_file :
  formatted_row info_cat
  = [ "test_file.jpg"; "/test/path"; "https://pixeldrain.com/u/test";
      "2024-06-01T12:00:00Z"; "1.5 KB"; "image/jpeg"; "test_user"; "200" ].
Proof. vm_compute. reflexivity. Qed.

(** ** Who reads ENV_MODE, and which stores are written *)

Create HintDb oblivious.
Create HintDb touches.

Lemma oblivious_ret {A} (a : A) : oblivious (mret a : M A).
Proof. done. Qed.

Lemma oblivious_fail {A} e : oblivious (fail e : M A).
Proof. done. Qed.

Lemma oblivious_lift {A} (x : res A) : oblivious (lift x).
Proof. done. Qed.

Lemma oblivious_bind {A B} (m : M A) (k : A -> M B) :
  oblivious m -> (forall a, oblivious (k a)) -> oblivious (m ≫= k).
Proof.
  intros Hm Hk e w. run. rewrite (Hm e w).
  destruct (m w) as [[a | err] w1]; simpl; [apply Hk | done].
Qed.

Ltac primitive_oblivious f :=
  intros e w; unfold f; simpl;
  repeat match goal with
         | |- context [match ?x with _ => _ end] => destruct x; simpl
         end; reflexivity.

Lemma oblivious_read_file p : oblivious (read_file p).
Proof.
  intros e w. unfold read_file.
  change (lookup_path (set_env e w) p) with (lookup_path w p).
  destruct (lookup_path w p) as [[]|]; reflexivity.
Qed.

Lemma oblivious_os_Stat p : oblivious (os_Stat p).
Proof.
  intros e w. unfold os_Stat.
  change (lookup_path (set_env e w) p) with (lookup_path w p).
  destruct (lookup_path w p) as [[]|]; reflexivity.
Qed.

Lemma oblivious_GetFileSize p : oblivious (GetFileSize p).
Proof.
  intros e w. unfold GetFileSize.
  change (lookup_path (set_env e w) p) with (lookup_path w p).
  destruct (lookup_path w p) as [[]|]; reflexivity.
Qed.

Lemma oblivious_GetMimeType p : oblivious (GetMimeType p).
Proof.
  intros e w. unfold GetMimeType.
  change (lookup_path (set_env e w) p) with (lookup_path w p).
  destruct (lookup_path w p) as [[[|]| | |]|]; reflexivity.
Qed.

Lemma oblivious_InitializeHashFile h : oblivious (InitializeHashFile h).
Proof. primitive_oblivious InitializeHashFile. Qed.

Lemma oblivious_OpenFile_append p : oblivious (OpenFile_append p).
Proof. primitive_oblivious OpenFile_append. Qed.

Lemma oblivious_size_is_zero p : oblivious (size_is_zero p).
Proof. primitive_oblivious size_is_zero. Qed.

Lemma oblivious_append_record p rec : oblivious (append_record p rec).
Proof. done. Qed.

Lemma oblivious_Post u f b a : oblivious (Post u f b a).
Proof. done. Qed.

Lemma oblivious_addBasicAuthHeader k : oblivious (addBasicAuthHeader k).
Proof. done. Qed.

Lemma oblivious_time_Now : oblivious time_Now.
Proof. done. Qed.

Lemma oblivious_DetectContentType data : oblivious (DetectContentType data).
Proof. done. Qed.

Lemma oblivious_rows h :
  oblivious (fun w : World => (Ok (default [] (csvs w !! h)), w)).
Proof. done. Qed.

#[global] Hint Resolve oblivious_ret oblivious_fail oblivious_lift
  oblivious_read_file oblivious_os_Stat oblivious_GetFileSize
  oblivious_GetMimeType oblivious_InitializeHashFile oblivious_OpenFile_append
  oblivious_size_is_zero oblivious_append_record oblivious_Post
  oblivious_addBasicAuthHeader oblivious_time_Now oblivious_DetectContentType
  oblivious_rows : oblivious.

(** Break a Go function into its statements. *)
Ltac oblivious_statements :=
  repeat first
    [ solve [auto with oblivious]
    | apply oblivious_bind; [|intros ?]
    | match goal with
      | |- context [match ?x with _ => _ end] => destruct x
      end ].

Lemma oblivious_CalculateFileHash p : oblivious (CalculateFileHash p).
Proof. unfold CalculateFileHash. oblivious_statements. Qed.

Lemma oblivious_LoadFileHashes h : oblivious (LoadFileHashes h).
Proof. unfold LoadFileHashes. oblivious_statements. Qed.

#[global] Hint Resolve oblivious_CalculateFileHash oblivious_LoadFileHashes : oblivious.

Lemma oblivious_IsDuplicate h p : oblivious (IsDuplicate h p).
Proof. unfold IsDuplicate. oblivious_statements. Qed.

#[global] Hint Resolve oblivious_IsDuplicate : oblivious.

Lemma oblivious_SaveFileHash h p hash : oblivious (SaveFileHash h p hash).
Proof. unfold SaveFileHash. oblivious_statements. Qed.

Lemma oblivious_SaveUploadInfoToCSV aw info p : oblivious (SaveUploadInfoToCSV aw info p).
Proof.
  destruct aw; simpl;
    [unfold csv_writer.SaveUploadInfoToCSV
    | unfold csv_writer_formatted.SaveUploadInfoToCSV];
    oblivious_statements.
Qed.

#[global] Hint Resolve oblivious_SaveFileHash oblivious_SaveUploadInfoToCSV : oblivious.

Lemma oblivious_uploadFile aw r h : oblivious (uploadFile aw r h).
Proof. unfold uploadFile. oblivious_statements. Qed.

#[global] Hint Resolve oblivious_uploadFile : oblivious.

(** Without a directory to descend into, UploadPOST never reads ENV_MODE. *)
Lemma oblivious_UploadPOST_0 aw r h : oblivious (UploadPOST aw 0 r h).
Proof. simpl. oblivious_statements. Qed.

Lemma touches_weaken {A} e (S S' : string -> Prop) (Q Q' : A -> Prop) (m : M A) :
  touches_only e S Q m ->
  (forall loc, S loc -> S' loc) -> (forall a, Q a -> Q' a) ->
  touches_only e S' Q' m.
Proof.
  intros Hm HS HQ w Hw. destruct (Hm w Hw) as (H1 & H2 & H3).
  split; [done|]. split; [|by auto].
  intros loc Hloc. apply H2. intros HSloc. apply Hloc. by apply HS.
Qed.

Lemma touches_bind_post {A B} e S (Q : A -> Prop) (Q' : B -> Prop)
    (m : M A) (k : A -> M B) :
  touches_only e S Q m ->
  (forall a, Q a -> touches_only e S Q' (k a)) ->
  touches_only e S Q' (m ≫= k).
Proof.
  intros Hm Hk w Hw. destruct (Hm w Hw) as ([H1 H1'] & H2 & H3). run.
  destruct (m w) as [[a | err] w1]; simpl in *.
  - destruct (Hk a (H3 a eq_refl) w1 H1) as ([K1 K1'] & K2 & K3).
    split; [split; congruence|]. split; [|done].
    intros loc Hloc. by rewrite K2, H2.
  - split; [done|]. split; [done|]. intros a Ha. discriminate Ha.
Qed.

Lemma touches_bind {A B} e S (Q' : B -> Prop) (m : M A) (k : A -> M B) :
  touches_only e S any m ->
  (forall a, touches_only e S Q' (k a)) ->
  touches_only e S Q' (m ≫= k).
Proof. intros Hm Hk. apply (touches_bind_post e S any); auto. Qed.

(** A statement that leaves the stores and the environment as they are. *)
Lemma touches_reader {A} e S (m : M A) :
  (forall w, csvs (snd (m w)) = csvs w /\ env_mode (snd (m w)) = env_mode w
             /\ roots (snd (m w)) = roots w) ->
  touches_only e S any m.
Proof.
  intros H w Hw. destruct (H w) as (H1 & H2 & H3).
  split; [split; congruence|]. split; [|done]. intros loc _. by rewrite H1.
Qed.

Ltac reader f :=
  apply touches_reader; intros w; unfold f; simpl;
  repeat match goal with
         | |- context [match ?x with _ => _ end] => destruct x; simpl
         end; done.

Lemma touches_ret {A} e S (a : A) : touches_only e S any (mret a : M A).
Proof. by apply touches_reader. Qed.

Lemma touches_fail {A} e S err : touches_only e S any (fail err : M A).
Proof. by apply touches_reader. Qed.

Lemma touches_lift {A} e S (x : res A) : touches_only e S any (lift x).
Proof. by apply touches_reader. Qed.

Lemma touches_read_file e S p : touches_only e S any (read_file p).
Proof. reader read_file. Qed.

Lemma touches_os_Stat e S p : touches_only e S any (os_Stat p).
Proof. reader os_Stat. Qed.

Lemma touches_GetFileSize e S p : touches_only e S any (GetFileSize p).
Proof. reader GetFileSize. Qed.

Lemma touches_GetMimeType e S p : touches_only e S any (GetMimeType p).
Proof. reader GetMimeType. Qed.

Lemma touches_size_is_zero e S p : touches_only e S any (size_is_zero p).
Proof. reader size_is_zero. Qed.

Lemma touches_Post e S u f b a : touches_only e S any (Post u f b a).
Proof. by apply touches_reader. Qed.

Lemma touches_addBasicAuthHeader e S k : touches_only e S any (addBasicAuthHeader k).
Proof. by apply touches_reader. Qed.

Lemma touches_time_Now e S : touches_only e S any time_Now.
Proof. by apply touches_reader. Qed.

Lemma touches_DetectContentType e S data : touches_only e S any (DetectContentType data).
Proof. by apply touches_reader. Qed.

Lemma touches_rows e S h :
  touches_only e S any (fun w : World => (Ok (default [] (csvs w !! h)), w)).
Proof. by apply touches_reader. Qed.

Lemma touches_GetFilesInDirectory e S dir :
  touches_only e S any (GetFilesInDirectory dir).
Proof. reader GetFilesInDirectory. Qed.

Lemma touches_GetHashFilePath e S :
  touches_only e S (fun h => h = selected_ledger e) GetHashFilePath.
Proof.
  intros w Hw. rewrite GetHashFilePath_run. simpl. split; [done|]. split; [done|].
  intros a Ha. congruence.
Qed.

Lemma touches_InitializeHashFile e (S : string -> Prop) h :
  S h -> touches_only e S any (InitializeHashFile h).
Proof.
  intros HS w Hw. rewrite InitializeHashFile_run. simpl.
  split; [|split; [|done]].
  - unfold initialized. by destruct (csvs w !! h).
  - intros loc Hloc. apply csvs_initialized_other. congruence.
Qed.

Lemma touches_OpenFile_append e (S : string -> Prop) p :
  S p -> touches_only e S any (OpenFile_append p).
Proof.
  intros HS w Hw. rewrite OpenFile_append_run. simpl.
  split; [|split; [|done]].
  - unfold initialized. by destruct (csvs w !! p).
  - intros loc Hloc. apply csvs_initialized_other. congruence.
Qed.

Lemma touches_append_record e (S : string -> Prop) p rec :
  S p -> touches_only e S any (append_record p rec).
Proof.
  intros HS w Hw. rewrite append_record_run. simpl.
  split; [done|]. split; [|done].
  intros loc Hloc. apply lookup_insert_ne. congruence.
Qed.

Lemma upload_stores_ledger e h : upload_stores e h h.
Proof. by left. Qed.

Lemma upload_stores_audit e h : upload_stores e h CSVFilePath.
Proof. right. by left. Qed.

Lemma upload_stores_selected e h : upload_stores e h (selected_ledger e).
Proof. right. by right. Qed.

#[global] Hint Resolve touches_ret touches_fail touches_lift touches_read_file
  touches_os_Stat touches_GetFileSize touches_GetMimeType touches_size_is_zero
  touches_Post touches_addBasicAuthHeader touches_time_Now
  touches_DetectContentType touches_rows touches_GetFilesInDirectory
  touches_InitializeHashFile touches_OpenFile_append touches_append_record
  upload_stores_ledger upload_stores_audit upload_stores_selected : touches.

Ltac touches_statements :=
  repeat first
    [ solve [auto with touches]
    | apply touches_bind; [|intros ?]
    | match goal with
      | |- context [match ?x with _ => _ end] => destruct x
      end ].

Lemma touches_CalculateFileHash e S p : touches_only e S any (CalculateFileHash p).
Proof. unfold CalculateFileHash. touches_statements. Qed.

#[global] Hint Resolve touches_CalculateFileHash : touches.

Lemma touches_LoadFileHashes e (S : string -> Prop) h :
  S h -> touches_only e S any (LoadFileHashes h).
Proof. intros HS. unfold LoadFileHashes. touches_statements. Qed.

#[global] Hint Resolve touches_LoadFileHashes : touches.

Lemma touches_IsDuplicate e (S : string -> Prop) h p :
  S h -> touches_only e S any (IsDuplicate h p).
Proof. intros HS. unfold IsDuplicate. touches_statements. Qed.

#[global] Hint Resolve touches_IsDuplicate : touches.

Lemma touches_SaveFileHash e (S : string -> Prop) h p hash :
  S h -> touches_only e S any (SaveFileHash h p hash).
Proof. intros HS. unfold SaveFileHash. touches_statements. Qed.

Lemma touches_SaveUploadInfoToCSV e (S : string -> Prop) aw info p :
  S p -> touches_only e S any (SaveUploadInfoToCSV aw info p).
Proof.
  intros HS. destruct aw; simpl;
    [unfold csv_writer.SaveUploadInfoToCSV
    | unfold csv_writer_formatted.SaveUploadInfoToCSV];
    touches_statements.
Qed.

#[global] Hint Resolve touches_SaveFileHash touches_SaveUploadInfoToCSV : touches.

Lemma touches_uploadFile e (S : string -> Prop) aw r h :
  S h -> S CSVFilePath -> touches_only e S any (uploadFile aw r h).
Proof. intros HS HC. unfold uploadFile. touches_statements. Qed.

#[global] Hint Resolve touches_uploadFile : touches.

Lemma touches_upload_each e (S : string -> Prop) post auth apiURL h files :
  (forall r, touches_only e S any (post r h)) ->
  touches_only e S any (upload_each post auth apiURL h files).
Proof.
  intros Hpost. induction files as [|f files IH]; simpl; touches_statements.
Qed.

Lemma touches_UploadDirectory_with e (S : string -> Prop) post dir auth baseURL :
  (forall r, touches_only e S any (post r (selected_ledger e))) ->
  touches_only e S any (UploadDirectory_with post dir auth baseURL).
Proof.
  intros Hpost. unfold UploadDirectory_with.
  apply touches_bind; [auto with touches|]. intros files.
  apply (touches_bind_post e S (fun h => h = selected_ledger e));
    [apply touches_GetHashFilePath|].
  intros h ->. by apply touches_upload_each.
Qed.

(** UploadPOST writes to the ledger it is given and to the audit log; when
    it descends into a directory, also to the ledger that ENV_MODE
    selects. *)
Lemma touches_UploadPOST aw depth :
  forall e r h, touches_only e (upload_stores e h) any (UploadPOST aw depth r h).
Proof.
  induction depth as [|depth IH]; intros e r h; simpl.
  - touches_statements.
  - apply (touches_weaken e (upload_stores e h) _ any any); [|done|done].
    destruct (String.eqb (PathToFile r) "" && negb (bool_decide (is_Some (File r))));
      [auto with touches|].
    apply touches_bind; [touches_statements|]. intros [|]; [|touches_statements].
    apply touches_bind; [|auto with touches].
    apply touches_UploadDirectory_with. intros r'.
    apply (touches_weaken e (upload_stores e (selected_ledger e)) _ any any);
      [apply IH | | done].
    intros loc [-> | [-> | ->]]; auto with touches.
Qed.

Lemma is_directory_set_env e w p : is_directory (set_env e w) p = is_directory w p.
Proof. reflexivity. Qed.

(** Where the path is no directory the depth is of no account. *)
Lemma UploadPOST_depth aw depth r h w :
  is_directory w (PathToFile r) = false ->
  UploadPOST aw depth r h w = UploadPOST aw 0 r h w.
Proof.
  intros Hdir. destruct depth as [|depth]; [done|]. simpl.
  destruct (String.eqb (PathToFile r) "" && negb (bool_decide (is_Some (File r))));
    [done|].
  destruct (String.eqb (PathToFile r) ""); [done|].
  run. unfold os_Stat, is_directory in *.
  destruct (lookup_path w (PathToFile r)) as [[content | entries | |]|]; try done.
Qed.

(** C9 (as the code has it): for a path that is not a directory, UploadPOST
    never reads ENV_MODE -- under any other value of the variable it returns
    the same result and leaves the same world -- and the only stores it
    writes are the ledger it was given and the audit log.  UploadDirectory
    has no parameter for the ledger: it is the loop over the listed files
    with the ledger that ENV_MODE selects (test_hashes.csv for "test",
    hashes.csv otherwise), and the only stores it writes are that ledger and
    the audit log, whatever base URL it is given. *)
Theorem ledger_location_of_file_and_batch aw depth r h e dir auth baseURL w :
  is_directory w (PathToFile r) = false ->
  (UploadPOST aw depth r h (set_env e w)
   = (fst (UploadPOST aw depth r h w), set_env e (snd (UploadPOST aw depth r h w)))
   /\ forall loc, loc <> h -> loc <> CSVFilePath ->
        csvs (snd (UploadPOST aw depth r h w)) !! loc = csvs w !! loc)
  /\ (UploadDirectory aw depth dir auth baseURL w
      = (files ← GetFilesInDirectory dir;
         upload_each (UploadPOST aw depth) auth (api_url baseURL)
           (selected_ledger (env_mode w)) files) w
      /\ forall loc, loc <> selected_ledger (env_mode w) -> loc <> CSVFilePath ->
           csvs (snd (UploadDirectory aw depth dir auth baseURL w)) !! loc
           = csvs w !! loc).
Proof.
  intros Hdir. split; split.
  - rewrite (UploadPOST_depth aw depth r h (set_env e w)) by done.
    rewrite (UploadPOST_depth aw depth r h w) by done.
    apply oblivious_UploadPOST_0.
  - intros loc H1 H2. rewrite (UploadPOST_depth aw depth r h w) by done.
    assert (Hframe : touches_only (env_mode w) (fun loc => loc = h \/ loc = CSVFilePath)
                       any (UploadPOST aw 0 r h)).
    { simpl. touches_statements. }
    destruct (Hframe w eq_refl) as (_ & Hcsvs & _). apply Hcsvs. by intros [? | ?].
  - unfold UploadDirectory, UploadDirectory_with. fold (api_url baseURL). run.
    destruct (GetFilesInDirectory dir w) as [[files | err] w1] eqn:E; [|done].
    pose proof (GetFilesInDirectory_world dir w) as Hw. rewrite E in Hw. simpl in Hw.
    subst w1. by rewrite GetHashFilePath_run.
  - intros loc H1 H2.
    assert (Hframe : touches_only (env_mode w)
                       (upload_stores (env_mode w) (selected_ledger (env_mode w)))
                       any (UploadDirectory aw depth dir auth baseURL)).
    { apply touches_UploadDirectory_with. intros r'. apply touches_UploadPOST. }
    destruct (Hframe w eq_refl) as (_ & Hcsvs & _). apply Hcsvs.
    by intros [? | [? | ?]].
Qed.

Lemma ledger_location_of_file_and_batch_witness :
  (UploadPOST HeaderWriter 0 (upload_of "testdata/test_directory/file1.txt")
     "custom.csv" (set_env "test" world_production)
   = (fst (UploadPOST HeaderWriter 0 (upload_of "testdata/test_directory/file1.txt")
             "custom.csv" world_production),
      set_env "test"
        (snd (UploadPOST HeaderWriter 0 (upload_of "testdata/test_directory/file1.txt")
                "custom.csv" world_production)))
   /\ forall loc, loc <> "custom.csv" -> loc <> CSVFilePath ->
        csvs (snd (UploadPOST HeaderWriter 0
                     (upload_of "testdata/test_directory/file1.txt")
                     "custom.csv" world_production)) !! loc
        = csvs world_production !! loc)
  /\ (UploadDirectory HeaderWriter 0 "testdata/test_directory" key ["http://mock"]
        world_production
      = (files ← GetFilesInDirectory "testdata/test_directory";
         upload_each (UploadPOST HeaderWriter 0) key (api_url ["http://mock"])
           (selected_ledger (env_mode world_production)) files) world_production
      /\ forall loc, loc <> selected_ledger (env_mode world_production) ->
           loc <> CSVFilePath ->
           csvs (snd (UploadDirectory HeaderWriter 0 "testdata/test_directory" key
                        ["http://mock"] world_production)) !! loc
           = csvs world_production !! loc).
Proof.
  apply (ledger_location_of_file_and_batch HeaderWriter 0
           (upload_of "testdata/test_directory/file1.txt") "custom.csv" "test"
           "testdata/test_directory" key ["http://mock"] world_production).
  reflexivity.
Defined.

(** C9, as stated, fails for the directory batch: two runs of
    UploadDirectory that differ in ENV_MODE alone keep their ledgers at
    different locations; and a directory handed to UploadPOST with the
    ledger custom.csv is recorded in hashes.csv, while custom.csv is used
    as the base URL of the requests and never created. *)
Lemma UploadDirectory_ledger_follows_ENV_MODE :
  (length (ledger (snd (UploadDirectory HeaderWriter 0 "testdata/test_directory" key
                          ["http://mock"] world_production)) "hashes.csv") = 3%nat
   /\ csvs (snd (UploadDirectory HeaderWriter 0 "testdata/test_directory" key
                   ["http://mock"] world_production)) !! "test_hashes.csv" = None)
  /\ (length (ledger (snd (UploadDirectory HeaderWriter 0 "testdata/test_directory" key
                             ["http://mock"] (set_env "test" world_production)))
                "test_hashes.csv") = 3%nat
      /\ csvs (snd (UploadDirectory HeaderWriter 0 "testdata/test_directory" key
                      ["http://mock"] (set_env "test" world_production)))
           !! "hashes.csv" = None)
  /\ (length (ledger (snd (UploadPOST HeaderWriter 1 (upload_of "testdata/test_directory")
                             "custom.csv" world_production)) "hashes.csv") = 3%nat
      /\ csvs (snd (UploadPOST HeaderWriter 1 (upload_of "testdata/test_directory")
                      "custom.csv" world_production)) !! "custom.csv" = None
      /\ map sURL (sent (snd (UploadPOST HeaderWriter 1
                                (upload_of "testdata/test_directory")
                                "custom.csv" world_production)))
         = ["custom.csv/file"; "custom.csv/file"; "custom.csv/file"]).
Proof. repeat split; vm_compute; reflexivity. Qed.

(** ** How a digest comes to be replaced *)

(** The ledger of [world_rehashed] is what the orchestrator itself writes:
    a.txt is uploaded, edited, and uploaded again. *)
Example rehashed_ledger_arises :
  let first := snd (UploadPOST HeaderWriter 0 (upload_of "a.txt") "test_hashes.csv"
                      world_fresh) in
  let edited := set_roots [("a.txt", FileNode hello); ("b.txt", FileNode abc)] first in
  let second := snd (UploadPOST HeaderWriter 0 (upload_of "a.txt") "test_hashes.csv"
                       edited) in
  ledger second "test_hashes.csv" = ledger world_rehashed "test_hashes.csv"
  /\ roots second = roots world_rehashed.
Proof. split; vm_compute; reflexivity. Qed.

(** ** The depth bound *)

Lemma is_directory_roots w1 w2 p :
  roots w1 = roots w2 -> is_directory w1 p = is_directory w2 p.
Proof. intros H. unfold is_directory, lookup_path. by rewrite H. Qed.

Lemma upload_each_depth aw depth auth apiURL h files :
  forall w,
    (forall f, f ∈ files -> is_directory w f = false) ->
    upload_each (UploadPOST aw depth) auth apiURL h files w
    = upload_each (UploadPOST aw 0) auth apiURL h files w.
Proof.
  induction files as [|f files IH]; intros w Hfiles; [done|].
  cbn [upload_each]. run.
  rewrite (UploadPOST_depth aw depth) by (apply Hfiles; left).
  destruct (touches_UploadPOST aw 0 (env_mode w)
              {| File := None; PathToFile := f; FileName := ""; Anonymous := false;
                 ReqAuth := auth; URL := apiURL +:+ "/file" |} h w eq_refl)
    as ([_ Hroots] & _).
  destruct (UploadPOST aw 0 _ h w) as [[rsp | err] w1]; [|done].
  apply IH. intros f' Hf'. rewrite (is_directory_roots w1 w) by done.
  apply Hfiles. by right.
Qed.

(** The files that the walker lists are no directories, so that the bound
    is never met: UploadDirectory gives with any depth what it gives with
    none. *)
Lemma UploadDirectory_depth aw depth dir auth baseURL w files :
  fst (GetFilesInDirectory dir w) = Ok files ->
  (forall f, f ∈ files -> is_directory w f = false) ->
  UploadDirectory aw depth dir auth baseURL w
  = UploadDirectory aw 0 dir auth baseURL w.
Proof.
  intros Hfiles Hplain.
  rewrite !(UploadDirectory_run _ _ _ _ _ _ _ Hfiles).
  by apply upload_each_depth.
Qed.

(** ** The audit log over a run of uploads *)

Lemma ledger_initialized_any h w loc : ledger (initialized h w) loc = ledger w loc.
Proof.
  destruct (decide (loc = h)) as [-> | Hne]; [apply ledger_initialized|].
  unfold ledger. by rewrite csvs_initialized_other.
Qed.

(** An upload that goes through makes one call and hands one record to the
    audit writer. *)
Lemma UploadPOST_logged_run aw depth w r h :
  h <> CSVFilePath ->
  succeeds r h w ->
  exists info rsp,
    fst (UploadPOST aw depth r h w) = Ok (Some rsp)
    /\ length (sent (snd (UploadPOST aw depth r h w))) = S (length (sent w))
    /\ ledger (snd (UploadPOST aw depth r h w)) CSVFilePath
       = ledger w CSVFilePath ++ audit_rows aw info (ledger w CSVFilePath).
Proof.
  intros Hh (Hne & HNA & Hname & Hwf & content & status & json & Hp & Hnew & Hreply).
  rewrite (UploadPOST_file aw depth r h w content Hne Hp). unfold post_file.
  destruct (IsDuplicate_run w h _ content Hp Hwf) as (b & Hrun & Hb).
  assert (b = false) as ->.
  { destruct b; [|done]. destruct Hb as [Hb _]. destruct (Hb eq_refl) as [path Hl].
    by destruct (Hnew path). }
  rewrite (bind_ok _ _ _ _ _ Hrun).
  set (wi := initialized h w).
  assert (Hsame : sent wi = sent w /\ remote wi = remote w
                  /\ outgoing wi r content = outgoing w r content).
  { unfold wi, initialized. by destruct (csvs w !! h). }
  destruct Hsame as (Hsent & Hremote & Hout).
  destruct (uploadFile_recorded aw wi r h content status json)
    as (info & w' & Hup & H1 & _ & H3 & _); try done.
  - unfold wi. by rewrite lookup_path_initialized.
  - unfold wi. by rewrite ledger_initialized.
  - unfold wi. by rewrite ledger_initialized.
  - by rewrite Hsent, Hremote, Hout.
  - rewrite (bind_ok _ _ _ _ _ Hup). simpl.
    exists info. eexists. split; [done|]. split.
    + rewrite H1, Hsent, length_app. simpl. lia.
    + rewrite H3. unfold wi. by rewrite !ledger_initialized_any.
Qed.

(** Into an audit log that holds something, and with the writer that knows
    no header into any, a run of uploads adds one record each. *)
Lemma upload_all_rows aw depth h rs :
  h <> CSVFilePath ->
  forall w,
    aw = FormattedWriter \/ ledger w CSVFilePath <> [] ->
    all_succeed aw depth rs h w ->
    fst (upload_all aw depth rs h w) = Ok tt
    /\ length (sent (snd (upload_all aw depth rs h w)))
       = (length (sent w) + length rs)%nat
    /\ exists infos,
         length infos = length rs
         /\ ledger (snd (upload_all aw depth rs h w)) CSVFilePath
            = ledger w CSVFilePath
              ++ map (match aw with
                      | HeaderWriter => plain_row
                      | FormattedWriter => formatted_row
                      end) infos.
Proof.
  intros Hh. induction rs as [|r rs IH]; intros w Hinv Hall.
  - simpl. split; [done|]. split; [lia|]. exists []. by rewrite app_nil_r.
  - destruct Hall as [Hr Hall].
    destruct (UploadPOST_logged_run aw depth w r h Hh Hr)
      as (info & rsp & Hfst & Hsent & Hlog).
    cbn [upload_all].
    destruct (UploadPOST aw depth r h w) as [res w1] eqn:E. simpl in *. subst res.
    rewrite (bind_ok _ _ _ _ _ E).
    assert (Hrow : audit_rows aw info (ledger w CSVFilePath)
                   = [match aw with
                      | HeaderWriter => plain_row
                      | FormattedWriter => formatted_row
                      end info]).
    { destruct Hinv as [-> | Hfull]; [done|].
      destruct aw; [|done]. simpl. by destruct (ledger w CSVFilePath). }
    destruct (IH w1) as (H1 & H2 & infos & Hlen & Hrows); [|done|].
    + destruct Hinv as [-> | Hfull]; [by left | right].
      rewrite Hlog. by destruct (ledger w CSVFilePath).
    + split; [done|]. split; [lia|]. exists (info :: infos).
      split; [simpl; lia|]. by rewrite Hrows, Hlog, Hrow, <- app_assoc.
Qed.

(** C6 (as the code has it): every call of the audit writer opens the
    store, creating it when absent, appends exactly one record after the
    rows that were there, and touches no other store.  The writer of
    csv_writer.go first writes the fixed header of eight columns, exactly
    when the store holds nothing at that moment; the revision with
    formatted sizes writes no header.  So N >= 1 uploads in a row that all
    go through -- no error, one call to the service each -- starting from
    an absent or empty audit log, leave the header and N records, N + 1
    rows, with the writer of csv_writer.go, and N records with the
    revision. *)
Theorem SaveUploadInfoToCSV_header_once aw depth info path h rs w :
  h <> CSVFilePath ->
  ledger w CSVFilePath = [] ->
  rs <> [] ->
  all_succeed aw depth rs h w ->
  length audit_header = 8%nat
  /\ (forall w0,
        fst (csv_writer.SaveUploadInfoToCSV info path w0) = Ok tt
        /\ ledger (snd (csv_writer.SaveUploadInfoToCSV info path w0)) path
           = ledger w0 path
             ++ (if bool_decide (ledger w0 path = []) then [audit_header] else [])
             ++ [plain_row info]
        /\ forall loc, loc <> path ->
             csvs (snd (csv_writer.SaveUploadInfoToCSV info path w0)) !! loc
             = csvs w0 !! loc)
  /\ (forall w0,
        fst (csv_writer_formatted.SaveUploadInfoToCSV info path w0) = Ok tt
        /\ ledger (snd (csv_writer_formatted.SaveUploadInfoToCSV info path w0)) path
           = ledger w0 path ++ [formatted_row info]
        /\ forall loc, loc <> path ->
             csvs (snd (csv_writer_formatted.SaveUploadInfoToCSV info path w0)) !! loc
             = csvs w0 !! loc)
  /\ fst (upload_all aw depth rs h w) = Ok tt
  /\ length (sent (snd (upload_all aw depth rs h w)))
     = (length (sent w) + length rs)%nat
  /\ (exists infos,
        length infos = length rs
        /\ ledger (snd (upload_all aw depth rs h w)) CSVFilePath
           = match aw with
             | HeaderWriter => audit_header :: map plain_row infos
             | FormattedWriter => map formatted_row infos
             end)
  /\ length (ledger (snd (upload_all aw depth rs h w)) CSVFilePath)
     = match aw with
       | HeaderWriter => S (length rs)
       | FormattedWriter => length rs
       end.
Proof.
  intros Hh Hempty Hrs Hall. split; [reflexivity|]. split; [|split].
  - intros w0. rewrite csv_writer_run. simpl. split; [done|]. split.
    + unfold ledger at 1. simpl. rewrite lookup_insert_eq. simpl.
      by destruct (ledger w0 path).
    + intros loc Hloc. by rewrite lookup_insert_ne.
  - intros w0. rewrite csv_writer_formatted_run. simpl. split; [done|]. split.
    + unfold ledger at 1. simpl. by rewrite lookup_insert_eq.
    + intros loc Hloc. by rewrite lookup_insert_ne.
  - destruct rs as [|r rs]; [done|]. destruct Hall as [Hr Hall].
    destruct (UploadPOST_logged_run aw depth w r h Hh Hr)
      as (info1 & rsp & Hfst & Hsent & Hlog).
    rewrite Hempty in Hlog. simpl in Hlog.
    cbn [upload_all].
    destruct (UploadPOST aw depth r h w) as [res w1] eqn:E. simpl in *. subst res.
    rewrite (bind_ok _ _ _ _ _ E).
    destruct (upload_all_rows aw depth h rs Hh w1) as (H1 & H2 & infos & Hlen & Hrows);
      [|done|].
    { destruct aw; [right | by left]. by rewrite Hlog. }
    split; [done|]. split; [lia|].
    assert (Hfinal : ledger (snd (upload_all aw depth rs h w1)) CSVFilePath
                     = match aw with
                       | HeaderWriter => audit_header :: map plain_row (info1 :: infos)
                       | FormattedWriter => map formatted_row (info1 :: infos)
                       end).
    { rewrite Hrows, Hlog. by destruct aw. }
    split.
    + exists (info1 :: infos). split; [simpl; lia | done].
    + rewrite Hfinal. destruct aw; simpl; rewrite length_map; lia.
Qed.

(** Two files uploaded one after the other into a fresh audit log, with the
    writer of csv_writer.go: the header and two records. *)
Lemma SaveUploadInfoToCSV_header_once_witness :
  length audit_header = 8%nat
  /\ (forall w0,
        fst (csv_writer.SaveUploadInfoToCSV info_cat "test_upload_logs.csv" w0) = Ok tt
        /\ ledger (snd (csv_writer.SaveUploadInfoToCSV info_cat "test_upload_logs.csv" w0))
             "test_upload_logs.csv"
           = ledger w0 "test_upload_logs.csv"
             ++ (if bool_decide (ledger w0 "test_upload_logs.csv" = [])
                 then [audit_header] else [])
             ++ [plain_row info_cat]
        /\ forall loc, loc <> "test_upload_logs.csv" ->
             csvs (snd (csv_writer.SaveUploadInfoToCSV info_cat "test_upload_logs.csv" w0))
               !! loc
             = csvs w0 !! loc)
  /\ (forall w0,
        fst (csv_writer_formatted.SaveUploadInfoToCSV info_cat "test_upload_logs.csv" w0)
        = Ok tt
        /\ ledger (snd (csv_writer_formatted.SaveUploadInfoToCSV info_cat
                          "test_upload_logs.csv" w0)) "test_upload_logs.csv"
           = ledger w0 "test_upload_logs.csv" ++ [formatted_row info_cat]
        /\ forall loc, loc <> "test_upload_logs.csv" ->
             csvs (snd (csv_writer_formatted.SaveUploadInfoToCSV info_cat
                          "test_upload_logs.csv" w0)) !! loc
             = csvs w0 !! loc)
  /\ fst (upload_all HeaderWriter 0 [upload_of "a.txt"; upload_of "b.txt"]
            "test_hashes.csv" world_two_files) = Ok tt
  /\ length (sent (snd (upload_all HeaderWriter 0 [upload_of "a.txt"; upload_of "b.txt"]
                          "test_hashes.csv" world_two_files)))
     = (length (sent world_two_files)
        + length [upload_of "a.txt"; upload_of "b.txt"])%nat
  /\ (exists infos,
        length infos = length [upload_of "a.txt"; upload_of "b.txt"]
        /\ ledger (snd (upload_all HeaderWriter 0 [upload_of "a.txt"; upload_of "b.txt"]
                          "test_hashes.csv" world_two_files)) CSVFilePath
           = audit_header :: map plain_row infos)
  /\ length (ledger (snd (upload_all HeaderWriter 0
                            [upload_of "a.txt"; upload_of "b.txt"]
                            "test_hashes.csv" world_two_files)) CSVFilePath)
     = S (length [upload_of "a.txt"; upload_of "b.txt"]).
Proof.
  apply (SaveUploadInfoToCSV_header_once HeaderWriter 0 info_cat "test_upload_logs.csv"
           "test_hashes.csv" [upload_of "a.txt"; upload_of "b.txt"] world_two_files).
  - discriminate.
  - reflexivity.
  - discriminate.
  - split; [|split; [|exact I]].
    + split; [discriminate|]. split; [discriminate|].
      split; [intros [x Hx]; discriminate Hx|]. split; [vm_compute; constructor|].
      eexists abc, _, _. split; [reflexivity|]. split; [|reflexivity].
      intros path (before & after & Heq & _). vm_compute in Heq. by destruct before.
    + split; [discriminate|]. split; [discriminate|].
      split; [intros [x Hx]; discriminate Hx|].
      split; [vm_compute; repeat constructor|].
      eexists hello, _, _. split; [reflexivity|]. split; [|reflexivity].
      intros path (before & after & Heq & _). vm_compute in Heq.
      destruct before as [|? [|? ?]]; discriminate Heq.
Defined.

(** C6, as stated, fails on the revision of the writer with formatted
    sizes: called on a store that holds nothing it writes the record alone,
    no header, and three uploads into a fresh audit log leave three rows,
    not four. *)
Lemma SaveUploadInfoToCSV_formatted_no_header :
  ledger world_fresh "test_upload_logs.csv" = []
  /\ ledger (snd (csv_writer_formatted.SaveUploadInfoToCSV info_cat
                    "test_upload_logs.csv" world_fresh)) "test_upload_logs.csv"
     = [ [ "test_file.jpg"; "/test/path"; "https://pixeldrain.com/u/test";
           "2024-06-01T12:00:00Z"; "1.5 KB"; "image/jpeg"; "test_user"; "200" ] ]
  /\ ledger world_test_directory CSVFilePath = []
  /\ length (sent (snd (UploadDirectory FormattedWriter 0 "../testdata/test_directory"
                          key ["http://mock"] world_test_directory))) = 3%nat
  /\ length (ledger (snd (UploadDirectory FormattedWriter 0
                            "../testdata/test_directory" key ["http://mock"]
                            world_test_directory)) CSVFilePath) = 3%nat
  /\ audit_header
     ∉ ledger (snd (UploadDirectory FormattedWriter 0 "../testdata/test_directory" key
                      ["http://mock"] world_test_directory)) CSVFilePath.
Proof.
  repeat split; try (vm_compute; reflexivity).
  intros Hin. vm_compute in Hin.
  repeat (apply elem_of_cons in Hin as [Hin | Hin]; [discriminate Hin|]).
  by apply elem_of_nil in Hin.
Qed.

(* ===================================================================== *)
(** * Further properties                                                  *)
(* ===================================================================== *)

(** ** Nothing is rewritten *)

Create HintDb orderly.

Lemma orderly_weaken {A} hdr (New New' : Sent -> Prop) (m : M A) :
  orderly hdr New m -> (forall s, New s -> New' s) -> orderly hdr New' m.
Proof.
  intros Hm Himp w Hw. destruct (Hm w Hw) as (H1 & H2 & new & H3 & H4).
  split; [done|]. split; [done|]. exists new. split; [done|].
  eapply Forall_impl; eauto.
Qed.

Lemma orderly_bind {A B} hdr New (m : M A) (k : A -> M B) :
  orderly hdr New m -> (forall a, orderly hdr New (k a)) ->
  orderly hdr New (m ≫= k).
Proof.
  intros Hm Hk w Hw. destruct (Hm w Hw) as (H1 & H2 & new & H3 & H4). run.
  destruct (m w) as [[a | err] w1]; simpl in *.
  - destruct (Hk a w1 H1) as (K1 & K2 & new' & K3 & K4).
    split; [done|]. split.
    + intros loc. etrans; [apply H2 | apply K2].
    + exists (new ++ new'). rewrite K3, H3, app_assoc. split; [done|].
      by apply Forall_app.
  - split; [done|]. split; [done|]. by exists new.
Qed.

(** A statement that makes no call and leaves stores and header alone. *)
Lemma orderly_quiet {A} hdr New (m : M A) :
  (forall w, csvs (snd (m w)) = csvs w /\ sent (snd (m w)) = sent w
             /\ header_auth (snd (m w)) = header_auth w) ->
  orderly hdr New m.
Proof.
  intros H w Hw. destruct (H w) as (H1 & H2 & H3).
  split; [by rewrite H3|]. split.
  - intros loc. unfold ledger. by rewrite H1.
  - exists []. by rewrite app_nil_r.
Qed.

Ltac quiet f :=
  apply orderly_quiet; intros w; unfold f; simpl;
  repeat match goal with
         | |- context [match ?x with _ => _ end] => destruct x; simpl
         end; done.

Lemma orderly_ret {A} hdr New (a : A) : orderly hdr New (mret a : M A).
Proof. by apply orderly_quiet. Qed.

Lemma orderly_fail {A} hdr New err : orderly hdr New (fail err : M A).
Proof. by apply orderly_quiet. Qed.

Lemma orderly_lift {A} hdr New (x : res A) : orderly hdr New (lift x).
Proof. by apply orderly_quiet. Qed.

Lemma orderly_read_file hdr New p : orderly hdr New (read_file p).
Proof. quiet read_file. Qed.

Lemma orderly_os_Stat hdr New p : orderly hdr New (os_Stat p).
Proof. quiet os_Stat. Qed.

Lemma orderly_GetFileSize hdr New p : orderly hdr New (GetFileSize p).
Proof. quiet GetFileSize. Qed.

Lemma orderly_GetMimeType hdr New p : orderly hdr New (GetMimeType p).
Proof. quiet GetMimeType. Qed.

Lemma orderly_size_is_zero hdr New p : orderly hdr New (size_is_zero p).
Proof. quiet size_is_zero. Qed.

Lemma orderly_time_Now hdr New : orderly hdr New time_Now.
Proof. by apply orderly_quiet. Qed.

Lemma orderly_DetectContentType hdr New data : orderly hdr New (DetectContentType data).
Proof. by apply orderly_quiet. Qed.

Lemma orderly_rows hdr New h :
  orderly hdr New (fun w : World => (Ok (default [] (csvs w !! h)), w)).
Proof. by apply orderly_quiet. Qed.

Lemma orderly_GetFilesInDirectory hdr New dir : orderly hdr New (GetFilesInDirectory dir).
Proof. quiet GetFilesInDirectory. Qed.

Lemma orderly_GetHashFilePath hdr New : orderly hdr New GetHashFilePath.
Proof. quiet GetHashFilePath. Qed.

Lemma orderly_initialized {A} hdr New (m : M A) h :
  (forall w, snd (m w) = initialized h w) -> orderly hdr New m.
Proof.
  intros H w Hw. rewrite H. split; [|split].
  - unfold initialized. by destruct (csvs w !! h).
  - intros loc. by rewrite ledger_initialized_any.
  - exists []. rewrite app_nil_r. split; [|done].
    unfold initialized. by destruct (csvs w !! h).
Qed.

Lemma orderly_InitializeHashFile hdr New h : orderly hdr New (InitializeHashFile h).
Proof. apply (orderly_initialized _ _ _ h). intros w. by rewrite InitializeHashFile_run. Qed.

Lemma orderly_OpenFile_append hdr New p : orderly hdr New (OpenFile_append p).
Proof. apply (orderly_initialized _ _ _ p). intros w. by rewrite OpenFile_append_run. Qed.

Lemma orderly_append_record hdr New p rec : orderly hdr New (append_record p rec).
Proof.
  intros w Hw. rewrite append_record_run. simpl. split; [done|]. split.
  - intros loc. destruct (decide (loc = p)) as [-> | Hne].
    + rewrite ledger_appended. by apply prefix_app_r.
    + unfold ledger. by rewrite csvs_appended_other.
  - exists []. by rewrite app_nil_r.
Qed.

Lemma orderly_addBasicAuthHeader hdr New k : orderly hdr New (addBasicAuthHeader k).
Proof.
  intros w Hw. simpl. split; [by eauto|]. split; [done|].
  exists []. by rewrite app_nil_r.
Qed.

(** The one statement that makes a call. *)
Lemma orderly_Post hdr (New : Sent -> Prop) u f b a :
  (forall auth, (hdr = true -> is_Some auth) ->
     New {| sURL := u; sFileName := f; sBody := b; sAnonymous := a;
            sAuthorization := auth |}) ->
  orderly hdr New (Post u f b a).
Proof.
  intros HNew w Hw. simpl. split; [done|]. split; [done|].
  eexists. split; [reflexivity|]. constructor; [|constructor]. by apply HNew.
Qed.

#[global] Hint Resolve orderly_ret orderly_fail orderly_lift orderly_read_file
  orderly_os_Stat orderly_GetFileSize orderly_GetMimeType orderly_size_is_zero
  orderly_time_Now orderly_DetectContentType orderly_rows
  orderly_GetFilesInDirectory orderly_GetHashFilePath
  orderly_InitializeHashFile orderly_OpenFile_append orderly_append_record
  orderly_addBasicAuthHeader : orderly.

Ltac orderly_statements :=
  repeat first
    [ solve [auto with orderly]
    | apply orderly_bind; [|intros ?]
    | match goal with
      | |- orderly _ _ (match ?x with _ => _ end) => destruct x
      | |- orderly _ _ (if ?x then _ else _) => destruct x
      end ].

Lemma orderly_CalculateFileHash hdr New p : orderly hdr New (CalculateFileHash p).
Proof. unfold CalculateFileHash. orderly_statements. Qed.

Lemma orderly_LoadFileHashes hdr New h : orderly hdr New (LoadFileHashes h).
Proof. unfold LoadFileHashes. orderly_statements. Qed.

#[global] Hint Resolve orderly_CalculateFileHash orderly_LoadFileHashes : orderly.

Lemma orderly_IsDuplicate hdr New h p : orderly hdr New (IsDuplicate h p).
Proof. unfold IsDuplicate. orderly_statements. Qed.

#[global] Hint Resolve orderly_IsDuplicate : orderly.

Lemma orderly_SaveFileHash hdr New h p hash : orderly hdr New (SaveFileHash h p hash).
Proof. unfold SaveFileHash. orderly_statements. Qed.

Lemma orderly_SaveUploadInfoToCSV hdr New aw info p :
  orderly hdr New (SaveUploadInfoToCSV aw info p).
Proof.
  destruct aw; simpl;
    [unfold csv_writer.SaveUploadInfoToCSV
    | unfold csv_writer_formatted.SaveUploadInfoToCSV];
    orderly_statements.
Qed.

#[global] Hint Resolve orderly_SaveFileHash orderly_SaveUploadInfoToCSV : orderly.

Lemma orderly_uploadFile hdr (New : Sent -> Prop) aw r h :
  (forall f b auth, (hdr = true -> is_Some auth) ->
     New {| sURL := url_of r; sFileName := f; sBody := b;
            sAnonymous := Anonymous r; sAuthorization := auth |}) ->
  orderly hdr New (uploadFile aw r h).
Proof.
  intros HNew. unfold uploadFile. fold (url_of r).
  apply orderly_bind; [orderly_statements|]. intros [[[[fileName body] filePath] fileSize] mimeType].
  apply orderly_bind; [orderly_statements|]. intros _.
  apply orderly_bind; [apply orderly_Post; intros auth Hauth; by apply HNew|].
  intros reply. orderly_statements.
Qed.

Lemma orderly_UploadPOST_0 hdr (New : Sent -> Prop) aw r h :
  (forall f b auth, (hdr = true -> is_Some auth) ->
     New {| sURL := url_of r; sFileName := f; sBody := b;
            sAnonymous := Anonymous r; sAuthorization := auth |}) ->
  orderly hdr New (UploadPOST aw 0 r h).
Proof.
  intros HNew. simpl.
  destruct (String.eqb (PathToFile r) "" && negb (bool_decide (is_Some (File r))));
    [auto with orderly|].
  apply orderly_bind; [orderly_statements|]. intros [|]; [auto with orderly|].
  apply orderly_bind; [orderly_statements|]. intros [|]; [auto with orderly|].
  apply orderly_bind; [by apply orderly_uploadFile | auto with orderly].
Qed.

Lemma orderly_upload_each hdr New post auth apiURL h files :
  (forall r, orderly hdr New (post r h)) ->
  orderly hdr New (upload_each post auth apiURL h files).
Proof.
  intros Hpost. induction files as [|f files IH]; simpl; orderly_statements.
Qed.

Lemma orderly_UploadDirectory_with hdr New post dir auth baseURL :
  (forall r h, orderly hdr New (post r h)) ->
  orderly hdr New (UploadDirectory_with post dir auth baseURL).
Proof.
  intros Hpost. unfold UploadDirectory_with.
  apply orderly_bind; [auto with orderly|]. intros files.
  apply orderly_bind; [auto with orderly|]. intros h.
  by apply orderly_upload_each.
Qed.

Lemma orderly_UploadPOST hdr (New : Sent -> Prop) aw depth :
  (forall s, (hdr = true -> is_Some (sAuthorization s)) -> New s) ->
  forall r h, orderly hdr New (UploadPOST aw depth r h).
Proof.
  intros HNew. induction depth as [|depth IH]; intros r h.
  - apply orderly_UploadPOST_0. intros f b auth Hauth. by apply HNew.
  - simpl.
    destruct (String.eqb (PathToFile r) "" && negb (bool_decide (is_Some (File r))));
      [auto with orderly|].
    apply orderly_bind; [orderly_statements|]. intros [|].
    + apply orderly_bind; [|auto with orderly].
      by apply orderly_UploadDirectory_with.
    + apply orderly_bind; [orderly_statements|]. intros [|]; [auto with orderly|].
      apply orderly_bind; [|auto with orderly].
      apply orderly_uploadFile. intros f b auth Hauth. by apply HNew.
Qed.

(** X1: the stores and the service only ever see additions.  Whatever
    UploadPOST or UploadDirectory do, succeed or fail, every store keeps
    the records it had, in their order, in front of anything new, and the
    calls made to the service before are followed by the new ones. *)
Theorem uploads_only_append aw depth r h dir auth baseURL w :
  ((forall loc,
      ledger w loc `prefix_of` ledger (snd (UploadPOST aw depth r h w)) loc)
   /\ sent w `prefix_of` sent (snd (UploadPOST aw depth r h w)))
  /\ ((forall loc,
         ledger w loc
         `prefix_of` ledger (snd (UploadDirectory aw depth dir auth baseURL w)) loc)
      /\ sent w `prefix_of` sent (snd (UploadDirectory aw depth dir auth baseURL w))).
Proof.
  assert (HP : forall r h, orderly false any (UploadPOST aw depth r h))
    by (apply orderly_UploadPOST; done).
  split.
  - destruct (HP r h w) as (_ & H1 & new & H2 & _); [done|].
    split; [done|]. by exists new.
  - destruct (orderly_UploadDirectory_with false any (UploadPOST aw depth) dir auth
                baseURL HP w) as (_ & H1 & new & H2 & _); [done|].
    split; [done|]. by exists new.
Qed.

(** X2: the Authorization entry of the client's header map is never taken
    out again.  Once it is there -- an earlier upload with a key that was
    not anonymous put it there -- it stays, and every request that
    UploadPOST or UploadDirectory send afterwards carries an Authorization
    header, also the requests marked anonymous and those without a key. *)
Theorem authorization_header_stays aw depth r h dir auth baseURL w :
  is_Some (header_auth w) ->
  (is_Some (header_auth (snd (UploadPOST aw depth r h w)))
   /\ exists new,
        sent (snd (UploadPOST aw depth r h w)) = sent w ++ new
        /\ Forall (fun s => is_Some (sAuthorization s)) new)
  /\ (is_Some (header_auth (snd (UploadDirectory aw depth dir auth baseURL w)))
      /\ exists new,
           sent (snd (UploadDirectory aw depth dir auth baseURL w)) = sent w ++ new
           /\ Forall (fun s => is_Some (sAuthorization s)) new).
Proof.
  intros Hhdr.
  assert (HP : forall r h,
    orderly true (fun s => is_Some (sAuthorization s)) (UploadPOST aw depth r h))
    by (apply orderly_UploadPOST; auto).
  split.
  - destruct (HP r h w) as (H0 & _ & H2); [done|]. auto.
  - destruct (orderly_UploadDirectory_with true _ (UploadPOST aw depth) dir auth
                baseURL HP w) as (H0 & _ & H2); [done|]. auto.
Qed.

Lemma authorization_header_stays_witness :
  (is_Some (header_auth (snd (UploadPOST HeaderWriter 0 (upload_of "b.txt")
                                "test_hashes.csv" world_after_keyed)))
   /\ exists new,
        sent (snd (UploadPOST HeaderWriter 0 (upload_of "b.txt") "test_hashes.csv"
                     world_after_keyed))
        = sent world_after_keyed ++ new
        /\ Forall (fun s => is_Some (sAuthorization s)) new)
  /\ (is_Some (header_auth (snd (UploadDirectory HeaderWriter 0 "b.txt"
                                   {| APIKey := "" |} [] world_after_keyed)))
      /\ exists new,
           sent (snd (UploadDirectory HeaderWriter 0 "b.txt" {| APIKey := "" |} []
                        world_after_keyed))
           = sent world_after_keyed ++ new
           /\ Forall (fun s => is_Some (sAuthorization s)) new).
Proof.
  apply (authorization_header_stays HeaderWriter 0 (upload_of "b.txt")
           "test_hashes.csv" "b.txt" {| APIKey := "" |} [] world_after_keyed).
  vm_compute. eexists. reflexivity.
Defined.

(** The anonymous upload of b.txt, after the keyed upload of a.txt, is sent
    with the key of the earlier request. *)
Example anonymous_upload_carries_key :
  map (fun s => (sFileName s, sAnonymous s, sAuthorization s))
    (sent (snd (UploadPOST HeaderWriter 0 (upload_of "b.txt") "test_hashes.csv"
                  world_after_keyed)))
  = [ ("a.txt", false, Some "test-api-key"); ("b.txt", true, Some "test-api-key") ].
Proof. vm_compute. reflexivity. Qed.

(** ** The ledger, written and read back *)

Lemma LoadFileHashes_eq w h :
  two_columns (ledger w h) ->
  LoadFileHashes h w = (load_records (ledger w h) ∅, initialized h w).
Proof.
  intros Hwf. unfold LoadFileHashes. run. rewrite InitializeHashFile_run.
  fold (ledger (initialized h w) h). rewrite ledger_initialized.
  rewrite (ReadAll_two_columns _ Hwf). by destruct (load_records (ledger w h) ∅).
Qed.

Lemma two_columns_snoc rows p hash :
  two_columns rows -> two_columns (rows ++ [[p; hash]]).
Proof.
  intros H. unfold two_columns. rewrite Forall_app, Forall_singleton. by split.
Qed.

Lemma initialized_appended h rec w : initialized h (appended h rec w) = appended h rec w.
Proof.
  unfold initialized. unfold appended at 1. simpl. by rewrite lookup_insert_eq.
Qed.

(** X3: what SaveFileHash writes, LoadFileHashes reads back.  On a ledger
    of two-column records and a readable file: when the file's content is
    no duplicate, the map loaded after the save is the map loaded before
    with the path set to the hash that was passed; when it is a duplicate,
    the map is the one loaded before. *)
Theorem SaveFileHash_then_LoadFileHashes w h p hash content :
  lookup_path w p = Some (FileNode content) ->
  two_columns (ledger w h) ->
  exists b hashes,
    fst (IsDuplicate h p w) = Ok b
    /\ fst (LoadFileHashes h w) = Ok hashes
    /\ fst (LoadFileHashes h (snd (SaveFileHash h p hash w)))
       = Ok (if b then hashes else <[p := hash]> hashes)
    /\ (b = false ->
        forall hashes',
          fst (LoadFileHashes h (snd (SaveFileHash h p hash w))) = Ok hashes' ->
          hashes' !! p = Some hash).
Proof.
  intros Hp Hwf.
  destruct (SaveFileHash_run w h p hash content Hp Hwf) as (b & Hdup & _ & Hsave).
  destruct (load_records_latest _ Hwf) as (hashes & Hload & _).
  exists b, hashes. rewrite Hdup, Hsave, (LoadFileHashes_eq w h Hwf), Hload. simpl.
  split; [done|]. split; [done|].
  assert (Hafter : fst (LoadFileHashes h (if b then initialized h w
                                          else appended h [p; hash] w))
                   = Ok (if b then hashes else <[p := hash]> hashes)).
  { destruct b.
    - rewrite LoadFileHashes_eq by by rewrite ledger_initialized.
      by rewrite ledger_initialized.
    - rewrite LoadFileHashes_eq by (rewrite ledger_appended; by apply two_columns_snoc).
      simpl. by rewrite ledger_appended, load_records_app, Hload. }
  split; [done|].
  intros -> hashes' H. rewrite Hafter in H. injection H as <-.
  apply lookup_insert_eq.
Qed.

(** The test of the ledger: save the hash of cat.jpg, load, look it up. *)
Lemma SaveFileHash_then_LoadFileHashes_witness :
  exists b hashes,
    fst (IsDuplicate "test_hashes.csv" "a.txt" world_fresh) = Ok b
    /\ fst (LoadFileHashes "test_hashes.csv" world_fresh) = Ok hashes
    /\ fst (LoadFileHashes "test_hashes.csv"
              (snd (SaveFileHash "test_hashes.csv" "a.txt" digest_abc world_fresh)))
       = Ok (if b then hashes else <["a.txt" := digest_abc]> hashes)
    /\ (b = false ->
        forall hashes',
          fst (LoadFileHashes "test_hashes.csv"
                 (snd (SaveFileHash "test_hashes.csv" "a.txt" digest_abc world_fresh)))
          = Ok hashes' ->
          hashes' !! "a.txt" = Some digest_abc).
Proof.
  apply (SaveFileHash_then_LoadFileHashes world_fresh "test_hashes.csv" "a.txt"
           digest_abc abc).
  - reflexivity.
  - vm_compute. constructor.
Defined.

(** X4: after SaveFileHash has been given the digest of the file, the
    duplicate check answers yes for every path that holds the same bytes,
    and a second SaveFileHash with the same arguments changes nothing. *)
Theorem SaveFileHash_then_IsDuplicate w h p q content :
  lookup_path w p = Some (FileNode content) ->
  lookup_path w q = Some (FileNode content) ->
  two_columns (ledger w h) ->
  fst (IsDuplicate h q (snd (SaveFileHash h p (sha256_hex content) w))) = Ok true
  /\ SaveFileHash h p (sha256_hex content) (snd (SaveFileHash h p (sha256_hex content) w))
     = (Ok tt, snd (SaveFileHash h p (sha256_hex content) w)).
Proof.
  intros Hp Hq Hwf.
  destruct (SaveFileHash_run w h p (sha256_hex content) content Hp Hwf)
    as (b & Hdup & Hb & Hsave).
  rewrite Hsave. simpl.
  set (w1 := if b then initialized h w else appended h [p; sha256_hex content] w).
  assert (Hroots : forall x, lookup_path w1 x = lookup_path w x).
  { intros x. unfold w1. destruct b; [apply lookup_path_initialized | done]. }
  assert (Hwf1 : two_columns (ledger w1 h)).
  { unfold w1. destruct b; [by rewrite ledger_initialized|].
    rewrite ledger_appended. by apply two_columns_snoc. }
  assert (Hlatest : exists path, latest (ledger w1 h) path (sha256_hex content)).
  { unfold w1. destruct b.
    - rewrite ledger_initialized. by apply Hb.
    - exists p. rewrite ledger_appended. by apply latest_snoc_same. }
  assert (Hinit : initialized h w1 = w1).
  { unfold w1. destruct b; [apply initialized_idem | apply initialized_appended]. }
  split.
  - destruct (IsDuplicate_run w1 h q content) as (b' & Hrun & Hb');
      [by rewrite Hroots | done |].
    rewrite Hrun. simpl. f_equal. by apply Hb'.
  - destruct (SaveFileHash_run w1 h p (sha256_hex content) content)
      as (b' & _ & Hb' & Hsave'); [by rewrite Hroots | done |].
    rewrite Hsave'. assert (b' = true) as -> by by apply Hb'.
    by rewrite Hinit.
Qed.

Lemma SaveFileHash_then_IsDuplicate_witness :
  fst (IsDuplicate "test_hashes.csv" "copy.txt"
         (snd (SaveFileHash "test_hashes.csv" "a.txt" (sha256_hex abc) world_copies)))
  = Ok true
  /\ SaveFileHash "test_hashes.csv" "a.txt" (sha256_hex abc)
       (snd (SaveFileHash "test_hashes.csv" "a.txt" (sha256_hex abc) world_copies))
     = (Ok tt, snd (SaveFileHash "test_hashes.csv" "a.txt" (sha256_hex abc)
                      world_copies)).
Proof.
  apply (SaveFileHash_then_IsDuplicate world_copies "test_hashes.csv" "a.txt"
           "copy.txt" abc).
  - reflexivity.
  - reflexivity.
  - vm_compute. constructor.
Defined.

(** ** Failing before the call *)

Lemma LoadFileHashes_world h w : snd (LoadFileHashes h w) = initialized h w.
Proof.
  unfold LoadFileHashes. run. rewrite InitializeHashFile_run.
  destruct (ReadAll _); [|done]. by destruct (load_records _ _).
Qed.

(** X5: a ledger that cannot be loaded stops the upload before anything is
    sent.  For a request that names a readable file: when LoadFileHashes
    fails on the ledger -- records of unequal length (csv.ErrFieldCount),
    or a record with fewer than two fields (the panic on record[1], an
    error of the model) -- UploadPOST ends with that failure, makes no call
    to the service and leaves the records of every store as they are. *)
Theorem UploadPOST_unreadable_ledger aw depth r h w content e :
  PathToFile r <> "" ->
  lookup_path w (PathToFile r) = Some (FileNode content) ->
  fst (LoadFileHashes h w) = Err e ->
  fst (UploadPOST aw depth r h w) = Err e
  /\ sent (snd (UploadPOST aw depth r h w)) = sent w
  /\ forall loc, ledger (snd (UploadPOST aw depth r h w)) loc = ledger w loc.
Proof.
  intros Hne Hp Hload.
  rewrite (UploadPOST_file aw depth r h w content Hne Hp). unfold post_file, IsDuplicate.
  pose proof (LoadFileHashes_world h w) as Hw.
  run. rewrite (CalculateFileHash_run _ _ _ Hp).
  destruct (LoadFileHashes h w) as [x w1]. simpl in *. subst x w1. simpl.
  split; [done|]. split.
  - unfold initialized. by destruct (csvs w !! h).
  - intros loc. apply ledger_initialized_any.
Qed.

Lemma UploadPOST_unreadable_ledger_witness :
  fst (UploadPOST HeaderWriter 0 (upload_of "a.txt") "test_hashes.csv" world_ragged)
  = Err ErrFieldCount
  /\ sent (snd (UploadPOST HeaderWriter 0 (upload_of "a.txt") "test_hashes.csv"
                  world_ragged)) = sent world_ragged
  /\ forall loc,
       ledger (snd (UploadPOST HeaderWriter 0 (upload_of "a.txt") "test_hashes.csv"
                      world_ragged)) loc
       = ledger world_ragged loc.
Proof.
  apply (UploadPOST_unreadable_ledger HeaderWriter 0 (upload_of "a.txt")
           "test_hashes.csv" world_ragged abc ErrFieldCount).
  - discriminate.
  - reflexivity.
  - vm_compute. reflexivity.
Defined.

(** X6: a request that cannot be served is refused without a trace.  With
    neither path nor reader, with a path at which nothing exists, or with a
    reader but no file name, UploadPOST returns the matching error and the
    world is exactly as before: nothing sent, no store created. *)
Theorem UploadPOST_refuses_without_effect aw depth r h w :
  (PathToFile r = "" /\ File r = None)
  \/ (PathToFile r <> "" /\ lookup_path w (PathToFile r) = None)
  \/ (PathToFile r = "" /\ is_Some (File r) /\ FileName r = "") ->
  UploadPOST aw depth r h w
  = (Err (if String.eqb (PathToFile r) ""
          then match File r with
               | None => ErrMissingPathToFile
               | Some _ => ErrMissingFilename
               end
          else ErrNotExist (PathToFile r)), w).
Proof.
  intros [[Hp Hf] | [[Hp Hnone] | (Hp & [stream Hf] & Hname)]].
  - destruct depth; simpl; by rewrite Hp, Hf.
  - destruct depth; simpl; rewrite (eqb_empty_false _ Hp); simpl;
      run; unfold os_Stat; by rewrite Hnone.
  - destruct depth; simpl; rewrite Hp, Hf; simpl;
      run; unfold uploadFile; run; by rewrite Hf, Hname.
Qed.

Lemma UploadPOST_refuses_without_effect_witness :
  UploadPOST HeaderWriter 0 (upload_of "missing.txt") "test_hashes.csv" world_fresh
  = (Err (if String.eqb (PathToFile (upload_of "missing.txt")) ""
          then match File (upload_of "missing.txt") with
               | None => ErrMissingPathToFile
               | Some _ => ErrMissingFilename
               end
          else ErrNotExist (PathToFile (upload_of "missing.txt"))), world_fresh).
Proof.
  apply (UploadPOST_refuses_without_effect HeaderWriter 0 (upload_of "missing.txt")
           "test_hashes.csv" world_fresh).
  right. left. split; [discriminate | reflexivity].
Defined.

(** ** Uploading again *)

Lemma UploadPOST_skip_run aw depth w r h content path :
  PathToFile r <> "" ->
  lookup_path w (PathToFile r) = Some (FileNode content) ->
  two_columns (ledger w h) ->
  latest (ledger w h) path (sha256_hex content) ->
  UploadPOST aw depth r h w = (Ok (Some duplicate_response), w).
Proof.
  intros Hne Hp Hwf Hlatest.
  rewrite (UploadPOST_file aw depth r h w content Hne Hp). unfold post_file.
  destruct (IsDuplicate_run w h _ content Hp Hwf) as (b & Hrun & Hb).
  assert (b = true) as -> by (apply Hb; eauto).
  destruct (ledger_nonempty_exists w h (latest_nonempty _ _ _ Hlatest)) as [rows Hrows].
  rewrite (initialized_exists _ _ _ Hrows) in Hrun.
  by rewrite (bind_ok _ _ _ _ _ Hrun).
Qed.

Lemma UploadPOST_recorded_run aw depth w r h content status json :
  PathToFile r <> "" ->
  PathToFile r <> "N/A" ->
  lookup_path w (PathToFile r) = Some (FileNode content) ->
  (is_Some (File r) -> FileName r <> "") ->
  h <> CSVFilePath ->
  two_columns (ledger w h) ->
  (forall path, ~ latest (ledger w h) path (sha256_hex content)) ->
  remote w (sent w) (outgoing w r content) = Response status (Some json) ->
  exists w',
    UploadPOST aw depth r h w
    = (Ok (Some {| ID := jID json; Success := jSuccess json; StatusCode := status;
                   Message := jMessage json |}), w')
    /\ sent w' = sent w ++ [outgoing w r content]
    /\ ledger w' h = ledger w h ++ [[PathToFile r; sha256_hex content]]
    /\ roots w' = roots w.
Proof.
  intros Hne HNA Hp Hname Hh Hwf Hnew Hreply.
  destruct (touches_UploadPOST aw depth (env_mode w) r h w eq_refl) as ([_ Hroots] & _).
  revert Hroots.
  rewrite (UploadPOST_file aw depth r h w content Hne Hp). unfold post_file.
  destruct (IsDuplicate_run w h _ content Hp Hwf) as (b & Hrun & Hb).
  assert (b = false) as ->.
  { destruct b; [|done]. destruct Hb as [Hb _]. destruct (Hb eq_refl) as [path Hl].
    by destruct (Hnew path). }
  rewrite (bind_ok _ _ _ _ _ Hrun).
  set (wi := initialized h w).
  assert (Hsame : sent wi = sent w /\ remote wi = remote w
                  /\ outgoing wi r content = outgoing w r content).
  { unfold wi, initialized. by destruct (csvs w !! h). }
  destruct Hsame as (Hsent & Hremote & Hout).
  destruct (uploadFile_recorded aw wi r h content status json)
    as (info & w' & Hup & H1 & H2 & _); try done.
  - unfold wi. by rewrite lookup_path_initialized.
  - unfold wi. by rewrite ledger_initialized.
  - unfold wi. by rewrite ledger_initialized.
  - by rewrite Hsent, Hremote, Hout.
  - rewrite (bind_ok _ _ _ _ _ Hup). simpl. intros Hroots.
    exists w'. split; [done|]. split; [by rewrite H1, Hsent, Hout|].
    split; [|done]. rewrite H2. unfold wi. by rewrite ledger_initialized.
Qed.

(** X7: the second upload of the same bytes is skipped.  After UploadPOST
    has sent and recorded a file (its digest not yet the latest of any
    path, the service answering with any status and a JSON body), a
    following UploadPOST with the same ledger for any path that holds the
    same bytes -- the same path or another -- returns the skipped outcome
    and leaves the world exactly as the first upload left it. *)
Theorem upload_again_is_skipped aw depth depth' w r r' h content status json :
  PathToFile r <> "" ->
  PathToFile r <> "N/A" ->
  lookup_path w (PathToFile r) = Some (FileNode content) ->
  (is_Some (File r) -> FileName r <> "") ->
  h <> CSVFilePath ->
  two_columns (ledger w h) ->
  (forall path, ~ latest (ledger w h) path (sha256_hex content)) ->
  remote w (sent w) (outgoing w r content) = Response status (Some json) ->
  PathToFile r' <> "" ->
  lookup_path w (PathToFile r') = Some (FileNode content) ->
  UploadPOST aw depth' r' h (snd (UploadPOST aw depth r h w))
  = (Ok (Some duplicate_response), snd (UploadPOST aw depth r h w)).
Proof.
  intros Hne HNA Hp Hname Hh Hwf Hnew Hreply Hne' Hp'.
  destruct (UploadPOST_recorded_run aw depth w r h content status json)
    as (w1 & Hrun & _ & Hledger & Hroots); try done.
  rewrite Hrun. simpl.
  apply (UploadPOST_skip_run aw depth' w1 r' h content (PathToFile r)); [done | | |].
  - unfold lookup_path. rewrite Hroots. apply Hp'.
  - rewrite Hledger. by apply two_columns_snoc.
  - rewrite Hledger. by apply latest_snoc_same.
Qed.

Lemma upload_again_is_skipped_witness :
  UploadPOST HeaderWriter 0 (upload_of "copy.txt") "test_hashes.csv"
    (snd (UploadPOST HeaderWriter 0 (upload_of "a.txt") "test_hashes.csv" world_copies))
  = (Ok (Some duplicate_response),
     snd (UploadPOST HeaderWriter 0 (upload_of "a.txt") "test_hashes.csv" world_copies)).
Proof.
  apply (upload_again_is_skipped HeaderWriter 0 0 world_copies (upload_of "a.txt")
           (upload_of "copy.txt") "test_hashes.csv" abc 201%Z
           {| jID := "mock-file-id"; jSuccess := true; jMessage := "" |}).
  - discriminate.
  - discriminate.
  - reflexivity.
  - intros [x Hx]. discriminate Hx.
  - discriminate.
  - vm_compute. constructor.
  - intros path (before & after & Heq & _). vm_compute in Heq. by destruct before.
  - reflexivity.
  - discriminate.
  - reflexivity.
Defined.

(** X8: a batch over files that are all recorded sends nothing.  When the
    digest of every listed file (none of them with the empty path) is the
    latest digest of some path in the ledger that ENV_MODE selects, UploadDirectory returns without error and
    leaves the world exactly as it was; so does the batch over a directory
    without files. *)
Theorem UploadDirectory_all_recorded aw depth dir auth baseURL w files :
  fst (GetFilesInDirectory dir w) = Ok files ->
  two_columns (ledger w (selected_ledger (env_mode w))) ->
  (forall f, f ∈ files ->
     f <> ""
     /\ exists content path,
          lookup_path w f = Some (FileNode content)
          /\ latest (ledger w (selected_ledger (env_mode w))) path (sha256_hex content)) ->
  UploadDirectory aw depth dir auth baseURL w = (Ok tt, w).
Proof.
  intros Hfiles Hwf Hall.
  rewrite (UploadDirectory_run _ _ _ _ _ _ _ Hfiles).
  clear Hfiles. induction files as [|f files IH]; [done|].
  cbn [upload_each].
  destruct (Hall f) as (Hne & content & path & Hp & Hlatest); [left|].
  rewrite (bind_ok _ _ w (Some duplicate_response) w).
  - apply IH. intros f' Hf'. apply Hall. by right.
  - by apply (UploadPOST_skip_run aw depth w _ _ content path).
Qed.

Lemma UploadDirectory_all_recorded_witness :
  UploadDirectory HeaderWriter 0 "dir" key ["http://mock"] world_all_recorded
  = (Ok tt, world_all_recorded).
Proof.
  apply (UploadDirectory_all_recorded HeaderWriter 0 "dir" key ["http://mock"]
           world_all_recorded ["dir/A"; "dir/B"]).
  - reflexivity.
  - vm_compute. repeat constructor.
  - intros f Hf. apply elem_of_cons in Hf as [-> | Hf].
    + split; [discriminate|]. exists abc, "old/A". split; [reflexivity|].
      exists [], [["old/B"; digest_hello]]. split; [vm_compute; reflexivity|].
      intros d H. apply list_elem_of_singleton in H. discriminate H.
    + apply list_elem_of_singleton in Hf as ->.
      split; [discriminate|]. exists hello, "old/B". split; [reflexivity|].
      exists [["old/A"; digest_abc]], []. split; [vm_compute; reflexivity|].
      intros d H. inversion H.
Defined.

(** ** The calls of a batch *)

Lemma calls_weaken {A} n n' (m : M A) :
  calls_at_most n m -> (n <= n')%nat -> calls_at_most n' m.
Proof.
  intros Hm Hle w. destruct (Hm w) as (new & H1 & H2). exists new. split; [done | lia].
Qed.

Lemma calls_bind {A B} n1 n2 (m : M A) (k : A -> M B) :
  calls_at_most n1 m -> (forall a, calls_at_most n2 (k a)) ->
  calls_at_most (n1 + n2) (m ≫= k).
Proof.
  intros Hm Hk w. destruct (Hm w) as (new & H1 & H2). run.
  destruct (m w) as [[a | err] w1]; simpl in *.
  - destruct (Hk a w1) as (new' & K1 & K2).
    exists (new ++ new'). rewrite K1, H1, app_assoc, length_app. split; [done | lia].
  - exists new. split; [done | lia].
Qed.

(** A statement none of whose calls is acceptable makes none. *)
Lemma calls_none {A} (m : M A) :
  orderly false (fun _ => False) m -> calls_at_most 0 m.
Proof.
  intros Hm w. destruct (Hm w) as (_ & _ & new & H1 & H2); [done|].
  exists new. split; [done|]. destruct new as [|s new]; [done|].
  by apply Forall_cons in H2 as [[] _].
Qed.

Lemma calls_Post u f b a : calls_at_most 1 (Post u f b a).
Proof. intros w. simpl. eexists. split; [reflexivity | done]. Qed.

Ltac no_calls := apply calls_none; orderly_statements.

Lemma calls_uploadFile aw r h : calls_at_most 1 (uploadFile aw r h).
Proof.
  unfold uploadFile.
  apply (calls_bind 0 1); [no_calls|]. intros [[[[fileName body] filePath] fileSize] mimeType].
  apply (calls_bind 0 1); [no_calls|]. intros _.
  apply (calls_bind 1 0); [apply calls_Post|]. intros reply. no_calls.
Qed.

Lemma calls_UploadPOST_0 aw r h : calls_at_most 1 (UploadPOST aw 0 r h).
Proof.
  simpl.
  destruct (String.eqb (PathToFile r) "" && negb (bool_decide (is_Some (File r))));
    [apply (calls_weaken 0); [no_calls | lia]|].
  apply (calls_bind 0 1); [no_calls|]. intros [|]; [apply (calls_weaken 0); [no_calls | lia]|].
  apply (calls_bind 0 1); [no_calls|]. intros [|]; [apply (calls_weaken 0); [no_calls | lia]|].
  apply (calls_bind 1 0); [apply calls_uploadFile | intros rsp; no_calls].
Qed.

Lemma calls_upload_each aw auth apiURL h files :
  calls_at_most (length files) (upload_each (UploadPOST aw 0) auth apiURL h files).
Proof.
  induction files as [|f files IH]; cbn [upload_each length].
  - no_calls.
  - apply (calls_bind 1 (length files)); [apply calls_UploadPOST_0 | done].
Qed.

Lemma eqb_file_url apiURL : String.eqb (apiURL +:+ "/file") "" = false.
Proof. by destruct apiURL. Qed.

Lemma orderly_upload_each_batch aw auth apiURL h files :
  orderly false (batch_call apiURL) (upload_each (UploadPOST aw 0) auth apiURL h files).
Proof.
  induction files as [|f files IH]; cbn [upload_each]; [auto with orderly|].
  apply orderly_bind; [|done].
  apply orderly_UploadPOST_0. intros name body authz _. unfold batch_call, url_of. simpl.
  by rewrite eqb_file_url.
Qed.

(** X9: there is no second try.  For a path that is no directory,
    UploadPOST makes at most one call to the service, however it ends. *)
Theorem UploadPOST_calls_at_most_once aw depth r h w :
  is_directory w (PathToFile r) = false ->
  exists new,
    sent (snd (UploadPOST aw depth r h w)) = sent w ++ new
    /\ (length new <= 1)%nat.
Proof.
  intros Hdir. rewrite (UploadPOST_depth aw depth r h w Hdir).
  apply calls_UploadPOST_0.
Qed.

Lemma UploadPOST_calls_at_most_once_witness :
  exists new,
    sent (snd (UploadPOST HeaderWriter 0 (upload_of "a.txt") "test_hashes.csv"
                 world_gateway))
    = sent world_gateway ++ new
    /\ (length new <= 1)%nat.
Proof.
  apply (UploadPOST_calls_at_most_once HeaderWriter 0 (upload_of "a.txt")
           "test_hashes.csv" world_gateway).
  reflexivity.
Defined.

(** X10: what UploadDirectory sends.  When none of the listed files is a
    directory, the batch makes at most one call for each of them, and every
    call goes to the first base URL it was given, followed by "/file" --
    to APIURL + "/file" without a base URL -- and is not anonymous. *)
Theorem UploadDirectory_calls aw depth dir auth baseURL w files :
  fst (GetFilesInDirectory dir w) = Ok files ->
  (forall f, f ∈ files -> is_directory w f = false) ->
  exists new,
    sent (snd (UploadDirectory aw depth dir auth baseURL w)) = sent w ++ new
    /\ (length new <= length files)%nat
    /\ Forall (batch_call (api_url baseURL)) new.
Proof.
  intros Hfiles Hplain.
  rewrite (UploadDirectory_depth aw depth dir auth baseURL w files Hfiles Hplain).
  rewrite (UploadDirectory_run _ _ _ _ _ _ _ Hfiles).
  destruct (calls_upload_each aw auth (api_url baseURL) (selected_ledger (env_mode w))
              files w) as (new & H1 & H2).
  destruct (orderly_upload_each_batch aw auth (api_url baseURL)
              (selected_ledger (env_mode w)) files w) as (_ & _ & new' & K1 & K2);
    [done|].
  exists new. split; [done|]. split; [done|].
  rewrite H1 in K1. by apply app_inv_head in K1 as ->.
Qed.

Lemma UploadDirectory_calls_witness :
  exists new,
    sent (snd (UploadDirectory HeaderWriter 0 "dir" key ["http://mock"] world_batch))
    = sent world_batch ++ new
    /\ (length new <= length ["dir/A"; "dir/B"; "dir/C"])%nat
    /\ Forall (batch_call (api_url ["http://mock"])) new.
Proof.
  apply (UploadDirectory_calls HeaderWriter 0 "dir" key ["http://mock"] world_batch
           ["dir/A"; "dir/B"; "dir/C"]).
  - reflexivity.
  - intros f Hf. repeat (apply elem_of_cons in Hf as [-> | Hf]; [reflexivity|]).
    inversion Hf.
Defined.

Lemma UploadPOST_directory aw depth r h w :
  PathToFile r <> "" ->
  is_directory w (PathToFile r) = true ->
  UploadPOST aw (S depth) r h w
  = (UploadDirectory aw depth (PathToFile r) (ReqAuth r) [h];; mret None) w.
Proof.
  intros Hne Hdir. simpl. rewrite (eqb_empty_false _ Hne). simpl.
  unfold is_directory in Hdir. run. unfold os_Stat.
  destruct (lookup_path w (PathToFile r)) as [[content | entries | |]|]; done.
Qed.

(** X11: a directory handed to UploadPOST.  The ledger location that
    UploadPOST was given is used as the base URL of the batch: every call
    goes to hashFilePath + "/file".  The ledger that is read and written is
    the one ENV_MODE selects: apart from it and the audit log no store
    changes, the store at hashFilePath included.  The response is nil. *)
Theorem UploadPOST_directory_uses_ledger_as_URL aw depth r h w files :
  PathToFile r <> "" ->
  is_directory w (PathToFile r) = true ->
  fst (GetFilesInDirectory (PathToFile r) w) = Ok files ->
  (forall f, f ∈ files -> is_directory w f = false) ->
  (fst (UploadPOST aw (S depth) r h w) = Ok None
   \/ exists e, fst (UploadPOST aw (S depth) r h w) = Err e)
  /\ (exists new,
        sent (snd (UploadPOST aw (S depth) r h w)) = sent w ++ new
        /\ Forall (fun s => sURL s = h +:+ "/file") new)
  /\ forall loc,
       loc <> selected_ledger (env_mode w) -> loc <> CSVFilePath ->
       csvs (snd (UploadPOST aw (S depth) r h w)) !! loc = csvs w !! loc.
Proof.
  intros Hne Hdir Hfiles Hplain.
  rewrite (UploadPOST_directory aw depth r h w Hne Hdir).
  destruct (UploadDirectory_calls aw depth (PathToFile r) (ReqAuth r) [h] w files
              Hfiles Hplain) as (new & H1 & _ & H2).
  assert (Hframe : touches_only (env_mode w)
                     (upload_stores (env_mode w) (selected_ledger (env_mode w)))
                     any (UploadDirectory aw depth (PathToFile r) (ReqAuth r) [h])).
  { apply touches_UploadDirectory_with. intros r'. apply touches_UploadPOST. }
  destruct (Hframe w eq_refl) as (_ & Hcsvs & _).
  run. destruct (UploadDirectory aw depth (PathToFile r) (ReqAuth r) [h] w)
    as [[[] | e] w1]; simpl in *.
  - split; [by left|]. split.
    + exists new. split; [done|]. eapply Forall_impl; [apply H2|]. by intros s [? _].
    + intros loc L1 L2. apply Hcsvs. by intros [? | [? | ?]].
  - split; [right; eauto|]. split.
    + exists new. split; [done|]. eapply Forall_impl; [apply H2|]. by intros s [? _].
    + intros loc L1 L2. apply Hcsvs. by intros [? | [? | ?]].
Qed.

Lemma UploadPOST_directory_uses_ledger_as_URL_witness :
  (fst (UploadPOST HeaderWriter 1 (upload_of "testdata/test_directory") "custom.csv"
          world_production) = Ok None
   \/ exists e,
        fst (UploadPOST HeaderWriter 1 (upload_of "testdata/test_directory")
               "custom.csv" world_production) = Err e)
  /\ (exists new,
        sent (snd (UploadPOST HeaderWriter 1 (upload_of "testdata/test_directory")
                     "custom.csv" world_production))
        = sent world_production ++ new
        /\ Forall (fun s => sURL s = "custom.csv" +:+ "/file") new)
  /\ forall loc,
       loc <> selected_ledger (env_mode world_production) -> loc <> CSVFilePath ->
       csvs (snd (UploadPOST HeaderWriter 1 (upload_of "testdata/test_directory")
                    "custom.csv" world_production)) !! loc
       = csvs world_production !! loc.
Proof.
  apply (UploadPOST_directory_uses_ledger_as_URL HeaderWriter 0
           (upload_of "testdata/test_directory") "custom.csv" world_production
           [ "testdata/test_directory/file1.txt";
             "testdata/test_directory/subdir/file2.txt";
             "testdata/test_directory/subdir/deeper/file3.txt" ]).
  - discriminate.
  - reflexivity.
  - vm_compute. reflexivity.
  - intros f Hf. repeat (apply elem_of_cons in Hf as [-> | Hf]; [reflexivity|]).
    inversion Hf.
Defined.

(** ** What the audit log says *)

Lemma uploadFile_logged aw w r h content status json :
  PathToFile r <> "" ->
  PathToFile r <> "N/A" ->
  lookup_path w (PathToFile r) = Some (FileNode content) ->
  (is_Some (File r) -> FileName r <> "") ->
  remote w (sent w) (outgoing w r content) = Response status (Some json) ->
  exists x,
    uploadFile aw r h w
    = (fileHash ← CalculateFileHash (PathToFile r);
       SaveFileHash h (PathToFile r) fileHash;;
       mret x)
        (snd (SaveUploadInfoToCSV aw (logged_info w r content status json) CSVFilePath
                (set_sent (sent w ++ [outgoing w r content])
                   (if IsAuthAvailable (ReqAuth r) && negb (Anonymous r)
                    then set_header_auth (Some (APIKey (ReqAuth r))) w else w)))).
Proof.
  intros Hne HNA Hp Hname Hreply.
  unfold uploadFile.
  set (auth := IsAuthAvailable (ReqAuth r) && negb (Anonymous r)) in *.
  set (wa := if auth then set_header_auth (Some (APIKey (ReqAuth r))) w else w).
  assert (Hs : {| sURL := if String.eqb (URL r) "" then APIURL +:+ "/file" else URL r;
                  sFileName := sFileName (outgoing w r content);
                  sBody := sBody (outgoing w r content);
                  sAnonymous := Anonymous r;
                  sAuthorization := header_auth wa |} = outgoing w r content).
  { unfold outgoing, wa. fold auth. by destruct auth. }
  assert (Hprep :
    (match File r with
     | Some content0 =>
         if String.eqb (FileName r) "" then fail ErrMissingFilename
         else mimeType ← DetectContentType (head512 content0);
              mret (FileName r, content0,
                    if String.eqb (PathToFile r) "" then "N/A" else PathToFile r,
                    Z.of_nat (length content0), mimeType)
     | None =>
         content0 ← read_file (PathToFile r);
         fileSize ← GetFileSize (PathToFile r);
         mimeType ← GetMimeType (PathToFile r);
         mret (Base (PathToFile r), content0, PathToFile r, fileSize, mimeType)
     end) w
    = (Ok (sFileName (outgoing w r content), sBody (outgoing w r content),
           PathToFile r,
           utils.FileSize (logged_info w r content status json),
           utils.MIMEType (logged_info w r content status json)), w)).
  { unfold outgoing, logged_info; simpl. destruct (File r) as [stream|] eqn:EF.
    - rewrite eqb_empty_false by (apply Hname; eauto).
      by rewrite (eqb_empty_false _ Hne).
    - rewrite (bind_ok _ _ _ _ _ (read_file_run _ _ _ Hp)).
      unfold GetFileSize, GetMimeType. run. rewrite !Hp.
      clear. by destruct content. }
  rewrite (bind_ok _ _ _ _ _ Hprep).
  rewrite (bind_ok _ _ _ _ _ (auth_header_run auth _ w)). fold wa.
  assert (HPost :
    Post (if String.eqb (URL r) "" then APIURL +:+ "/file" else URL r)
      (sFileName (outgoing w r content)) (sBody (outgoing w r content))
      (Anonymous r) wa
    = (Ok (Response status (Some json)),
       set_sent (sent w ++ [outgoing w r content]) wa)).
  { unfold Post. rewrite Hs.
    replace (remote wa) with (remote w) by (unfold wa; by destruct auth).
    replace (sent wa) with (sent w) by (unfold wa; by destruct auth).
    by rewrite Hreply. }
  rewrite (bind_ok _ _ _ _ _ HPost).
  rewrite (proj2 (String.eqb_neq _ _) HNA).
  set (ws := set_sent _ wa).
  rewrite (bind_ok _ _ ws (now ws) ws) by done.
  replace (now ws) with (now w) by (unfold ws, wa; by destruct auth).
  assert (Hinfo :
    {| utils.FileName := sFileName (outgoing w r content);
       utils.DirectoryPath := PathToFile r;
       utils.URL := GetFileURL {| ID := jID json; Success := jSuccess json;
                                  StatusCode := status; Message := jMessage json |};
       utils.UploadDateTime := now w;
       utils.FileSize := utils.FileSize (logged_info w r content status json);
       utils.FormattedSize :=
         FormatFileSize (utils.FileSize (logged_info w r content status json));
       utils.MIMEType := utils.MIMEType (logged_info w r content status json);
       utils.Uploader := APIKey (ReqAuth r);
       utils.UploadStatus :=
         pretty (StatusCode {| ID := jID json; Success := jSuccess json;
                               StatusCode := status; Message := jMessage json |}) |}
    = logged_info w r content status json) by reflexivity.
  rewrite Hinfo.
  rewrite (bind_ok _ _ _ _ _ (SaveUploadInfoToCSV_run aw _ CSVFilePath ws)).
  rewrite SaveUploadInfoToCSV_run. simpl snd.
  eexists. reflexivity.
Qed.

Lemma snd_bind_ret {A B} (m : M A) (f : A -> B) w :
  snd ((a ← m; mret (f a)) w) = snd (m w).
Proof. run. by destruct (m w) as [[a | e] w1]. Qed.

(** X12: the record of an upload in the audit log.  For a request that
    names the path of a readable file (not the literal N/A) and is let
    through by the duplicate check, answered with any status and a JSON
    body, the audit log grows by what the writer writes for these fields:
    the file name sent, the path, BaseURL + "u/" + the id of the response,
    the time, the size, the MIME type, the API key of the request -- also
    when the request is anonymous -- and the status code. *)
Theorem UploadPOST_audit_record aw depth w r h content status json :
  PathToFile r <> "" ->
  PathToFile r <> "N/A" ->
  lookup_path w (PathToFile r) = Some (FileNode content) ->
  (is_Some (File r) -> FileName r <> "") ->
  h <> CSVFilePath ->
  two_columns (ledger w h) ->
  (forall path, ~ latest (ledger w h) path (sha256_hex content)) ->
  remote w (sent w) (outgoing w r content) = Response status (Some json) ->
  ledger (snd (UploadPOST aw depth r h w)) CSVFilePath
  = ledger w CSVFilePath
    ++ audit_rows aw (logged_info w r content status json) (ledger w CSVFilePath).
Proof.
  intros Hne HNA Hp Hname Hh Hwf Hnew Hreply.
  rewrite (UploadPOST_file aw depth r h w content Hne Hp). unfold post_file.
  destruct (IsDuplicate_run w h _ content Hp Hwf) as (b & Hrun & Hb).
  assert (b = false) as ->.
  { destruct b; [|done]. destruct Hb as [Hb _]. destruct (Hb eq_refl) as [path Hl].
    by destruct (Hnew path). }
  rewrite (bind_ok _ _ _ _ _ Hrun).
  set (wi := initialized h w).
  assert (Hsame : sent wi = sent w /\ remote wi = remote w
                  /\ outgoing wi r content = outgoing w r content
                  /\ logged_info wi r content status json
                     = logged_info w r content status json
                  /\ ledger wi CSVFilePath = ledger w CSVFilePath).
  { unfold wi. rewrite ledger_initialized_any. unfold initialized.
    by destruct (csvs w !! h). }
  destruct Hsame as (Hsent & Hremote & Hout & Hinfo & Hcsv).
  destruct (uploadFile_logged aw wi r h content status json)
    as (x & Hup); try done.
  { unfold wi. by rewrite lookup_path_initialized. }
  { by rewrite Hsent, Hremote, Hout. }
  rewrite SaveUploadInfoToCSV_run in Hup. simpl snd in Hup.
  match type of Hup with _ = _ ?wc0 => set (wc := wc0) in * end.
  assert (Hlog : ledger wc CSVFilePath
                 = ledger w CSVFilePath
                   ++ audit_rows aw (logged_info w r content status json)
                        (ledger w CSVFilePath)).
  { unfold wc, ledger at 1. simpl. rewrite lookup_insert_eq. simpl.
    rewrite Hinfo.
    replace (ledger (set_sent _ _) CSVFilePath) with (ledger wi CSVFilePath)
      by (unfold ledger; simpl;
          by destruct (IsAuthAvailable (ReqAuth r) && negb (Anonymous r))).
    by rewrite Hcsv. }
  assert (Hkeep : forall (m : M ResponseUpload),
    touches_only (env_mode wc) (fun loc => loc = h) any m ->
    ledger (snd (m wc)) CSVFilePath = ledger wc CSVFilePath).
  { intros m Hm. destruct (Hm wc eq_refl) as (_ & Hcsvs & _).
    unfold ledger. by rewrite Hcsvs by congruence. }
  rewrite snd_bind_ret, Hup, <- Hlog.
  apply Hkeep. touches_statements.
Qed.

(** The key of the request is written to the log although the upload is
    anonymous. *)
Lemma UploadPOST_audit_record_witness :
  ledger (snd (UploadPOST HeaderWriter 0 (anonymous_with_key "a.txt") "test_hashes.csv"
                 world_fresh)) CSVFilePath
  = ledger world_fresh CSVFilePath
    ++ audit_rows HeaderWriter
         (logged_info world_fresh (anonymous_with_key "a.txt") abc 201%Z
            {| jID := "mock-file-id"; jSuccess := true; jMessage := "" |})
         (ledger world_fresh CSVFilePath).
Proof.
  apply (UploadPOST_audit_record HeaderWriter 0 world_fresh (anonymous_with_key "a.txt")
           "test_hashes.csv" abc 201%Z
           {| jID := "mock-file-id"; jSuccess := true; jMessage := "" |}).
  - discriminate.
  - discriminate.
  - reflexivity.
  - intros [x Hx]. discriminate Hx.
  - discriminate.
  - vm_compute. constructor.
  - intros path (before & after & Heq & _). vm_compute in Heq. by destruct before.
  - reflexivity.
Defined.

Example anonymous_upload_logs_key :
  ledger (snd (UploadPOST HeaderWriter 0 (anonymous_with_key "a.txt") "test_hashes.csv"
                 world_fresh)) CSVFilePath
  = [ audit_header;
      ["a.txt"; "a.txt"; "https://pixeldrain.com/u/mock-file-id";
       "2024-06-01T12:00:00Z"; "3"; "application/octet-stream"; "test-api-key";
       "201"] ].
Proof. vm_compute. reflexivity. Qed.

(** ** The form of a digest *)

Lemma chars_append (a b : string) :
  list_ascii_of_string (a +:+ b) = list_ascii_of_string a ++ list_ascii_of_string b.
Proof. induction a as [|c a IH]; simpl; [done | by rewrite IH]. Qed.

Lemma length_chars (s : string) : String.length s = length (list_ascii_of_string s).
Proof. induction s as [|c s IH]; simpl; [done | by rewrite IH]. Qed.

Lemma round_keeps_eight acc k :
  length (fst acc) = 8%nat -> length (fst (Sha256.round acc k)) = 8%nat.
Proof.
  intros H. unfold Sha256.round. repeat case_match; simpl in *; done.
Qed.

Lemma rounds_keep_eight ks : forall acc,
  length (fst acc) = 8%nat ->
  length (fst (fold_left Sha256.round ks acc)) = 8%nat.
Proof.
  induction ks as [|k ks IH]; intros acc H; simpl; [done|].
  apply IH. by apply round_keeps_eight.
Qed.

Lemma compress_keeps_eight h block :
  length h = 8%nat -> length (Sha256.compress h block) = 8%nat.
Proof.
  intros H. unfold Sha256.compress.
  rewrite length_map, length_combine, H.
  by rewrite (rounds_keep_eight Sha256.K (h, _) H).
Qed.

Lemma sum_eight msg : length (Sha256.sum msg) = 8%nat.
Proof.
  unfold Sha256.sum.
  generalize (Sha256.chunks (length (Sha256.pad msg) / 64) 64 (Sha256.pad msg)).
  assert (H : length Sha256.H0 = 8%nat) by reflexivity. revert H.
  generalize Sha256.H0. intros h H blocks. revert h H.
  induction blocks as [|b blocks IH]; intros h H; simpl; [done|].
  apply IH. by apply compress_keeps_eight.
Qed.

Lemma digit_lower_hex x : is_lower_hex (Hex.digit (Z.land x 0xf)) = true.
Proof.
  change 0xf%Z with (Z.ones 4). rewrite Z.land_ones by lia.
  pose proof (Z.mod_pos_bound x (2 ^ 4) ltac:(lia)) as Hb.
  set (n := (x mod 2 ^ 4)%Z) in *.
  assert (Hn : n ∈ map Z.of_nat (seq 0 16)).
  { apply list_elem_of_fmap. exists (Z.to_nat n). split; [lia|].
    apply list_elem_of_In, in_seq. lia. }
  simpl in Hn. repeat (apply elem_of_cons in Hn as [-> | Hn]; [reflexivity|]).
  inversion Hn.
Qed.

Lemma of_word_chars n x :
  length (list_ascii_of_string (Hex.of_word n x)) = n
  /\ forallb is_lower_hex (list_ascii_of_string (Hex.of_word n x)) = true.
Proof.
  unfold Hex.of_word. rewrite list_ascii_of_string_of_list_ascii.
  split; [by rewrite length_map, length_rev, length_seq|].
  apply forallb_forall. intros c Hc. apply in_map_iff in Hc as (i & <- & _).
  apply digit_lower_hex.
Qed.

Lemma EncodeWords_chars ws :
  length (list_ascii_of_string (Hex.EncodeWords ws)) = (8 * length ws)%nat
  /\ forallb is_lower_hex (list_ascii_of_string (Hex.EncodeWords ws)) = true.
Proof.
  induction ws as [|x ws [IH1 IH2]]; [done|].
  cbn [Hex.EncodeWords fold_right]. fold (Hex.EncodeWords ws).
  rewrite chars_append, length_app, forallb_app, IH1, IH2.
  destruct (of_word_chars 8 x) as [-> ->]. simpl length. split; [lia | done].
Qed.

(** X13: the digest of a file.  For every readable file CalculateFileHash
    returns, without touching the world, a string of exactly 64 characters,
    each of them a digit or a letter from a to f. *)
Theorem CalculateFileHash_digest_form w p content :
  lookup_path w p = Some (FileNode content) ->
  exists digest,
    CalculateFileHash p w = (Ok digest, w)
    /\ String.length digest = 64%nat
    /\ forallb is_lower_hex (list_ascii_of_string digest) = true.
Proof.
  intros Hp. exists (sha256_hex content).
  split; [by apply CalculateFileHash_run|].
  unfold sha256_hex. rewrite length_chars.
  destruct (EncodeWords_chars
              (Sha256.sum (map (fun b => Z.of_N (Byte.to_N b)) content))) as [H1 H2].
  by rewrite H1, sum_eight.
Qed.

Lemma CalculateFileHash_digest_form_witness :
  exists digest,
    CalculateFileHash "a.txt" world_fresh = (Ok digest, world_fresh)
    /\ String.length digest = 64%nat
    /\ forallb is_lower_hex (list_ascii_of_string digest) = true.
Proof.
  apply (CalculateFileHash_digest_form world_fresh "a.txt" abc). reflexivity.
Defined.

(** ** The order of a listing *)

Lemma below_entry root name p : below (Join root name) p -> below root p.
Proof.
  unfold below, Join. intros [-> | [rest ->]]; right.
  - by exists name.
  - exists (name +:+ "/" +:+ rest). by rewrite !append_assoc.
Qed.

Lemma flatten_below n : forall root p x, (p, x) ∈ flatten root n -> below root p.
Proof.
  induction n as [content | entries IH | |] using node_nested_ind;
    intros root p x Hin; simpl in Hin;
    try (apply list_elem_of_singleton in Hin; injection Hin as -> _; by left).
  apply elem_of_cons in Hin as [Hin | Hin]; [injection Hin as -> _; by left|].
  apply list_elem_of_In, in_flat_map in Hin as ([name child] & Hentry & Hin).
  apply list_elem_of_In in Hentry, Hin.
  rewrite Forall_forall in IH. simpl in *.
  apply (below_entry root name). by apply (IH _ Hentry _ _ x).
Qed.

Lemma each_entry_files_below path entries :
  Forall (fun e => forall path' acc,
            readable (snd e) = true ->
            walk path' (snd e) acc = Ok (acc ++ files_below path' (snd e))) entries ->
  forall acc,
    forallb (fun e => readable (snd e)) entries = true ->
    each_entry walk path entries acc
    = Ok (acc ++ map fst (List.filter (fun e => is_file (snd e))
                            (flat_map (fun e => flatten (Join path (fst e)) (snd e))
                               entries))).
Proof.
  induction 1 as [|[name child] entries Hchild _ IH]; intros acc Hr; simpl.
  - by rewrite app_nil_r.
  - simpl in Hr. apply andb_true_iff in Hr as [Hr1 Hr2]. simpl in Hchild.
    rewrite (Hchild (Join path name) acc Hr1), (IH _ Hr2).
    rewrite List.filter_app, map_app, app_assoc. reflexivity.
Qed.

Lemma walk_files_below n : forall path acc,
  readable n = true -> walk path n acc = Ok (acc ++ files_below path n).
Proof.
  induction n as [content | entries IH | |] using node_nested_ind;
    intros path acc Hr; try discriminate Hr.
  - reflexivity.
  - simpl in Hr. simpl walk. by rewrite (each_entry_files_below path entries IH acc Hr).
Qed.

Lemma append_cons c (a b : string) : String c a +:+ b = String c (a +:+ b).
Proof. reflexivity. Qed.

Lemma elements_first (a : string) : exists el els, elements a = el :: els.
Proof.
  induction a as [|c a (el & els & IH)]; simpl; [eauto|].
  rewrite IH. destruct (Ascii.eqb c "/"); eauto.
Qed.

Lemma elements_separator (a b : string) :
  elements (a +:+ "/" +:+ b) = elements a ++ elements b.
Proof.
  induction a as [|c a IH]; [reflexivity|].
  rewrite append_cons. simpl elements. rewrite IH.
  destruct (Ascii.eqb c "/"); [reflexivity|].
  by destruct (elements_first a) as (el & els & ->).
Qed.

Lemma elements_plain name :
  forallb (fun c => negb (Ascii.eqb c "/")) (list_ascii_of_string name) = true ->
  elements name = [name].
Proof.
  induction name as [|c name IH]; [reflexivity|]. simpl.
  intros [Hc Hname]%andb_true_iff. apply negb_true_iff in Hc.
  by rewrite Hc, (IH Hname).
Qed.

Lemma elements_Join root name :
  plain name = true -> elements (Join root name) = elements root ++ [name].
Proof.
  unfold plain, Join. intros [_ Hname]%andb_true_iff.
  by rewrite elements_separator, (elements_plain name Hname).
Qed.

Lemma drop_parents_plain els name :
  plain name = true ->
  forallb plain (drop_parents els) = true ->
  forallb plain (drop_parents (els ++ [name])) = true.
Proof.
  intros Hname. induction els as [|el els IH]; simpl.
  - intros _. destruct (String.eqb name "..") eqn:E.
    + apply String.eqb_eq in E. by subst name.
    + simpl. by rewrite Hname.
  - destruct (String.eqb el ".."); [done|].
    intros H. change (forallb plain ((el :: els) ++ [name]) = true).
    rewrite List.forallb_app, H. simpl. by rewrite Hname.
Qed.

(** On a cleaned path and a plain name the concatenation is cleaned again:
    filepath.Clean has nothing to do. *)
Lemma cleaned_Join root name :
  cleaned root = true -> plain name = true -> cleaned (Join root name) = true.
Proof.
  intros Hroot Hname. unfold cleaned in *. rewrite (elements_Join _ _ Hname).
  destruct (elements root) as [|[|c el] els].
  - simpl. destruct name as [|c name]; [done|].
    by apply (drop_parents_plain [] _ Hname).
  - rewrite <- app_comm_cons. cbv iota beta.
    apply andb_true_iff in Hroot as [_ Hels].
    rewrite List.forallb_app, Hels. simpl. rewrite Hname.
    rewrite bool_decide_eq_false_2; [done|]. by destruct els.
  - rewrite <- app_comm_cons. cbv iota beta. rewrite app_comm_cons.
    by apply (drop_parents_plain (String c el :: els) _ Hname).
Qed.

Lemma flatten_cleaned n : forall root p x,
  cleaned root = true -> plain_names n = true ->
  (p, x) ∈ flatten root n -> cleaned p = true.
Proof.
  induction n as [content | entries IH | |] using node_nested_ind;
    intros root p x Hroot Hnames Hin; simpl in Hin;
    try (apply list_elem_of_singleton in Hin; by injection Hin as -> _).
  apply elem_of_cons in Hin as [Hin | Hin]; [by injection Hin as -> _|].
  apply list_elem_of_In, in_flat_map in Hin as ([name child] & Hentry & Hin).
  simpl in Hnames. rewrite forallb_forall in Hnames.
  destruct (proj1 (andb_true_iff _ _) (Hnames _ Hentry)) as [Hname Hchild].
  apply list_elem_of_In in Hentry, Hin.
  rewrite Forall_forall in IH. simpl in *.
  apply (IH _ Hentry (Join root name) p x); [by apply cleaned_Join | done | done].
Qed.

(** X14: the order of the listing.  For a root that is a cleaned path (one
    that filepath.Clean returns as it is, other than "." and "/") over a
    tree of plain entry names, where every directory below the root can be
    listed: GetFilesInDirectory returns the regular files in the order of
    descent -- the entries of a directory in the order they are read,
    everything below an entry before the next entry -- and every path it
    returns is the root as it was given, or the root followed by a
    separator and the names on the way down, and is a cleaned path
    itself. *)
Theorem GetFilesInDirectory_order w root n :
  cleaned root = true ->
  plain_names n = true ->
  lookup_path w root = Some n ->
  readable n = true ->
  GetFilesInDirectory root w = (Ok (files_below root n), w)
  /\ forall p, p ∈ files_below root n -> below root p /\ cleaned p = true.
Proof.
  intros Hclean Hnames Hroot Hr. split.
  - unfold GetFilesInDirectory. rewrite Hroot. by rewrite (walk_files_below n root [] Hr).
  - intros p Hp. unfold files_below in Hp.
    apply list_elem_of_fmap in Hp as ([p' x] & -> & Hp).
    apply list_elem_of_In, filter_In in Hp as [Hp _]. apply list_elem_of_In in Hp.
    split; [by apply (flatten_below n root p' x)|].
    by apply (flatten_cleaned n root p' x).
Qed.

Lemma GetFilesInDirectory_order_witness :
  GetFilesInDirectory "../testdata/test_directory" world_test_directory
  = (Ok (files_below "../testdata/test_directory" test_directory), world_test_directory)
  /\ forall p, p ∈ files_below "../testdata/test_directory" test_directory ->
       below "../testdata/test_directory" p /\ cleaned p = true.
Proof.
  apply (GetFilesInDirectory_order world_test_directory "../testdata/test_directory"
           test_directory); reflexivity.
Defined.

(** Roots that filepath.Clean would change are not cleaned paths. *)
Example cleaned_paths :
  map cleaned ["dir"; "/srv/data"; "../testdata/test_directory"; ".."]
  = [true; true; true; true]
  /\ map cleaned [""; "."; "/"; "dir/"; "./dir"; "a//b"; "a/../b"; "/.."]
     = [false; false; false; false; false; false; false; false].
Proof. split; reflexivity. Qed.

(** ** The writer with formatted sizes *)

(** X15: the audit writer with formatted sizes writes no header.  Any
    number of calls in a row succeed and leave the records that were there,
    followed by one record for each call, in the order of the calls; from
    an absent or empty store N calls leave N rows. *)
Theorem formatted_writer_rows infos filePath w :
  fst (save_each_formatted infos filePath w) = Ok tt
  /\ ledger (snd (save_each_formatted infos filePath w)) filePath
     = ledger w filePath ++ map formatted_row infos.
Proof.
  revert w. induction infos as [|info infos IH]; intros w.
  - simpl. by rewrite app_nil_r.
  - cbn [save_each_formatted].
    rewrite (bind_ok _ _ _ _ _ (csv_writer_formatted_run info filePath w)).
    match goal with |- context [save_each_formatted infos filePath ?w1] =>
      destruct (IH w1) as [H1 H2]; rewrite H1, H2
    end.
    split; [done|]. unfold ledger at 1. simpl. rewrite lookup_insert_eq. simpl.
    by rewrite <- app_assoc.
Qed.

Example formatted_writer_two_rows :
  ledger (snd (save_each_formatted [info_cat; info_cat] "test_upload_logs.csv"
                 world_fresh)) "test_upload_logs.csv"
  = [ formatted_row info_cat; formatted_row info_cat ].
Proof. vm_compute. reflexivity. Qed.

(** ** A reader together with a path *)

(** X16: when a request carries both a reader and a path, the bytes of the
    reader are what is sent, under the file name of the request, while the
    duplicate check and the ledger go by the file at the path: the record
    appended is the path with the digest of that file, whatever the reader
    yields. *)
Theorem UploadPOST_reader_and_path aw depth w r h stream content status json :
  File r = Some stream ->
  FileName r <> "" ->
  PathToFile r <> "" ->
  PathToFile r <> "N/A" ->
  lookup_path w (PathToFile r) = Some (FileNode content) ->
  h <> CSVFilePath ->
  two_columns (ledger w h) ->
  (forall path, ~ latest (ledger w h) path (sha256_hex content)) ->
  remote w (sent w) (outgoing w r content) = Response status (Some json) ->
  exists s,
    sent (snd (UploadPOST aw depth r h w)) = sent w ++ [s]
    /\ sBody s = stream
    /\ sFileName s = FileName r
    /\ ledger (snd (UploadPOST aw depth r h w)) h
       = ledger w h ++ [[PathToFile r; sha256_hex content]].
Proof.
  intros Hfile Hname Hne HNA Hp Hh Hwf Hnew Hreply.
  destruct (UploadPOST_recorded_run aw depth w r h content status json)
    as (w' & Hrun & Hsent & Hledger & _); try done.
  exists (outgoing w r content). rewrite Hrun. simpl.
  split; [done|]. unfold outgoing. rewrite Hfile. simpl. by split.
Qed.

Lemma UploadPOST_reader_and_path_witness :
  exists s,
    sent (snd (UploadPOST HeaderWriter 0 reader_and_path "test_hashes.csv" world_fresh))
    = sent world_fresh ++ [s]
    /\ sBody s = hello
    /\ sFileName s = FileName reader_and_path
    /\ ledger (snd (UploadPOST HeaderWriter 0 reader_and_path "test_hashes.csv"
                      world_fresh)) "test_hashes.csv"
       = ledger world_fresh "test_hashes.csv"
         ++ [[PathToFile reader_and_path; sha256_hex abc]].
Proof.
  apply (UploadPOST_reader_and_path HeaderWriter 0 world_fresh reader_and_path
           "test_hashes.csv" hello abc 201%Z
           {| jID := "mock-file-id"; jSuccess := true; jMessage := "" |}).
  - reflexivity.
  - discriminate.
  - discriminate.
  - discriminate.
  - reflexivity.
  - discriminate.
  - vm_compute. constructor.
  - intros path (before & after & Heq & _). vm_compute in Heq. by destruct before.
  - reflexivity.
Defined.

(** ** The ledger as a map *)

Lemma latest_exists rows path d :
  two_columns rows -> [path; d] ∈ rows -> exists d', latest rows path d'.
Proof.
  induction rows as [|rec rows IH] using rev_ind; intros Hwf Hd; [inversion Hd|].
  unfold two_columns in Hwf. rewrite Forall_app, Forall_singleton in Hwf.
  destruct Hwf as [Hwf Hrec].
  destruct rec as [|p [|x [|? ?]]]; try discriminate Hrec.
  destruct (decide (p = path)) as [-> | Hne].
  - exists x. by apply latest_snoc_same.
  - apply elem_of_app in Hd as [Hd | Hd].
    + destruct (IH Hwf Hd) as [d' Hd']. exists d'. by apply latest_snoc_other.
    + apply list_elem_of_singleton in Hd. congruence.
Qed.

(** X17: last write wins.  On a ledger of two-column records
    LoadFileHashes succeeds; the map it returns has an entry for a path
    exactly when some record names that path, and the entry is the digest
    of the last such record.  The records of every store stay as they are;
    the ledger is created empty when it was absent. *)
Theorem LoadFileHashes_last_write_wins w h :
  two_columns (ledger w h) ->
  exists hashes,
    fst (LoadFileHashes h w) = Ok hashes
    /\ (forall path d, hashes !! path = Some d <-> latest (ledger w h) path d)
    /\ (forall path, is_Some (hashes !! path) <-> exists d, [path; d] ∈ ledger w h)
    /\ (forall loc, ledger (snd (LoadFileHashes h w)) loc = ledger w loc)
    /\ is_Some (csvs (snd (LoadFileHashes h w)) !! h).
Proof.
  intros Hwf. destruct (LoadFileHashes_run w h Hwf) as (hashes & Hrun & Hspec).
  exists hashes. rewrite Hrun. simpl.
  split; [done|]. split; [done|]. split; [|split].
  - intros path. split.
    + intros [d Hd]. apply Hspec in Hd as (before & after & -> & _).
      exists d. apply elem_of_app. right. left.
    + intros [d Hd]. destruct (latest_exists _ path d Hwf Hd) as [d' Hl].
      exists d'. by apply Hspec.
  - intros loc. apply ledger_initialized_any.
  - unfold initialized. destruct (csvs w !! h) eqn:E; [by rewrite E|].
    simpl. rewrite lookup_insert_eq. eauto.
Qed.

Lemma LoadFileHashes_last_write_wins_witness :
  exists hashes,
    fst (LoadFileHashes "test_hashes.csv" world_rehashed) = Ok hashes
    /\ (forall path d,
          hashes !! path = Some d
          <-> latest (ledger world_rehashed "test_hashes.csv") path d)
    /\ (forall path,
          is_Some (hashes !! path)
          <-> exists d, [path; d] ∈ ledger world_rehashed "test_hashes.csv")
    /\ (forall loc,
          ledger (snd (LoadFileHashes "test_hashes.csv" world_rehashed)) loc
          = ledger world_rehashed loc)
    /\ is_Some (csvs (snd (LoadFileHashes "test_hashes.csv" world_rehashed))
                  !! "test_hashes.csv").
Proof.
  apply (LoadFileHashes_last_write_wins world_rehashed "test_hashes.csv").
  vm_compute. repeat constructor.
Defined.

Example rehashed_ledger_as_map :
  fst (LoadFileHashes "test_hashes.csv" world_rehashed)
  = Ok {[ "a.txt" := digest_hello ]}.
Proof. vm_compute. reflexivity. Qed.

(** X18: the duplicate check goes by content.  For two paths that hold the
    same bytes IsDuplicate gives the same answer -- yes, no, or the same
    error -- and leaves the same world, whatever the ledger holds. *)
Theorem IsDuplicate_same_bytes w h p q content :
  lookup_path w p = Some (FileNode content) ->
  lookup_path w q = Some (FileNode content) ->
  IsDuplicate h p w = IsDuplicate h q w.
Proof.
  intros Hp Hq. unfold IsDuplicate.
  by rewrite (bind_ok _ _ _ _ _ (CalculateFileHash_run _ _ _ Hp)),
             (bind_ok _ _ _ _ _ (CalculateFileHash_run _ _ _ Hq)).
Qed.

Lemma IsDuplicate_same_bytes_witness :
  IsDuplicate "test_hashes.csv" "a.txt" world_recorded
  = IsDuplicate "test_hashes.csv" "copy.txt" world_recorded.
Proof.
  apply (IsDuplicate_same_bytes world_recorded "test_hashes.csv" "a.txt" "copy.txt" abc);
    reflexivity.
Defined.

(** ** A rejected upload and the batch *)

(** X20: an answer of the service is no error, whatever its status.  When
    the files before one of the listed files succeed and that file is sent
    and answered with any status code and a JSON body -- a rejection
    included -- it is recorded and the batch goes on with the files that
    follow, in the world that this upload left. *)
Theorem UploadDirectory_goes_on_after_rejection
    aw depth dir auth baseURL w before f after w1 content status json :
  fst (GetFilesInDirectory dir w) = Ok (before ++ f :: after) ->
  upload_each (UploadPOST aw depth) auth (api_url baseURL)
    (selected_ledger (env_mode w)) before w = (Ok tt, w1) ->
  f <> "" -> f <> "N/A" ->
  lookup_path w1 f = Some (FileNode content) ->
  selected_ledger (env_mode w) <> CSVFilePath ->
  two_columns (ledger w1 (selected_ledger (env_mode w))) ->
  (forall path,
     ~ latest (ledger w1 (selected_ledger (env_mode w))) path (sha256_hex content)) ->
  remote w1 (sent w1) (outgoing w1 (batch_request auth (api_url baseURL) f) content)
  = Response status (Some json) ->
  UploadDirectory aw depth dir auth baseURL w
  = upload_each (UploadPOST aw depth) auth (api_url baseURL)
      (selected_ledger (env_mode w)) after
      (snd (UploadPOST aw depth (batch_request auth (api_url baseURL) f)
              (selected_ledger (env_mode w)) w1))
  /\ ledger (snd (UploadPOST aw depth (batch_request auth (api_url baseURL) f)
                    (selected_ledger (env_mode w)) w1))
       (selected_ledger (env_mode w))
     = ledger w1 (selected_ledger (env_mode w)) ++ [[f; sha256_hex content]].
Proof.
  intros Hfiles Hbefore Hne HNA Hp Hh Hwf Hnew Hreply.
  destruct (UploadPOST_recorded_run aw depth w1 (batch_request auth (api_url baseURL) f)
              (selected_ledger (env_mode w)) content status json)
    as (w2 & Hrun & _ & Hledger & _); try done.
  { intros [x Hx]. discriminate Hx. }
  rewrite (UploadDirectory_run _ _ _ _ _ _ _ Hfiles).
  rewrite upload_each_app, Hbefore. cbn [upload_each].
  fold (batch_request auth (api_url baseURL) f).
  rewrite (bind_ok _ _ _ _ _ Hrun), Hrun. simpl. by split.
Qed.

Lemma UploadDirectory_goes_on_after_rejection_witness :
  UploadDirectory HeaderWriter 0 "dir" key ["http://mock"] world_rejecting_batch
  = upload_each (UploadPOST HeaderWriter 0) key (api_url ["http://mock"])
      (selected_ledger (env_mode world_rejecting_batch)) ["dir/B"]
      (snd (UploadPOST HeaderWriter 0
              (batch_request key (api_url ["http://mock"]) "dir/A")
              (selected_ledger (env_mode world_rejecting_batch))
              world_rejecting_batch))
  /\ ledger (snd (UploadPOST HeaderWriter 0
                    (batch_request key (api_url ["http://mock"]) "dir/A")
                    (selected_ledger (env_mode world_rejecting_batch))
                    world_rejecting_batch))
       (selected_ledger (env_mode world_rejecting_batch))
     = ledger world_rejecting_batch (selected_ledger (env_mode world_rejecting_batch))
       ++ [["dir/A"; sha256_hex (bytes_of_string "first")]].
Proof.
  apply (UploadDirectory_goes_on_after_rejection HeaderWriter 0 "dir" key
           ["http://mock"] world_rejecting_batch [] "dir/A" ["dir/B"]
           world_rejecting_batch (bytes_of_string "first") 500%Z
           {| jID := ""; jSuccess := false; jMessage := "internal server error" |}).
  - reflexivity.
  - reflexivity.
  - discriminate.
  - discriminate.
  - reflexivity.
  - discriminate.
  - vm_compute. constructor.
  - intros path (before & after & Heq & _). vm_compute in Heq. by destruct before.
  - reflexivity.
Defined.

Example rejected_batch_runs_to_the_end :
  fst (UploadDirectory HeaderWriter 0 "dir" key ["http://mock"] world_rejecting_batch)
  = Ok tt
  /\ map sFileName
       (sent (snd (UploadDirectory HeaderWriter 0 "dir" key ["http://mock"]
                     world_rejecting_batch)))
     = ["A"; "B"]
  /\ map (fun rec => rec !! 0%nat)
       (ledger (snd (UploadDirectory HeaderWriter 0 "dir" key ["http://mock"]
                       world_rejecting_batch)) "test_hashes.csv")
     = [Some "dir/A"; Some "dir/B"].
Proof. repeat split; vm_compute; reflexivity. Qed.
